(** * NodeNormalization: compendium ingestion, statistics merging and resolution

    A shallow embedding of the Python sources

      - node_normalizer/load_compendium.py  (module [LoadCompendium])
      - node_normalizer/loader.py           (module [NodeLoader])
      - tests/test_norm.py                  ([MockRedis.mget])

    Python values read from JSON are kept dynamically typed ([json]); every
    Python operation that can raise returns a [result]; code that mutates
    local variables, instance attributes or the key-value store runs in the
    state-and-exception monad [M].  *)

From Stdlib Require Import List String Ascii ZArith Bool Lia Permutation.
Import ListNotations.

Set Implicit Arguments.

(* ================================================================= *)
(** * Python values, exceptions *)

(** The value [json.loads] builds.  [JDict] lists the items of the dict in
    insertion order, which is also the order [json.dumps] writes them in; a
    Python dict has pairwise distinct keys.  JSON numbers are restricted to
    integers. *)
#[warnings="-register-all"]
Inductive json : Type :=
| JNull
| JBool (b : bool)
| JNum (n : Z)
| JStr (s : string)
| JList (l : list json)
| JDict (d : list (string * json)).

(** One text line of a compendium file: either text that [json.loads]
    rejects, or the serialisation of a JSON value. *)
Inductive line : Type :=
| Garbage (text : string)
| Encoded (j : json).

(** The exception classes the code can meet; all derive from [Exception]. *)
Inductive exn : Type :=
| JSONDecodeError
| ValidationError
| KeyError
| IndexError
| TypeError
| AttributeError
| NameError
| ZeroDivisionError
| OSError
| ProviderError
| ConnectionError
| ResponseError.

Inductive result (A : Type) : Type :=
| Ok (a : A)
| Raise (e : exn).
Arguments Ok {A} a.
Arguments Raise {A} e.

Definition rbind {A B} (r : result A) (f : A -> result B) : result B :=
  match r with
  | Ok a => f a
  | Raise e => Raise e
  end.

(** A list comprehension whose element expression can raise. *)
Fixpoint map_result {A B} (f : A -> result B) (xs : list A) : result (list B) :=
  match xs with
  | [] => Ok []
  | x :: rest =>
      rbind (f x) (fun y => rbind (map_result f rest) (fun ys => Ok (y :: ys)))
  end.

(** A loop over a list whose body can raise, threading an accumulator. *)
Fixpoint fold_result {A B} (f : A -> B -> result A) (xs : list B) (a : A) : result A :=
  match xs with
  | [] => Ok a
  | x :: rest => rbind (f a x) (fold_result f rest)
  end.

(* ================================================================= *)
(** * Python dicts keyed by strings *)

Module Dict.

(** Items in insertion order. *)
Definition t (V : Type) : Type := list (string * V).

(** [d.get(k)] *)
Fixpoint get {V} (d : t V) (k : string) : option V :=
  match d with
  | [] => None
  | (k', v) :: rest => if String.eqb k' k then Some v else get rest k
  end.

(** [d.get(k, dflt)] *)
Definition get_default {V} (d : t V) (k : string) (dflt : V) : V :=
  match get d k with
  | Some v => v
  | None => dflt
  end.

(** [d[k] = v]: an existing key keeps its position, a new key goes last. *)
Fixpoint set {V} (d : t V) (k : string) (v : V) : t V :=
  match d with
  | [] => [(k, v)]
  | (k', v') :: rest =>
      if String.eqb k' k then (k', v) :: rest else (k', v') :: set rest k v
  end.

(** [k in d] *)
Definition mem {V} (d : t V) (k : string) : bool :=
  match get d k with
  | Some _ => true
  | None => false
  end.

(** [d.keys()] *)
Definition keys {V} (d : t V) : list string := map fst d.

(** The keys of a dict are pairwise distinct. *)
Definition wf {V} (d : t V) : Prop := NoDup (keys d).

End Dict.

(* ================================================================= *)
(** * Strings *)

(** [c.upper()] on one ASCII character. *)
Definition upper_ascii (c : ascii) : ascii :=
  let n := nat_of_ascii c in
  if andb (Nat.leb 97 n) (Nat.leb n 122) then ascii_of_nat (n - 32) else c.

(** [s.upper()], on ASCII text. *)
Fixpoint upper (s : string) : string :=
  match s with
  | EmptyString => EmptyString
  | String c rest => String (upper_ascii c) (upper rest)
  end.

(** [s.split(":")[0]]: the text before the first colon, all of [s] when it
    has none. *)
Fixpoint split_colon_0 (s : string) : string :=
  match s with
  | EmptyString => EmptyString
  | String c rest =>
      if Ascii.eqb c ":"%char then EmptyString else String c (split_colon_0 rest)
  end.

(** Iterating over a str yields its one-character strings. *)
Fixpoint chars (s : string) : list json :=
  match s with
  | EmptyString => []
  | String c rest => JStr (String c EmptyString) :: chars rest
  end.

(** [x in xs] for a list of str. *)
Definition in_list (x : string) (xs : list string) : bool :=
  existsb (String.eqb x) xs.

(* ================================================================= *)
(** * Dynamically typed operations *)

(** [json.loads(line)] *)
Definition json_loads (l : line) : result json :=
  match l with
  | Garbage _ => Raise JSONDecodeError
  | Encoded j => Ok j
  end.

(** [o[key]] for a str [key]. *)
Definition getitem (o : json) (key : string) : result json :=
  match o with
  | JDict d =>
      match Dict.get d key with
      | Some v => Ok v
      | None => Raise KeyError
      end
  | _ => Raise TypeError
  end.

(** [o[0]] *)
Definition getitem0 (o : json) : result json :=
  match o with
  | JList (x :: _) => Ok x
  | JList [] => Raise IndexError
  | JStr (String c _) => Ok (JStr (String c EmptyString))
  | JStr EmptyString => Raise IndexError
  | JDict _ => Raise KeyError
  | _ => Raise TypeError
  end.

(** [for x in o]: the elements of a list, the keys of a dict, the characters
    of a str. *)
Definition iterate (o : json) : result (list json) :=
  match o with
  | JList l => Ok l
  | JDict d => Ok (map JStr (Dict.keys d))
  | JStr s => Ok (chars s)
  | _ => Raise TypeError
  end.

(** [o.split(":")[0]]: only a str has [split]. *)
Definition str_split_colon_0 (o : json) : result string :=
  match o with
  | JStr s => Ok (split_colon_0 s)
  | _ => Raise AttributeError
  end.

(** [o.upper()]: only a str has [upper]. *)
Definition str_upper (o : json) : result string :=
  match o with
  | JStr s => Ok (upper s)
  | _ => Raise AttributeError
  end.

(** [p in s] for two str: [p] occurs in [s]. *)
Fixpoint is_substring (p s : string) : bool :=
  if String.prefix p s then true
  else match s with
       | EmptyString => false
       | String _ rest => is_substring p rest
       end.

(** [key in o] for a str [key]. *)
Definition contains (o : json) (key : string) : result bool :=
  match o with
  | JDict d => Ok (Dict.mem d key)
  | JList l =>
      Ok (existsb (fun x => match x with JStr s => String.eqb s key | _ => false end) l)
  | JStr s => Ok (is_substring key s)
  | _ => Raise TypeError
  end.

(** The hashable values of the model: a str, an int, a bool and None. *)
Inductive scalar : Type :=
| SStr (s : string)
| SNum (n : Z)
| SBool (b : bool)
| SNull.

(** A value used as a key of a dict or as an element of a set must be
    hashable: a list and a dict are not. *)
Definition hashable (o : json) : result scalar :=
  match o with
  | JStr s => Ok (SStr s)
  | JNum n => Ok (SNum n)
  | JBool b => Ok (SBool b)
  | JNull => Ok SNull
  | JList _ => Raise TypeError
  | JDict _ => Raise TypeError
  end.

(** [a == b] on hashable values, which is how a dict and a set compare
    their keys: [True] is the int 1 and [False] the int 0; a str, an int and
    None are never equal to one another. *)
Definition scalar_eqb (a b : scalar) : bool :=
  match a, b with
  | SStr x, SStr y => String.eqb x y
  | SNum x, SNum y => Z.eqb x y
  | SNum x, SBool y => Z.eqb x (if y then 1 else 0)
  | SBool x, SNum y => Z.eqb (if x then 1 else 0) y
  | SBool x, SBool y => Bool.eqb x y
  | SNull, SNull => true
  | _, _ => false
  end.

(** [input_type] as the nested [get_ancestors] of load_compendium.py uses
    it: as a key of [ancestor_map] (a list or a dict is unhashable), then as
    the argument of the ontology provider.  The provider is a library
    outside the sources, and [env] has it as a function of the names of
    semantic types, which are str: what it answers for another hashable
    value is not known, and the model lets the call raise there. *)
Definition type_name (o : json) : result string :=
  rbind (hashable o) (fun k =>
  match k with
  | SStr s => Ok s
  | _ => Raise TypeError
  end).

(** A Python dict keyed by hashable values, items in insertion order; keys
    are compared with [==]. *)
Module SDict.

Definition t (V : Type) : Type := list (scalar * V).

(** [d.get(k)] *)
Fixpoint get {V} (d : t V) (k : scalar) : option V :=
  match d with
  | [] => None
  | (k', v) :: rest => if scalar_eqb k' k then Some v else get rest k
  end.

(** [d.get(k, dflt)] *)
Definition get_default {V} (d : t V) (k : scalar) (dflt : V) : V :=
  match get d k with
  | Some v => v
  | None => dflt
  end.

(** [d[k] = v]: an existing key keeps its position and its key object, a
    new key goes last. *)
Fixpoint set {V} (d : t V) (k : scalar) (v : V) : t V :=
  match d with
  | [] => [(k, v)]
  | (k', v') :: rest =>
      if scalar_eqb k' k then (k', v) :: rest else (k', v') :: set rest k v
  end.

(** [k in d] *)
Definition mem {V} (d : t V) (k : scalar) : bool :=
  match get d k with
  | Some _ => true
  | None => false
  end.

(** [d.keys()] *)
Definition keys {V} (d : t V) : list scalar := map fst d.

End SDict.

(** A str passed where the store client needs text. *)
Definition as_text (o : json) : result string :=
  match o with
  | JStr s => Ok s
  | _ => Raise TypeError
  end.

(** [a % b] on ints: the sign follows the divisor, as for [Z.modulo]. *)
Definition py_mod (a b : Z) : result Z :=
  if Z.eqb b 0 then Raise ZeroDivisionError else Ok (Z.modulo a b).

(** [acc + count] where [acc] is an int and [count] comes from JSON: bool is
    a subclass of int, anything else but a number is a TypeError. *)
Definition py_add (acc : Z) (count : json) : result Z :=
  match count with
  | JNum n => Ok (acc + n)%Z
  | JBool b => Ok (acc + (if b then 1 else 0))%Z
  | _ => Raise TypeError
  end.

(** [list.add]: a list has no attribute [add]. *)
Definition list_add (xs : list string) (x : string) : result unit :=
  Raise AttributeError.

(* ================================================================= *)
(** * State and exceptions *)

(** A computation over the state [S]: it returns or raises, and the state it
    leaves behind is kept in both cases. *)
Definition M (S A : Type) : Type := S -> result A * S.

Definition ret {S A} (a : A) : M S A := fun s => (Ok a, s).

Definition raise {S A} (e : exn) : M S A := fun s => (Raise e, s).

Definition bind {S A B} (m : M S A) (f : A -> M S B) : M S B :=
  fun s =>
    match m s with
    | (Ok a, s') => f a s'
    | (Raise e, s') => (Raise e, s')
    end.

Definition lift {S A} (r : result A) : M S A := fun s => (r, s).

Definition gets {S A} (f : S -> A) : M S A := fun s => (Ok (f s), s).

Definition modify {S} (f : S -> S) : M S unit := fun s => (Ok tt, f s).

(** [try: m  except Exception as e: h e] *)
Definition try_except {S A} (m : M S A) (h : exn -> M S A) : M S A :=
  fun s =>
    match m s with
    | (Ok a, s') => (Ok a, s')
    | (Raise e, s') => h e s'
    end.

(** [for x in xs: body x] *)
Fixpoint for_each {S X} (xs : list X) (body : X -> M S unit) : M S unit :=
  match xs with
  | [] => ret tt
  | x :: rest => bind (body x) (fun _ => for_each rest body)
  end.

(** [if c: m] *)
Definition when {S} (c : bool) (m : M S unit) : M S unit :=
  if c then m else ret tt.

Declare Scope monad_scope.
Delimit Scope monad_scope with monad.
Notation "x <- m ;; k" := (bind m (fun x => k))
  (at level 61, m at next level, right associativity) : monad_scope.
Notation "m ;; k" := (bind m (fun _ => k))
  (at level 61, right associativity) : monad_scope.
Open Scope monad_scope.

(* ================================================================= *)
(** * The key-value store *)

(** Modelled from the spec: the key-value store (redis_adapter is not among
    the sources).  It offers get, set, mget, lpush, a key listing and a
    pipeline that carries out a sequence of writes in order, with no
    atomicity across the batch.  A database is an insertion-ordered table;
    a key holds a string or a list. *)
Inductive rvalue : Type :=
| RJson (j : json)          (* a string that is the [json.dumps] of [j] *)
| RText (s : string)        (* any other string *)
| RList (l : list string).  (* a list *)

(** Modelled from the spec: the writes a pipeline of the statistics
    database stages, [set] and [lpush]. *)
Inductive command : Type :=
| SET (key : string) (value : rvalue)
| LPUSH (key : string) (values : list string).

(** Modelled from the spec: the five namespaces of the store, under the
    connection names of the code. *)
Record redis : Type := mkRedis {
  eq_id_to_id_db : Dict.t string;
  id_to_eqids_db : Dict.t json;
  id_to_type_db : Dict.t string;
  info_content_db : Dict.t json;
  curie_to_bl_type_db : Dict.t rvalue
}.

(** Modelled from the spec: a pipeline of [set] calls is carried out in
    staging order, a later write to a key replacing an earlier one. *)
Definition execute_sets {V} (pipeline : list (string * V)) (db : Dict.t V) : Dict.t V :=
  fold_left (fun d kv => Dict.set d (fst kv) (snd kv)) pipeline db.

(** Modelled from the spec: one write.  [lpush(key, v1, .., vn)] pushes each
    value at the head in turn; on a key that holds a string the store
    answers with an error. *)
Definition apply_command (db : Dict.t rvalue) (c : command) : result (Dict.t rvalue) :=
  match c with
  | SET k v => Ok (Dict.set db k v)
  | LPUSH k vs =>
      match Dict.get db k with
      | None => Ok (Dict.set db k (RList (rev vs)))
      | Some (RList l) => Ok (Dict.set db k (RList (rev vs ++ l)))
      | Some _ => Raise ResponseError
      end
  end.

(** Modelled from the spec: the pipeline submission.  The commands run in
    order; the first error stops the batch and what was written before it
    stays written. *)
Fixpoint execute_commands (pipeline : list command) (db : Dict.t rvalue)
  : result unit * Dict.t rvalue :=
  match pipeline with
  | [] => (Ok tt, db)
  | c :: rest =>
      match apply_command db c with
      | Ok db' => execute_commands rest db'
      | Raise e => (Raise e, db)
      end
  end.

(** Modelled from the spec: [lrange(key, 0, -1)], the whole list under the
    key; an absent key gives the empty list, a key that holds a string an
    error. *)
Definition lrange_all (db : Dict.t rvalue) (key : string) : result (list string) :=
  match Dict.get db key with
  | None => Ok []
  | Some (RList l) => Ok l
  | Some _ => Raise ResponseError
  end.

(** Modelled from the spec: the key listing [keys("file-*")], the keys that
    start with [file-] in the order of the table. *)
Definition keys_file (db : Dict.t rvalue) : list string :=
  filter (String.prefix "file-") (Dict.keys db).

(** The external collaborators of one run. *)
Record env : Type := mkEnv {
  (** [open(name)]: the lines of the file, when it can be opened *)
  files : string -> option (list line);
  (** [toolkit.get_ancestors(t)] *)
  toolkit_get_ancestors : string -> result (list string);
  (** [toolkit.get_element(a)["class_uri"]] *)
  toolkit_class_uri : string -> result string;
  (** whether the store answers *)
  redis_up : bool;
  (** [util.validate_compendium(comp, logger)], which is not among the
      sources *)
  validate_compendium : string -> bool
}.

(* ================================================================= *)
(** * load_compendium.py *)

Module LoadCompendium.

(** The local variables of [load_compendium], with the store they write to. *)
Record frame : Type := mkFrame {
  ancestor_map : Dict.t (list string);
  source_prefixes : Dict.t (Dict.t Z);
  line_counter : Z;
  term2id_pipeline : list (string * string);
  id2eqids_pipeline : list (string * json);
  id2type_pipeline : list (string * string);
  info_content_pipeline : list (string * json);
  store : redis
}.

Definition set_ancestor_map (v : Dict.t (list string)) (f : frame) : frame :=
  mkFrame v (source_prefixes f) (line_counter f) (term2id_pipeline f)
    (id2eqids_pipeline f) (id2type_pipeline f) (info_content_pipeline f) (store f).

Definition set_source_prefixes (v : Dict.t (Dict.t Z)) (f : frame) : frame :=
  mkFrame (ancestor_map f) v (line_counter f) (term2id_pipeline f)
    (id2eqids_pipeline f) (id2type_pipeline f) (info_content_pipeline f) (store f).

Definition set_line_counter (v : Z) (f : frame) : frame :=
  mkFrame (ancestor_map f) (source_prefixes f) v (term2id_pipeline f)
    (id2eqids_pipeline f) (id2type_pipeline f) (info_content_pipeline f) (store f).

Definition set_term2id_pipeline (v : list (string * string)) (f : frame) : frame :=
  mkFrame (ancestor_map f) (source_prefixes f) (line_counter f) v
    (id2eqids_pipeline f) (id2type_pipeline f) (info_content_pipeline f) (store f).

Definition set_id2eqids_pipeline (v : list (string * json)) (f : frame) : frame :=
  mkFrame (ancestor_map f) (source_prefixes f) (line_counter f) (term2id_pipeline f)
    v (id2type_pipeline f) (info_content_pipeline f) (store f).

Definition set_id2type_pipeline (v : list (string * string)) (f : frame) : frame :=
  mkFrame (ancestor_map f) (source_prefixes f) (line_counter f) (term2id_pipeline f)
    (id2eqids_pipeline f) v (info_content_pipeline f) (store f).

Definition set_info_content_pipeline (v : list (string * json)) (f : frame) : frame :=
  mkFrame (ancestor_map f) (source_prefixes f) (line_counter f) (term2id_pipeline f)
    (id2eqids_pipeline f) (id2type_pipeline f) v (store f).

Definition set_store (v : redis) (f : frame) : frame :=
  mkFrame (ancestor_map f) (source_prefixes f) (line_counter f) (term2id_pipeline f)
    (id2eqids_pipeline f) (id2type_pipeline f) (info_content_pipeline f) v.

(** The frame on entry: [ancestor_map = {}], [source_prefixes = {}],
    [line_counter = 0]; the pipelines are created empty. *)
Definition enter (r : redis) : frame :=
  mkFrame [] [] 0%Z [] [] [] [] r.

(** The nested function [get_ancestors]: memoised in [ancestor_map]; the
    input type is put in front when the provider's answer lacks it.  The
    provider is asked about names, which are strings. *)
Definition get_ancestors (E : env) (input_type : json) : M frame (list string) :=
  t <- lift (type_name input_type) ;;
  am <- gets ancestor_map ;;
  match Dict.get am t with
  | Some ancs => ret ancs
  | None =>
      a <- lift (toolkit_get_ancestors E t) ;;
      ancs <- lift (map_result (toolkit_class_uri E) a) ;;
      let ancs := if in_list t ancs then ancs else t :: ancs in
      modify (set_ancestor_map (Dict.set am t ancs)) ;;
      ret ancs
  end.

(** Lines 220-225: count the source prefix of one member under one type. *)
Definition count_prefix (semantic_type source_prefix : string) : M frame unit :=
  sp <- gets source_prefixes ;;
  let counts := Dict.get_default sp semantic_type [] in
  match Dict.get counts source_prefix with
  | None =>
      modify (set_source_prefixes (Dict.set sp semantic_type (Dict.set counts source_prefix 1%Z)))
  | Some n =>
      modify (set_source_prefixes (Dict.set sp semantic_type (Dict.set counts source_prefix (n + 1)%Z)))
  end.

(** Lines 216-231, the body of the loop over the members of the class:
    count the prefix, stage the upper-cased term.  The raw-case write of
    line 231 is commented out in the source.  [identifier] is the ["i"] of
    the first member, which the first round has split at the colon: it is a
    str wherever it is staged. *)
Definition stage_member (identifier : json) (semantic_type : string) (equivalent_id : json)
  : M frame unit :=
  i <- lift (getitem equivalent_id "i") ;;
  source_prefix <- lift (str_split_colon_0 i) ;;
  count_prefix semantic_type source_prefix ;;
  equivalent_id <- lift (getitem equivalent_id "i") ;;
  term <- lift (str_upper equivalent_id) ;;
  canonical <- lift (as_text identifier) ;;
  p <- gets term2id_pipeline ;;
  modify (set_term2id_pipeline (p ++ [(term, canonical)])).

(** Lines 210-238, the statements of the loop over the semantic types that
    follow [semantic_types.add]: register the type, go through the members,
    then stage the equivalents, the type and the information content of the
    class. *)
Definition stage (instance identifier : json) (semantic_type : string) : M frame unit :=
  sp <- gets source_prefixes ;;
  when (negb (Dict.mem sp semantic_type))
       (modify (set_source_prefixes (Dict.set sp semantic_type []))) ;;
  ids <- lift (getitem instance "identifiers") ;;
  members <- lift (iterate ids) ;;
  for_each members (stage_member identifier semantic_type) ;;
  canonical <- lift (as_text identifier) ;;
  dumped <- lift (getitem instance "identifiers") ;;
  p <- gets id2eqids_pipeline ;;
  modify (set_id2eqids_pipeline (p ++ [(canonical, dumped)])) ;;
  ty <- lift (rbind (getitem instance "type") as_text) ;;
  p <- gets id2type_pipeline ;;
  modify (set_id2type_pipeline (p ++ [(canonical, ty)])) ;;
  has_ic <- lift (contains instance "ic") ;;
  when has_ic
       (ic <- lift (getitem instance "ic") ;;
        p <- gets info_content_pipeline ;;
        modify (set_info_content_pipeline (p ++ [(canonical, ic)]))).

(** Lines 241-244 and 255-258: [RedisConnection.execute_pipeline] on each of
    the four pipelines (modelled from the spec: it raises when the store
    does not answer). *)
Definition execute_pipelines (E : env) : M frame unit :=
  f <- gets (fun f => f) ;;
  if redis_up E then
    let r := store f in
    modify (set_store
      (mkRedis (execute_sets (term2id_pipeline f) (eq_id_to_id_db r))
               (execute_sets (id2eqids_pipeline f) (id_to_eqids_db r))
               (execute_sets (id2type_pipeline f) (id_to_type_db r))
               (execute_sets (info_content_pipeline f) (info_content_db r))
               (curie_to_bl_type_db r)))
  else raise ConnectionError.

(** Lines 247-250: four new, empty pipelines. *)
Definition new_pipelines : M frame unit :=
  modify (set_term2id_pipeline []) ;;
  modify (set_id2eqids_pipeline []) ;;
  modify (set_id2type_pipeline []) ;;
  modify (set_info_content_pipeline []).

(** The body of [for line in compendium], lines 187-252.  [semantic_types]
    is the list [get_ancestors] returned, and the first statement of the
    loop over it calls [add] on that list. *)
Definition process_line (E : env) (block_size : Z) (dry_run : bool) (l : line)
  : M frame unit :=
  modify (fun f => set_line_counter (line_counter f + 1)%Z f) ;;
  instance <- lift (json_loads l) ;;
  identifier <- lift (rbind (rbind (getitem instance "identifiers") getitem0)
                            (fun first => getitem first "i")) ;;
  input_type <- lift (getitem instance "type") ;;
  semantic_types <- get_ancestors E input_type ;;
  for_each semantic_types (fun semantic_type =>
    lift (list_add semantic_types semantic_type) ;;
    stage instance identifier semantic_type) ;;
  when (negb dry_run)
       (n <- gets line_counter ;;
        r <- lift (py_mod n block_size) ;;
        when (Z.eqb r 0) (execute_pipelines E ;; new_pipelines)).

(** The [try] block of [load_compendium], lines 172-262. *)
Definition load_compendium_body (E : env) (compendium_filename : string)
  (block_size : Z) (dry_run : bool) : M frame unit :=
  match files E compendium_filename with
  | None => raise OSError
  | Some compendium =>
      for_each compendium (process_line E block_size dry_run) ;;
      when (negb dry_run) (execute_pipelines E)
  end.

(** [load_compendium]: [False] when the [try] block raised, [True]
    otherwise.  The result comes with the frame at the return, so that the
    locals can be inspected. *)
Definition load_compendium_frame (E : env) (compendium_filename : string)
  (block_size : Z) (dry_run : bool) : M frame bool :=
  try_except
    (load_compendium_body E compendium_filename block_size dry_run ;; ret true)
    (fun _ => ret false).

(** [load_compendium] as its caller sees it: a result and the store. *)
Definition load_compendium (E : env) (compendium_filename : string)
  (block_size : Z) (dry_run : bool) : M redis bool :=
  fun r =>
    let (res, f) := load_compendium_frame E compendium_filename block_size dry_run (enter r) in
    (res, store f).

(** Modelled from the spec: [create_connection_pool(redis_config)] raises
    when the store does not answer. *)
Definition create_connection_pool (E : env) : M redis unit :=
  if redis_up E then ret tt else raise ConnectionError.

(** Modelled from the spec: [RedisConnection.execute_pipeline] on a pipeline
    of the statistics database. *)
Definition execute_pipeline (E : env) (pipeline : list command) : M redis unit :=
  fun r =>
    if redis_up E then
      let (res, db) := execute_commands pipeline (curie_to_bl_type_db r) in
      (res, mkRedis (eq_id_to_id_db r) (id_to_eqids_db r) (id_to_type_db r)
                    (info_content_db r) db)
    else (Raise ConnectionError, r).

(** Modelled from the spec: the pipelined [get] of one key; a key that
    holds a list makes the batch fail. *)
Definition fetch (db : Dict.t rvalue) (key : string) : result (option rvalue) :=
  match Dict.get db key with
  | Some (RList _) => Raise ResponseError
  | other => Ok other
  end.

(** Lines 113-115: a datum that is truthy is parsed and kept under its key;
    empty bytes and [None] are skipped. *)
Definition keep_meta_datum (all_meta_data : Dict.t json) (kv : string * option rvalue)
  : result (Dict.t json) :=
  match snd kv with
  | Some (RJson j) => Ok (Dict.set all_meta_data (fst kv) j)
  | Some (RText EmptyString) => Ok all_meta_data
  | Some (RText _) => Raise JSONDecodeError
  | Some (RList _) => Ok all_meta_data
  | None => Ok all_meta_data
  end.

(** [o.items()]: only a dict has [items]. *)
Definition items (o : json) : result (list (string * json)) :=
  match o with
  | JDict d => Ok d
  | _ => Raise AttributeError
  end.

(** Lines 124-128: one [(curie_prefix, count)] item of one type. *)
Definition add_count (bl_type : string) (sources_prefix : Dict.t (Dict.t Z))
  (item : string * json) : result (Dict.t (Dict.t Z)) :=
  let counts := Dict.get_default sources_prefix bl_type [] in
  let counts := Dict.set counts (fst item) (Dict.get_default counts (fst item) 0%Z) in
  rbind (py_add (Dict.get_default counts (fst item) 0%Z) (snd item)) (fun n =>
  Ok (Dict.set sources_prefix bl_type (Dict.set counts (fst item) n))).

(** Lines 121-128: one [(bl_type, curie_counts)] item of one file. *)
Definition add_type (sources_prefix : Dict.t (Dict.t Z)) (item : string * json)
  : result (Dict.t (Dict.t Z)) :=
  let sources_prefix :=
    Dict.set sources_prefix (fst item) (Dict.get_default sources_prefix (fst item) []) in
  rbind (items (snd item)) (fun curie_counts =>
  fold_result (add_count (fst item)) curie_counts sources_prefix).

(** Lines 119-128: the partial of one file. *)
Definition add_file (sources_prefix : Dict.t (Dict.t Z)) (entry : string * json)
  : result (Dict.t (Dict.t Z)) :=
  rbind (getitem (snd entry) "source_prefixes") (fun prefix_counts =>
  rbind (items prefix_counts) (fun prefix_counts =>
  fold_result add_type prefix_counts sources_prefix)).

(** Lines 117-128: [sources_prefix], summed over [all_meta_data.items()]. *)
Definition sum_meta_data (all_meta_data : Dict.t json) : result (Dict.t (Dict.t Z)) :=
  fold_result add_file all_meta_data [].

(** [json.dumps] of a dict of counts. *)
Definition dump_counts (counts : Dict.t Z) : json :=
  JDict (map (fun kv => (fst kv, JNum (snd kv))) counts).

(** Lines 130-138: the writes staged for the aggregate. *)
Definition stage_aggregate (sources_prefix : Dict.t (Dict.t Z)) : list command :=
  (if Nat.ltb 0 (List.length (Dict.keys sources_prefix))
   then [LPUSH "semantic_types" (Dict.keys sources_prefix)]
   else [])
  ++ map (fun item => SET (fst item) (RJson (dump_counts (snd item)))) sources_prefix.

(** Lines 95-115: the per-file partials as the run reads them. *)
Definition read_meta_data (db : Dict.t rvalue) : result (Dict.t json) :=
  let meta_data_keys :=
    filter (fun key => negb (String.eqb key "semantic_types")) (keys_file db) in
  rbind (map_result (fetch db) meta_data_keys) (fun meta_data =>
  fold_result keep_meta_datum (combine meta_data_keys meta_data) []).

(** Lines 94-138: everything [merge_semantic_meta_data] computes before it
    submits the pipeline. *)
Definition merge_pipeline (db : Dict.t rvalue) : result (list command) :=
  rbind (read_meta_data db) (fun all_meta_data =>
  rbind (sum_meta_data all_meta_data) (fun sources_prefix =>
  Ok (stage_aggregate sources_prefix))).

(** [merge_semantic_meta_data] *)
Definition merge_semantic_meta_data (E : env) (dry_run : bool) : M redis unit :=
  if redis_up E then
    db <- gets curie_to_bl_type_db ;;
    types_prefixes_pipeline <- lift (merge_pipeline db) ;;
    when (negb dry_run) (execute_pipeline E types_prefixes_pipeline)
  else raise ConnectionError.

(** Lines 52-55: the first invalid file ends [load] with [False]. *)
Fixpoint all_valid (E : env) (compendium_file : list string) : bool :=
  match compendium_file with
  | [] => true
  | comp :: rest => if validate_compendium E comp then all_valid E rest else false
  end.

(** Evaluating a name that is bound neither in the function nor in the
    module. *)
Definition unbound_name {S} (name : string) : M S json := raise NameError.

(** [load].  In line 72 the name [source_prefixes] is read; it is a local
    variable of [load_compendium], and neither [load] nor the module binds
    it. *)
Definition load (E : env) (compendium_file : list string) (block_size : Z)
  (dry_run : bool) : M redis bool :=
  if all_valid E compendium_file then
    try_except
      (create_connection_pool E ;;
       for_each compendium_file (fun comp =>
         loaded <- load_compendium E comp block_size dry_run ;;
         source_prefixes <- unbound_name "source_prefixes" ;;
         let semantic_types_redis_pipeline :=
           [SET ("file-" ++ comp)%string
                (RJson (JDict [("source_prefixes"%string, source_prefixes)]))] in
         when (negb dry_run) (execute_pipeline E semantic_types_redis_pipeline)) ;;
       merge_semantic_meta_data E dry_run)
      (fun e => raise e) ;;
    ret true
  else ret false.

End LoadCompendium.

(* ================================================================= *)
(** * loader.py *)

Module NodeLoader.

(** What the instance reads from its configuration: [_test_mode], and the
    JSON schema [_validate_with] (resources/valid_data_format.json is not
    among the sources), as the records it accepts. *)
Record config : Type := mkConfig {
  test_mode : Z;
  validate_with : json -> bool
}.

(** A batch handed to [RedisConnection.execute_pipeline]. *)
Inductive batch : Type :=
| Term2id (pipeline : list (string * json))
| Id2instance (pipeline : list (json * line)).

(** The instance attributes [semantic_types] (a set) and [source_prefixes]
    (a dict of dicts, keyed by the type and then by the prefix), the locals
    of [load_compendium], and the batches submitted so far. *)
Record state : Type := mkState {
  semantic_types : list scalar;
  source_prefixes : SDict.t (Dict.t Z);
  line_counter : Z;
  term2id_pipeline : list (string * json);
  id2instance_pipeline : list (json * line);
  submitted : list batch
}.

Definition set_semantic_types (v : list scalar) (s : state) : state :=
  mkState v (source_prefixes s) (line_counter s) (term2id_pipeline s)
    (id2instance_pipeline s) (submitted s).

Definition set_source_prefixes (v : SDict.t (Dict.t Z)) (s : state) : state :=
  mkState (semantic_types s) v (line_counter s) (term2id_pipeline s)
    (id2instance_pipeline s) (submitted s).

Definition set_line_counter (v : Z) (s : state) : state :=
  mkState (semantic_types s) (source_prefixes s) v (term2id_pipeline s)
    (id2instance_pipeline s) (submitted s).

Definition set_term2id_pipeline (v : list (string * json)) (s : state) : state :=
  mkState (semantic_types s) (source_prefixes s) (line_counter s) v
    (id2instance_pipeline s) (submitted s).

Definition set_id2instance_pipeline (v : list (json * line)) (s : state) : state :=
  mkState (semantic_types s) (source_prefixes s) (line_counter s) (term2id_pipeline s)
    v (submitted s).

Definition set_submitted (v : list batch) (s : state) : state :=
  mkState (semantic_types s) (source_prefixes s) (line_counter s) (term2id_pipeline s)
    (id2instance_pipeline s) v.

(** [jsonschema.validate(instance=instance, schema=self._validate_with)] *)
Definition jsonschema_validate (C : config) (instance : json) : result unit :=
  if validate_with C instance then Ok tt else Raise ValidationError.

(** The loop of [validate_compendia] over the sampled lines: the first line
    that raises ends it with [False]. *)
Fixpoint validate_lines (C : config) (sample : list line) : bool :=
  match sample with
  | [] => true
  | l :: rest =>
      match rbind (json_loads l) (jsonschema_validate C) with
      | Ok _ => validate_lines C rest
      | Raise _ => false
      end
  end.

(** [islice(compendium, n)] *)
Definition islice {A} (xs : list A) (n : nat) : list A := firstn n xs.

(** [validate_compendia]: [open] is outside the [try]. *)
Definition validate_compendia (C : config) (E : env) (in_file : string) : result bool :=
  match files E in_file with
  | None => Raise OSError
  | Some compendium => Ok (validate_lines C (islice compendium 5))
  end.

(** [x in s] on a set: some element is equal to [x]. *)
Definition in_set (x : scalar) (s : list scalar) : bool :=
  existsb (fun y => scalar_eqb y x) s.

(** [s.add(x)] on a set: an equal element that is there already stays. *)
Definition set_add (x : scalar) (s : list scalar) : list scalar :=
  if in_set x s then s else s ++ [x].

(** Lines 331-338 *)
Definition count_prefix (semantic_type : scalar) (source_prefix : string) : M state unit :=
  sp <- gets source_prefixes ;;
  let counts := SDict.get_default sp semantic_type [] in
  match Dict.get counts source_prefix with
  | None =>
      modify (set_source_prefixes (SDict.set sp semantic_type (Dict.set counts source_prefix 1%Z)))
  | Some n =>
      modify (set_source_prefixes (SDict.set sp semantic_type (Dict.set counts source_prefix (n + 1)%Z)))
  end.

(** Modelled from the spec: [RedisConnection.execute_pipeline] as lines
    349-350 and 354-355 call it, on the two pipelines in turn; each batch is
    handed to the store client as it stands, the pipeline objects are kept,
    and the call raises when the store does not answer. *)
Definition submit (E : env) : M state unit :=
  if redis_up E then
    modify (fun s => set_submitted
      (submitted s ++ [Term2id (term2id_pipeline s); Id2instance (id2instance_pipeline s)]) s)
  else raise ConnectionError.

(** Lines 329-344, the body of the loop over the equivalent identifiers:
    count the prefix, stage the term as it is and upper-cased. *)
Definition stage_member (identifier : json) (semantic_type : scalar) (equivalent_id : json)
  : M state unit :=
  source_prefix <- lift (rbind (getitem equivalent_id "identifier") str_split_colon_0) ;;
  count_prefix semantic_type source_prefix ;;
  equivalent_id <- lift (rbind (getitem equivalent_id "identifier") as_text) ;;
  p <- gets term2id_pipeline ;;
  modify (set_term2id_pipeline (p ++ [(equivalent_id, identifier)])) ;;
  p <- gets term2id_pipeline ;;
  modify (set_term2id_pipeline (p ++ [(upper equivalent_id, identifier)])).

(** Lines 319-346, the body of the loop over the types of the record.  The
    type goes into a set and is a key of [source_prefixes]: it has to be
    hashable, and need not be a str. *)
Definition stage_type (l : line) (instance identifier : json) (semantic_type : json)
  : M state unit :=
  semantic_type <- lift (hashable semantic_type) ;;
  modify (fun s => set_semantic_types (set_add semantic_type (semantic_types s)) s) ;;
  sp <- gets source_prefixes ;;
  when (negb (SDict.mem sp semantic_type))
       (modify (set_source_prefixes (SDict.set sp semantic_type []))) ;;
  members <- lift (rbind (getitem instance "equivalent_identifiers") iterate) ;;
  for_each members (stage_member identifier semantic_type) ;;
  p <- gets id2instance_pipeline ;;
  modify (set_id2instance_pipeline (p ++ [(identifier, l)])).

(** The body of [for line in compendium], lines 310-351. *)
Definition process_line (C : config) (E : env) (block_size : Z) (l : line) : M state unit :=
  modify (fun s => set_line_counter (line_counter s + 1)%Z s) ;;
  instance <- lift (json_loads l) ;;
  identifier <- lift (rbind (getitem instance "id") (fun i => getitem i "identifier")) ;;
  types <- lift (rbind (getitem instance "type") iterate) ;;
  for_each types (stage_type l instance identifier) ;;
  when (negb (Z.eqb (test_mode C) 1))
       (n <- gets line_counter ;;
        r <- lift (py_mod n block_size) ;;
        when (Z.eqb r 0) (submit E)).

(** [load_compendium]: the locals start afresh, the instance attributes are
    those of [self]; [get_redis] opens a connection pool, which raises when
    the store does not answer. *)
Definition load_compendium (C : config) (E : env) (compendium_filename : string)
  (block_size : Z) : M state bool :=
  modify (set_line_counter 0%Z) ;;
  try_except
    ((if redis_up E then ret tt else raise ConnectionError) ;;
     modify (set_term2id_pipeline []) ;;
     modify (set_id2instance_pipeline []) ;;
     match files E compendium_filename with
     | None => raise OSError
     | Some compendium =>
         for_each compendium (process_line C E block_size) ;;
         when (negb (Z.eqb (test_mode C) 1)) (submit E)
     end ;;
     ret true)
    (fun _ => ret false).

(** Lines 188-198 of [load]: every file is validated first, and an invalid
    one is skipped. *)
Definition load_files (C : config) (E : env) (compendia : list string) (block_size : Z)
  : M state unit :=
  for_each compendia (fun comp =>
    valid <- lift (validate_compendia C E comp) ;;
    if valid : bool then
      loaded <- load_compendium C E comp block_size ;; ret tt
    else ret tt).

(** A step of the loader, run where the store is at hand as well. *)
Definition on_loader {A} (m : M state A) : M (state * redis) A :=
  fun sr => let (res, s') := m (fst sr) in (res, (s', snd sr)).

(** [a.difference(b)] where [b] is a set of str (line 213 decodes what the
    store returned): an element of [a] is dropped when it is equal to an
    element of [b], and only a str is equal to a str. *)
Definition difference (a : list scalar) (b : list string) : list scalar :=
  filter (fun x => negb (match x with SStr t => in_list t b | _ => false end)) a.

(** Line 224: one [set] of the pipeline, as the store receives it.
    [store_text] is how the store client (redis_adapter is not among the
    sources) writes a hashable value as text, where it accepts it. *)
Definition stage_set (store_text : scalar -> result string)
  (item : scalar * Dict.t Z) : result command :=
  rbind (store_text (fst item)) (fun key =>
  Ok (SET key (RJson (LoadCompendium.dump_counts (snd item))))).

(** Lines 218-224 of [load]: the writes staged for the statistics, as the
    store receives them. *)
Definition stage_statistics (store_text : scalar -> result string) (s : state)
  : result (list command) :=
  rbind (if Nat.ltb 0 (List.length (semantic_types s))
         then rbind (map_result store_text (semantic_types s)) (fun types =>
              Ok [LPUSH "semantic_types" types])
         else Ok []) (fun push =>
  rbind (map_result (stage_set store_text) (source_prefixes s)) (fun sets =>
  Ok (push ++ sets))).

(** [load].  [get_compendia] returns one path per configured file, so the
    test of line 186 holds and its [else] is not reached; the handler of
    line 234 raises the exception again.  The read of the current list
    (modelled from the spec: [lrange]) is carried out in test mode too.  The
    pipeline keeps the arguments of the staged calls as they are given, and
    the client writes them as text when the pipeline is executed (line 228):
    a value that it refuses raises there, and nothing is sent. *)
Definition load (C : config) (E : env) (store_text : scalar -> result string)
  (compendia : list string) (block_size : Z) : M (state * redis) bool :=
  try_except
    (on_loader (load_files C E compendia block_size) ;;
     (if redis_up E then ret tt else raise ConnectionError) ;;
     db <- gets (fun sr => curie_to_bl_type_db (snd sr)) ;;
     current_types <- lift (lrange_all db "semantic_types") ;;
     modify (fun sr =>
       (set_semantic_types (difference (semantic_types (fst sr)) current_types) (fst sr),
        snd sr)) ;;
     s <- gets fst ;;
     when (negb (Z.eqb (test_mode C) 1))
          (types_prefixes_pipeline <- lift (stage_statistics store_text s) ;;
           fun sr =>
             let (res, r') := LoadCompendium.execute_pipeline E types_prefixes_pipeline (snd sr) in
             (res, (fst sr, r'))) ;;
     ret true)
    (fun e => raise e).

(** What [convert_to_kgx] uses besides the compendia:
    [hashlib.md5(text.encode("utf-8")).hexdigest()], the last part of a path
    ([comp.parts[-1]]), and whether the two output files can be opened for
    writing. *)
Record kgx_env : Type := mkKgxEnv {
  md5_hexdigest : string -> string;
  parts_last : string -> string;
  can_write : bool
}.

(** The locals of [convert_to_kgx] and the two output files.  A write is
    kept as the prefix and the records whose [json.dumps], joined by
    newlines, follow it. *)
Record kgx : Type := mkKgx {
  kgx_line_counter : Z;
  nodes : list json;
  edges : list json;
  first : bool;
  node_file : list (string * list json);
  edge_file : list (string * list json)
}.

Definition set_kgx_line_counter (v : Z) (k : kgx) : kgx :=
  mkKgx v (nodes k) (edges k) (first k) (node_file k) (edge_file k).

Definition set_nodes (v : list json) (k : kgx) : kgx :=
  mkKgx (kgx_line_counter k) v (edges k) (first k) (node_file k) (edge_file k).

Definition set_edges (v : list json) (k : kgx) : kgx :=
  mkKgx (kgx_line_counter k) (nodes k) v (first k) (node_file k) (edge_file k).

Definition set_first (v : bool) (k : kgx) : kgx :=
  mkKgx (kgx_line_counter k) (nodes k) (edges k) v (node_file k) (edge_file k).

Definition set_node_file (v : list (string * list json)) (k : kgx) : kgx :=
  mkKgx (kgx_line_counter k) (nodes k) (edges k) (first k) v (edge_file k).

Definition set_edge_file (v : list (string * list json)) (k : kgx) : kgx :=
  mkKgx (kgx_line_counter k) (nodes k) (edges k) (first k) (node_file k) v.

(** The locals as lines 55-72 set them, before anything is written. *)
Definition kgx_start : kgx := mkKgx 0%Z [] [] true [] [].

(** [len(o)] *)
Definition py_len (o : json) : result nat :=
  match o with
  | JList l => Ok (List.length l)
  | JDict d => Ok (List.length d)
  | JStr s => Ok (String.length s)
  | _ => Raise TypeError
  end.

(** [itertools.combinations(l, 2)] *)
Fixpoint combinations {A} (l : list A) : list (A * A) :=
  match l with
  | [] => []
  | x :: rest => map (pair x) rest ++ combinations rest
  end.

(** Lines 98-106: the node made for one equivalent identifier. *)
Definition pass_node (instance equiv_id : json) : result json :=
  rbind (contains equiv_id "label") (fun has_label =>
  rbind (if has_label : bool then getitem equiv_id "label" else Ok (JStr "")) (fun name =>
  rbind (getitem equiv_id "identifier") (fun i =>
  rbind (getitem instance "type") (fun category =>
  rbind (rbind (getitem instance "equivalent_identifiers") iterate) (fun xs =>
  rbind (map_result (fun x => getitem x "identifier") xs) (fun ids =>
  Ok (JDict [("id"%string, i); ("name"%string, name); ("category"%string, category);
             ("equivalent_identifiers"%string, JList ids)]))))))).

(** Lines 112-117: the edge made for one pair of nodes; [+] needs a str on
    both sides. *)
Definition same_as_edge (K : kgx_env) (comp source : string) (c : json * json)
  : result json :=
  rbind (rbind (getitem (fst c) "id") as_text) (fun subject =>
  rbind (rbind (getitem (snd c) "id") as_text) (fun object =>
  let record_id :=
    (subject ++ "biolink:same_as" ++ object ++ "NodeNormalizer:" ++ comp)%string in
  Ok (JDict [("id"%string, JStr (md5_hexdigest K record_id));
             ("subject"%string, JStr subject);
             ("predicate"%string, JStr "biolink:same_as");
             ("object"%string, JStr object);
             ("source_database"%string, JStr ("NodeNormalizer:" ++ source)%string)]))).

(** Lines 123-148: the write at the threshold. *)
Definition write_block : M kgx unit :=
  is_first <- gets first ;;
  let prefix := if is_first : bool then EmptyString else String "010" EmptyString in
  modify (set_first false) ;;
  modify (set_kgx_line_counter 0%Z) ;;
  modify (fun k => set_node_file (node_file k ++ [(prefix, nodes k)]) k) ;;
  es <- gets edges ;;
  when (Nat.ltb 0 (List.length es))
       (modify (fun k => set_edge_file (edge_file k ++ [(prefix, edges k)]) k)) ;;
  modify (set_nodes []) ;;
  modify (set_edges []).

(** Lines 85-148, the body of [for line in compendium]; [pass_nodes] is
    cleared at the start of every round. *)
Definition kgx_line (K : kgx_env) (comp source : string) (l : line) : M kgx unit :=
  modify (fun k => set_kgx_line_counter (kgx_line_counter k + 1)%Z k) ;;
  instance <- lift (json_loads l) ;;
  n <- lift (rbind (getitem instance "equivalent_identifiers") py_len) ;;
  pass_nodes <-
    (if Nat.ltb 0 n then
       members <- lift (rbind (getitem instance "equivalent_identifiers") iterate) ;;
       pass_nodes <- lift (map_result (pass_node instance) members) ;;
       for_each (combinations pass_nodes) (fun c =>
         edge <- lift (same_as_edge K comp source c) ;;
         modify (fun k => set_edges (edges k ++ [edge]) k)) ;;
       ret pass_nodes
     else ret []) ;;
  modify (fun k => set_nodes (nodes k ++ pass_nodes) k) ;;
  lc <- gets kgx_line_counter ;;
  when (Z.eqb lc 10000) write_block.

(** Lines 75-160, the body of [for comp in compendia]: an invalid file is
    skipped; after the lines of a valid one, what [nodes] and [edges] hold
    is written, and the two lists are left as they are. *)
Definition kgx_file (C : config) (K : kgx_env) (E : env) (comp : string) : M kgx unit :=
  valid <- lift (validate_compendia C E comp) ;;
  if valid : bool then
    match files E comp with
    | None => raise OSError
    | Some compendium =>
        let source := parts_last K comp in
        for_each compendium (kgx_line K comp source) ;;
        ns <- gets nodes ;;
        when (Nat.ltb 0 (List.length ns))
             (modify (fun k => set_node_file
                        (node_file k ++ [(String "010" EmptyString, nodes k)]) k)) ;;
        es <- gets edges ;;
        when (Nat.ltb 0 (List.length es))
             (modify (fun k => set_edge_file
                        (edge_file k ++ [(String "010" EmptyString, edges k)]) k))
    end
  else ret tt.

(** [convert_to_kgx], with what it has written.  As in [load], the test of
    line 66 holds. *)
Definition convert_to_kgx (C : config) (K : kgx_env) (E : env) (compendia : list string)
  : result bool * kgx :=
  try_except
    ((if can_write K then ret tt else raise OSError) ;;
     for_each compendia (kgx_file C K E) ;;
     ret true)
    (fun _ => ret false)
    kgx_start.

End NodeLoader.

(* ================================================================= *)
(** * tests/test_norm.py *)

Module MockRedis.

(** [mget]: one answer per argument, in the order of the arguments, [None]
    for a key the data lacks. *)
Definition mget {V} (data : Dict.t V) (args : list string) : list (option V) :=
  map (fun x => if Dict.mem data x then Dict.get data x else None) args.

End MockRedis.

(* ================================================================= *)
(** * Resolution *)

Module Normalizer.

(** Modelled from the spec: the result of a resolution,
    [{ id: {identifier, label}, equivalent_identifiers: [...], type: [leafType] }]. *)
Record LabeledID : Type := mkLabeledID {
  identifier : string;
  label : option string
}.

(** Modelled from the spec: [ResolvedNode]. *)
Record ResolvedNode : Type := mkResolvedNode {
  id : LabeledID;
  equivalent_identifiers : list LabeledID;
  type : list string
}.

(** Modelled from the spec: one stored member, [{"i": identifier, "l": label}]
    with the label optional. *)
Definition decode_member (j : json) : list LabeledID :=
  match getitem j "i" with
  | Ok (JStr i) =>
      [mkLabeledID i (match getitem j "l" with Ok (JStr l) => Some l | _ => None end)]
  | _ => []
  end.

(** Modelled from the spec: the stored equivalence list of a canonical
    identifier. *)
Definition decode_equivalents (stored : option json) : list LabeledID :=
  match stored with
  | Some (JList members) => flat_map decode_member members
  | _ => []
  end.

(** Modelled from the spec: step (3) of the resolution for one canonical
    identifier. *)
Definition assemble_node (canonical : string) (stored : option json)
  (leaf_type : option string) : ResolvedNode :=
  let members := decode_equivalents stored in
  mkResolvedNode
    (mkLabeledID canonical (match members with m :: _ => label m | [] => None end))
    members
    (match leaf_type with Some t => [t] | None => [] end).

(** Modelled from the spec: the canonical identifiers that were found, in
    order. *)
Fixpoint resolved (canonical : list (option string)) : list string :=
  match canonical with
  | [] => []
  | Some c :: rest => c :: resolved rest
  | None :: rest => resolved rest
  end.

(** Modelled from the spec: the answers of the second round go back to the
    positions of the first; a position that found no canonical identifier
    gets [None] and uses up no answer. *)
Fixpoint assemble (canonical : list (option string))
  (answers : list (option json * option string)) : list (option ResolvedNode) :=
  match canonical with
  | [] => []
  | None :: rest => None :: assemble rest answers
  | Some c :: rest =>
      match answers with
      | (stored, leaf_type) :: answers' =>
          Some (assemble_node c stored leaf_type) :: assemble rest answers'
      | [] => None :: assemble rest []
      end
  end.

(** Modelled from the spec: the resolution engine [get_normalized_nodes]
    (normalizer.py is not among the sources), section 4.6: (1) uppercase
    every input identifier and batch-lookup term-to-canonical; (2) for the
    resolved canonical identifiers, batch-lookup canonical-to-equivalents
    and canonical-to-type; (3) assemble one optional node per input
    position.  The batch lookups are [mget]; a store that does not answer
    is a service-level failure. *)
Definition resolve (E : env) (r : redis) (identifiers : list string)
  : result (list (option ResolvedNode)) :=
  if redis_up E then
    let canonical := MockRedis.mget (eq_id_to_id_db r) (map upper identifiers) in
    let found := resolved canonical in
    let stored := MockRedis.mget (id_to_eqids_db r) found in
    let leaf_types := MockRedis.mget (id_to_type_db r) found in
    Ok (assemble canonical (combine stored leaf_types))
  else Raise ConnectionError.

End Normalizer.

(* ================================================================= *)
(** * util.py *)

(** Operations of Python's [str] and [list] that util.py uses, on ASCII
    text. *)
Module Py.

(** [c in s] for a one-character [c]. *)
Fixpoint has_char (c : ascii) (s : string) : bool :=
  match s with
  | EmptyString => false
  | String a rest => Ascii.eqb a c || has_char c rest
  end.

(** [s.split(c)] for a one-character separator: one part more than there
    are separators. *)
Fixpoint split (c : ascii) (s : string) : list string :=
  match s with
  | EmptyString => [EmptyString]
  | String a rest =>
      if Ascii.eqb a c then EmptyString :: split c rest
      else match split c rest with
           | part :: parts => String a part :: parts
           | [] => [String a EmptyString]
           end
  end.

(** [s.split(c, 1)]: split at the first separator only. *)
Fixpoint split1 (c : ascii) (s : string) : list string :=
  match s with
  | EmptyString => [EmptyString]
  | String a rest =>
      if Ascii.eqb a c then [EmptyString; rest]
      else match split1 c rest with
           | part :: parts => String a part :: parts
           | [] => [String a EmptyString]
           end
  end.

(** [c.isspace()] on ASCII. *)
Definition isspace (c : ascii) : bool :=
  let n := nat_of_ascii c in
  (Nat.leb 9 n && Nat.leb n 13) || (Nat.leb 28 n && Nat.leb n 32).

(** [s.split()]: the maximal runs of characters that are not whitespace. *)
Fixpoint split_whitespace (s : string) : list string :=
  match s with
  | EmptyString => []
  | String a rest =>
      if isspace a then split_whitespace rest
      else match rest with
           | EmptyString => [String a EmptyString]
           | String b _ =>
               if isspace b then String a EmptyString :: split_whitespace rest
               else match split_whitespace rest with
                    | word :: words => String a word :: words
                    | [] => [String a EmptyString]
                    end
           end
  end.

(** [sep.join(parts)] *)
Definition join (sep : string) (parts : list string) : string :=
  String.concat sep parts.

(** [l[i]]: a negative index counts from the end. *)
Definition item {A} (l : list A) (i : Z) : result A :=
  let found :=
    if Z.leb 0 i then nth_error l (Z.to_nat i)
    else nth_error (rev l) (Z.to_nat (- i - 1)) in
  match found with
  | Some x => Ok x
  | None => Raise IndexError
  end.

(** [l[1:]] *)
Definition from_1 {A} (l : list A) : list A := skipn 1 l.

(** [l[-1:]] *)
Definition last_1 {A} (l : list A) : list A := skipn (List.length l - 1) l.

(** [s[:k]]: a negative [k] counts from the end. *)
Definition slice_to (s : string) (k : Z) : string :=
  let n := Z.of_nat (String.length s) in
  let stop := if Z.ltb k 0 then Z.max 0 (n + k) else Z.min k n in
  String.substring 0 (Z.to_nat stop) s.

End Py.

Module Util.

(** [get_numerical_curie_suffix].  [int] is Python's conversion of a str,
    [None] where it raises ValueError. *)
Definition get_numerical_curie_suffix (int : string -> option Z) (curie : string)
  : result (option Z) :=
  let curie_parts := Py.split1 ":" curie in
  if Nat.ltb 0 (List.length curie_parts) then
    rbind (Py.item curie_parts 1) (fun suffix =>
    match int suffix with
    | Some n => Ok (Some n)
    | None => Ok None
    end)
  else Ok None.

(** [Munge.gene] *)
Definition gene (gene : string) : result string :=
  if String.prefix "http://" gene then Py.item (Py.last_1 (Py.split "/" gene)) 0
  else Ok gene.

(** [Text.get_curie] *)
Definition get_curie (text : string) : result (option string) :=
  if Py.has_char ":" text
  then rbind (Py.item (Py.split1 ":" (upper text)) 0) (fun p => Ok (Some p))
  else Ok None.

(** [Text.un_curie] *)
Definition un_curie (text : string) : string :=
  if Py.has_char ":" text then Py.join ":" (Py.from_1 (Py.split1 ":" text)) else text.

(** [Text.short], for a str [obj]: an empty str is falsy. *)
Definition short (obj : string) (limit : Z) : option string :=
  let text := match obj with EmptyString => None | _ => Some obj end in
  match text with
  | Some text =>
      let n := Z.of_nat (String.length text) in
      Some (Py.slice_to text (Z.min n limit)
            ++ (if Z.ltb limit n then "..." else ""))%string
  | None => None
  end.

(** [Text.path_last] *)
Definition path_last (text : string) : result string :=
  if Py.has_char "/" text then Py.item (Py.last_1 (Py.split "/" text)) 0
  else Ok text.

(** [Text.obo_to_curie] *)
Definition obo_to_curie (text : string) : result string :=
  rbind (Py.item (Py.split "/" text) (-1)) (fun last =>
  Ok (Py.join ":" (Py.split "_" last))).

(** [Text.opt_to_curie] *)
Definition opt_to_curie (text : option string) : result (option string) :=
  match text with
  | None => Ok None
  | Some text =>
      if String.prefix "http://purl.obolibrary.org" text
         || String.prefix "http://www.orpha.net" text
      then rbind (Py.item (Py.split "/" text) (-1)) (fun last =>
           Ok (Some (Py.join ":" (Py.split "_" last))))
      else if String.prefix "http://linkedlifedata.com/resource/umls" text
      then rbind (Py.item (Py.split "/" text) (-1)) (fun last =>
           Ok (Some ("UMLS:" ++ last)%string))
      else if String.prefix "http://identifiers.org/" text
      then let p := Py.split "/" text in
           rbind (Py.item p (-2)) (fun namespace =>
           rbind (Py.item p (-1)) (fun local =>
           Ok (Some (upper namespace ++ ":" ++ local)%string)))
      else Ok (Some text)
  end.

(** [Text.curie_to_obo] *)
Definition curie_to_obo (text : string) : result string :=
  let x := Py.split ":" text in
  rbind (Py.item x 0) (fun x0 =>
  rbind (Py.item x 1) (fun x1 =>
  Ok ("<http://purl.obolibrary.org/obo/" ++ x0 ++ "_" ++ x1 ++ ">")%string)).

(** [Text.snakify] *)
Definition snakify (text : string) : string :=
  let decomma := Py.join "_" (Py.split "," text) in
  let dedash := Py.join "_" (Py.split "-" decomma) in
  let resu := Py.join "_" (Py.split_whitespace dedash) in
  resu.

(** [Text.upper_curie] *)
Definition upper_curie (text : string) : result string :=
  if negb (Py.has_char ":" text) then Ok text
  else
    let p := Py.split1 ":" text in
    rbind (Py.item p 0) (fun p0 =>
    rbind (Py.item p 1) (fun p1 =>
    Ok (upper p0 ++ ":" ++ p1)%string)).

(** [uniquify_list], on a list of str: the comprehension keeps [x] when it
    is not in [seen], and [seen_add(x)] records it. *)
Fixpoint uniquify_from (seen : list string) (seq : list string) : list string :=
  match seq with
  | [] => []
  | x :: rest =>
      if in_list x seen then uniquify_from seen rest
      else x :: uniquify_from (x :: seen) rest
  end.

Definition uniquify_list (seq : list string) : list string := uniquify_from [] seq.

End Util.

(* ================================================================= *)
(** * server.py *)

Module Server.

(** What a handler gives the framework: the body it returns, or the
    HTTPException it raises. *)
Inductive reply (A : Type) : Type :=
| Body (a : A)
| HTTPException (status_code : Z) (detail : string).

Arguments Body {A} a.
Arguments HTTPException {A} status_code detail.

(** [get_semantic_types_handler]; the body is
    [SemanticTypes(semantic_types={'types': types})], given by its [types]. *)
Definition get_semantic_types_handler (E : env) (r : redis)
  : result (reply (list string)) :=
  if redis_up E then
    rbind (lrange_all (curie_to_bl_type_db r) "semantic_types") (fun types =>
    match types with
    | [] => Ok (HTTPException 404 "No semantic types discovered.")
    | _ :: _ => Ok (Body types)
    end)
  else Raise ConnectionError.

End Server.

(* ================================================================= *)
(** * Vocabulary of the statements *)

(** A prefix-count mapping, typed: semantic type, then prefix, then count. *)
Definition partial : Type := Dict.t (Dict.t Z).

(** The count of a (semantic type, prefix) pair, zero when absent. *)
Definition count (p : partial) (T X : string) : Z :=
  Dict.get_default (Dict.get_default p T []) X 0%Z.

(** Both levels of a mapping have pairwise distinct keys. *)
Definition partial_wf (p : partial) : Prop :=
  Dict.wf p /\ Forall (fun tc => Dict.wf (snd tc)) p.

(** The JSON document [{"source_prefixes": p}] persisted for one file. *)
Definition dump_partial (p : partial) : json :=
  JDict [("source_prefixes"%string,
          JDict (map (fun tc => (fst tc, LoadCompendium.dump_counts (snd tc))) p))].

(** What [all_meta_data] holds for a list of files with their partials. *)
Definition meta_data_of (files : list (string * partial)) : Dict.t json :=
  map (fun kp => (fst kp, dump_partial (snd kp))) files.

Definition sumZ (l : list Z) : Z := fold_right Z.add 0%Z l.

(** All the counts a list of items holds under one key; for pairwise
    distinct keys this is the count under that key. *)
Fixpoint total (cc : Dict.t Z) (X : string) : Z :=
  match cc with
  | [] => 0%Z
  | (k, v) :: rest => ((if String.eqb k X then v else 0) + total rest X)%Z
  end.

Fixpoint total2 (p : partial) (T X : string) : Z :=
  match p with
  | [] => 0%Z
  | (k, cc) :: rest => ((if String.eqb k T then total cc X else 0) + total2 rest T X)%Z
  end.

(** Whether a mapping has an entry for a (semantic type, prefix) pair. *)
Definition has_pair (p : partial) (T X : string) : bool :=
  Dict.mem (Dict.get_default p T []) X.

(** Whether some item of a list has the key, at one level and at two. *)
Definition any (cc : Dict.t Z) (X : string) : bool :=
  existsb (fun kv => String.eqb (fst kv) X) cc.

Definition any2 (p : partial) (T X : string) : bool :=
  existsb (fun tc => String.eqb (fst tc) T && any (snd tc) X) p.

Definition anyT (p : partial) (T : string) : bool :=
  existsb (fun tc => String.eqb (fst tc) T) p.

(** What one step of the merge adds to an aggregate: [dc] to the counts,
    [dt] to the types present, [dx] to the pairs present. *)
Definition grows (sp sp' : partial) (dc : string -> string -> Z)
  (dt : string -> bool) (dx : string -> string -> bool) : Prop :=
  (forall T X, count sp' T X = (count sp T X + dc T X)%Z) /\
  (forall T, Dict.mem sp' T = dt T || Dict.mem sp T) /\
  (forall T X, has_pair sp' T X = dx T X || has_pair sp T X).

(** The number of members whose identifier has the prefix [X]. *)
Fixpoint members_with_prefix (eids : list string) (X : string) : Z :=
  match eids with
  | [] => 0%Z
  | eid :: rest =>
      ((if String.eqb (split_colon_0 eid) X then 1 else 0) + members_with_prefix rest X)%Z
  end.

(** The entries of the statistics database that a merge reads: those under
    the keys [keys("file-*")] lists, in the order it lists them. *)
Definition file_partials (db : Dict.t rvalue) : list (string * rvalue) :=
  filter (fun kv => String.prefix "file-" (fst kv)) db.

(** The identifier of a stored member, under the key the format uses. *)
Definition member_id (key : string) (m : json) : result string :=
  rbind (getitem m key) as_text.

(** The term-to-canonical writes the current loader stages for the members
    of one class: the upper-cased identifier only. *)
Definition upper_writes (canonical : string) (eids : list string) : list (string * string) :=
  map (fun eid => (upper eid, canonical)) eids.


(** The last value a pipeline of [set] calls writes under a key. *)
Fixpoint last_set {V} (pipeline : list (string * V)) (k : string) : option V :=
  match pipeline with
  | [] => None
  | (k', v) :: rest =>
      match last_set rest k with
      | Some w => Some w
      | None => if String.eqb k' k then Some v else None
      end
  end.

(** The key a command writes. *)
Definition command_key (c : command) : string :=
  match c with
  | SET k _ => k
  | LPUSH k _ => k
  end.

(** A sampled line passes the pre-check: it parses and the schema accepts
    the record. *)
Definition line_passes (C : NodeLoader.config) (l : line) : bool :=
  match rbind (json_loads l) (NodeLoader.jsonschema_validate C) with
  | Ok _ => true
  | Raise _ => false
  end.

(** What a step of [load_compendium] has staged, counted and written stays
    as it was. *)
Definition untouched (f f' : LoadCompendium.frame) : Prop :=
  LoadCompendium.source_prefixes f' = LoadCompendium.source_prefixes f /\
  LoadCompendium.term2id_pipeline f' = LoadCompendium.term2id_pipeline f /\
  LoadCompendium.id2eqids_pipeline f' = LoadCompendium.id2eqids_pipeline f /\
  LoadCompendium.id2type_pipeline f' = LoadCompendium.id2type_pipeline f /\
  LoadCompendium.info_content_pipeline f' = LoadCompendium.info_content_pipeline f /\
  LoadCompendium.store f' = LoadCompendium.store f.

(** The list of semantic types the statistics database holds, empty when
    the key is absent. *)
Definition semantic_types_list (db : Dict.t rvalue) : list string :=
  match Dict.get db "semantic_types" with
  | Some (RList l) => l
  | _ => []
  end.

(** A computation of [NodeLoader] that hands no batch to the store,
    whether it returns or raises. *)
Definition submits_nothing {A} (m : M NodeLoader.state A) : Prop :=
  forall s, NodeLoader.submitted (snd (m s)) = NodeLoader.submitted s.

(** A computation of [NodeLoader] that keeps a property of the instance,
    whether it returns or raises. *)
Definition preserves {A} (P : NodeLoader.state -> Prop) (m : M NodeLoader.state A) : Prop :=
  forall s, P s -> P (snd (m s)).

(** What a hashable value is equal to as a key: itself, a bool being the
    int it is equal to. *)
Definition as_key (x : scalar) : scalar :=
  match x with
  | SBool b => SNum (if b then 1 else 0)
  | other => other
  end.



(** The count [NodeLoader] holds for a type and a prefix, zero when
    absent. *)
Definition type_count (sp : SDict.t (Dict.t Z)) (T : scalar) (X : string) : Z :=
  Dict.get_default (SDict.get_default sp T []) X 0%Z.

(** How many of the values are equal to [T] as keys. *)
Definition occurrences (T : scalar) (l : list scalar) : Z :=
  Z.of_nat (List.length (filter (scalar_eqb T) l)).

(** The nodes [convert_to_kgx] makes for one line: one for each equivalent
    identifier of the record, in order. *)
Definition line_nodes (l : line) : result (list json) :=
  rbind (json_loads l) (fun instance =>
  rbind (rbind (getitem instance "equivalent_identifiers") NodeLoader.py_len) (fun n =>
  if Nat.ltb 0 n then
    rbind (rbind (getitem instance "equivalent_identifiers") iterate)
          (map_result (NodeLoader.pass_node instance))
  else Ok [])).

(** The subject and the object of an edge, and the identifiers of a pair of
    nodes. *)
Definition edge_ends (edge : json) : result json * result json :=
  (getitem edge "subject", getitem edge "object").

Definition pair_ids (c : json * json) : result json * result json :=
  (getitem (fst c) "id", getitem (snd c) "id").

(** Resolution of one identifier, position by position. *)
Definition resolve_one (r : redis) (x : string) : option Normalizer.ResolvedNode :=
  match Dict.get (eq_id_to_id_db r) (upper x) with
  | None => None
  | Some c =>
      Some (Normalizer.assemble_node c (Dict.get (id_to_eqids_db r) c)
                                       (Dict.get (id_to_type_db r) c))
  end.

(* ================================================================= *)
(** * Concrete inputs *)

(** The compendium line of the end-to-end example:
    [{"type":"biolink:Disease","identifiers":[{"i":"MONDO:0005002"},{"i":"DOID:3812"}]}] *)
Definition disease_record : json :=
  JDict [("type"%string, JStr "biolink:Disease");
         ("identifiers"%string,
          JList [JDict [("i"%string, JStr "MONDO:0005002")];
                 JDict [("i"%string, JStr "DOID:3812")]])].

(** A gene whose identifier is not all upper case. *)
Definition gene_record : json :=
  JDict [("type"%string, JStr "biolink:Gene");
         ("identifiers"%string, JList [JDict [("i"%string, JStr "NCBIGene:1017")]])].

(** The same gene in the format [NodeLoader] reads. *)
Definition gene_record_legacy : json :=
  JDict [("id"%string, JDict [("identifier"%string, JStr "NCBIGene:1017")]);
         ("equivalent_identifiers"%string,
          JList [JDict [("identifier"%string, JStr "NCBIGene:1017")]]);
         ("type"%string, JList [JStr "gene"])].

(** A record that lists its type twice and has two members. *)
Definition gene_record_twice : json :=
  JDict [("id"%string, JDict [("identifier"%string, JStr "NCBIGene:1017")]);
         ("equivalent_identifiers"%string,
          JList [JDict [("identifier"%string, JStr "NCBIGene:1017")];
                 JDict [("identifier"%string, JStr "HGNC:1771")]]);
         ("type"%string, JList [JStr "gene"; JStr "gene"])].

(** A digest that shows its input, the file name as the last part of the
    path, and output files that can be written. *)
Definition example_kgx : NodeLoader.kgx_env :=
  NodeLoader.mkKgxEnv (fun text => ("md5:" ++ text)%string) (fun comp => comp) true.

(** A record whose types are not str: the int 1 and [True]. *)
Definition numbered_record : json :=
  JDict [("id"%string, JDict [("identifier"%string, JStr "NCBIGene:1017")]);
         ("equivalent_identifiers"%string,
          JList [JDict [("identifier"%string, JStr "NCBIGene:1017")]]);
         ("type"%string, JList [JNum 1; JBool true])].

(** Two files, an ontology in which a disease is a named thing, a store
    that answers, and a pre-check that accepts every file. *)
Definition example_env : env :=
  mkEnv
    (fun name =>
       if String.eqb name "diseases.txt" then Some [Encoded disease_record]
       else if String.eqb name "genes.txt" then Some [Encoded gene_record]
       else if String.eqb name "genes_legacy.txt" then Some [Encoded gene_record_legacy]
       else if String.eqb name "broken.txt"
            then Some [Encoded gene_record_legacy; Garbage "{"; Encoded gene_record_legacy]
       else if String.eqb name "late_error.txt"
            then Some (repeat (Encoded gene_record_legacy) 5 ++ [Garbage "{"])
       else if String.eqb name "empty.txt" then Some []
       else None)
    (fun t =>
       if String.eqb t "biolink:Disease" then Ok ["disease"; "named thing"]%string
       else Ok [])
    (fun a =>
       if String.eqb a "disease" then Ok "biolink:Disease"%string
       else Ok "biolink:NamedThing"%string)
    true
    (fun _ => true).

Definition empty_redis : redis := mkRedis [] [] [] [] [].

(** A [NodeLoader] outside test mode whose schema asks for the fields
    [id], [equivalent_identifiers] and [type]. *)
Definition example_config : NodeLoader.config :=
  NodeLoader.mkConfig 0
    (fun instance =>
       match getitem instance "id", getitem instance "equivalent_identifiers",
             getitem instance "type" with
       | Ok _, Ok _, Ok _ => true
       | _, _, _ => false
       end).

Definition fresh_state : NodeLoader.state := NodeLoader.mkState [] [] 0 [] [] [].



(** The data of the mocks in tests/test_norm.py. *)
Definition mock_redis : redis :=
  mkRedis
    [("DOID:3812", "MONDO:0005002"); ("MONDO:0005002", "MONDO:0005002")]%string
    [("MONDO:0005002"%string,
      JList [JDict [("i"%string, JStr "MONDO:0005002")];
             JDict [("i"%string, JStr "DOID:3812")]])]
    [("MONDO:0005002", "biolink:Disease")]%string
    []
    [].

(** Two per-file partials that count prefix X under type T, 3 and 5 times. *)
Definition two_partials : list (string * partial) :=
  [("file-a", [("T", [("X", 3%Z)])]); ("file-b", [("T", [("X", 5%Z)])])]%string.

Definition two_partials_db : Dict.t rvalue :=
  map (fun kp => (fst kp, RJson (dump_partial (snd kp)))) two_partials.

(** A store whose statistics database holds these two partials. *)
Definition two_partials_redis : redis := mkRedis [] [] [] [] two_partials_db.

(** One partial with a semantic type named like a per-file key. *)
Definition odd_partial_redis : redis :=
  mkRedis [] [] [] []
    [("file-a"%string, RJson (dump_partial [("file-T", [("X", 1%Z)])]%string))].

(* ================================================================= *)
(** * Facts about dicts *)

Module DictFacts.

Lemma get_set_eq {V} (d : Dict.t V) k v : Dict.get (Dict.set d k v) k = Some v.
Proof.
  induction d as [|[k' v'] d IH]; simpl.
  - now rewrite String.eqb_refl.
  - destruct (String.eqb k' k) eqn:E; simpl; rewrite E; auto.
Qed.

Lemma get_set_ne {V} (d : Dict.t V) k k' v :
  k <> k' -> Dict.get (Dict.set d k v) k' = Dict.get d k'.
Proof.
  intros N. induction d as [|[k0 v0] d IH]; simpl.
  - destruct (String.eqb_spec k k'); congruence.
  - destruct (String.eqb_spec k0 k); simpl.
    + subst k0. destruct (String.eqb_spec k k'); congruence.
    + now rewrite IH.
Qed.

Lemma get_default_set_eq {V} (d : Dict.t V) k v dflt :
  Dict.get_default (Dict.set d k v) k dflt = v.
Proof. unfold Dict.get_default. now rewrite get_set_eq. Qed.

Lemma get_default_set_ne {V} (d : Dict.t V) k k' v dflt :
  k <> k' -> Dict.get_default (Dict.set d k v) k' dflt = Dict.get_default d k' dflt.
Proof. intros N. unfold Dict.get_default. now rewrite get_set_ne. Qed.

Lemma get_none_notin {V} (d : Dict.t V) k :
  Dict.get d k = None <-> ~ In k (Dict.keys d).
Proof.
  induction d as [|[k' v'] d IH]; simpl.
  - tauto.
  - destruct (String.eqb_spec k' k).
    + split; [discriminate | intros H; exfalso; apply H; auto].
    + rewrite IH. tauto.
Qed.


Lemma in_get {V} (d : Dict.t V) k v : Dict.wf d -> In (k, v) d -> Dict.get d k = Some v.
Proof.
  unfold Dict.wf, Dict.keys.
  induction d as [|[k' v'] d IH]; simpl; [tauto|].
  intros W [E | I].
  - inversion E; subst. now rewrite String.eqb_refl.
  - inversion W as [|? ? N W']; subst.
    destruct (String.eqb_spec k' k).
    + subst. exfalso. apply N. change k with (fst (k, v)). now apply in_map.
    + auto.
Qed.

Lemma keys_set_mem {V} (d : Dict.t V) k v :
  Dict.get d k <> None -> Dict.keys (Dict.set d k v) = Dict.keys d.
Proof.
  unfold Dict.keys. induction d as [|[k' v'] d IH]; simpl.
  - congruence.
  - destruct (String.eqb_spec k' k); simpl; intros H.
    + reflexivity.
    + now rewrite IH.
Qed.

Lemma keys_set_new {V} (d : Dict.t V) k v :
  Dict.get d k = None -> Dict.keys (Dict.set d k v) = Dict.keys d ++ [k].
Proof.
  unfold Dict.keys. induction d as [|[k' v'] d IH]; simpl.
  - reflexivity.
  - destruct (String.eqb_spec k' k); simpl; intros H.
    + discriminate.
    + now rewrite IH.
Qed.

Lemma wf_set {V} (d : Dict.t V) k v : Dict.wf d -> Dict.wf (Dict.set d k v).
Proof.
  unfold Dict.wf. intros W.
  destruct (Dict.get d k) eqn:G.
  - rewrite keys_set_mem; [assumption | congruence].
  - rewrite (keys_set_new _ _ _ G).
    apply get_none_notin in G.
    apply NoDup_rev in W. rewrite <- (rev_involutive (_ ++ _)).
    apply NoDup_rev. rewrite rev_app_distr. simpl.
    constructor; [now rewrite <- in_rev | assumption].
Qed.

Lemma mem_set {V} (d : Dict.t V) k k' v :
  Dict.mem (Dict.set d k v) k' = String.eqb k k' || Dict.mem d k'.
Proof.
  unfold Dict.mem. destruct (String.eqb_spec k k') as [->|N].
  - now rewrite get_set_eq.
  - now rewrite get_set_ne.
Qed.

Lemma mem_existsb {V} (d : Dict.t V) k :
  Dict.mem d k = existsb (fun kv => String.eqb (fst kv) k) d.
Proof.
  unfold Dict.mem. induction d as [|[k' v'] d IH]; simpl; [reflexivity|].
  destruct (String.eqb k' k); [reflexivity | exact IH].
Qed.

End DictFacts.

(* ================================================================= *)
(** * The sums of the statistics merger *)

Module MergeFacts.

Import LoadCompendium.

Lemma count_set_eq (sp : partial) T v X :
  count (Dict.set sp T v) T X = Dict.get_default v X 0%Z.
Proof. unfold count. now rewrite DictFacts.get_default_set_eq. Qed.

Lemma count_set_ne (sp : partial) T T' v X :
  T <> T' -> count (Dict.set sp T v) T' X = count sp T' X.
Proof. intros N. unfold count. now rewrite DictFacts.get_default_set_ne. Qed.

Lemma has_pair_set_eq (sp : partial) T v X :
  has_pair (Dict.set sp T v) T X = Dict.mem v X.
Proof. unfold has_pair. now rewrite DictFacts.get_default_set_eq. Qed.

Lemma has_pair_set_ne (sp : partial) T T' v X :
  T <> T' -> has_pair (Dict.set sp T v) T' X = has_pair sp T' X.
Proof. intros N. unfold has_pair. now rewrite DictFacts.get_default_set_ne. Qed.

(** Line 123 registers the type and changes nothing else. *)
Lemma register_type (sp : partial) T :
  grows sp (Dict.set sp T (Dict.get_default sp T []))
    (fun _ _ => 0%Z) (fun T' => String.eqb T T') (fun _ _ => false).
Proof.
  repeat split.
  - intros T' X. destruct (String.eqb_spec T T') as [->|N].
    + rewrite count_set_eq. unfold count. lia.
    + rewrite count_set_ne by assumption. lia.
  - intros T'. apply DictFacts.mem_set.
  - intros T' X. destruct (String.eqb_spec T T') as [->|N].
    + now rewrite has_pair_set_eq.
    + now rewrite has_pair_set_ne.
Qed.

(** One item with an integer count adds that count to its pair and leaves
    every other pair alone. *)
Lemma add_count_num T (sp : partial) X c :
  exists sp', add_count T sp (X, JNum c) = Ok sp' /\
    grows sp sp'
      (fun T' X' => if String.eqb T T' then if String.eqb X X' then c else 0%Z else 0%Z)
      (fun T' => String.eqb T T')
      (fun T' X' => String.eqb T T' && String.eqb X X').
Proof.
  unfold add_count; simpl. eexists; split; [reflexivity|].
  repeat split.
  - intros T' X'.
    destruct (String.eqb_spec T T') as [->|NT].
    + rewrite count_set_eq.
      destruct (String.eqb_spec X X') as [->|NX].
      * rewrite !DictFacts.get_default_set_eq. reflexivity.
      * rewrite !DictFacts.get_default_set_ne by assumption.
        unfold count. lia.
    + rewrite count_set_ne by assumption. lia.
  - intros T'. apply DictFacts.mem_set.
  - intros T' X'.
    destruct (String.eqb_spec T T') as [->|NT]; simpl.
    + rewrite has_pair_set_eq, !DictFacts.mem_set.
      unfold has_pair. now destruct (String.eqb X X').
    + now rewrite has_pair_set_ne.
Qed.

Lemma grows_trans sp sp1 sp2 dc dt dx dc' dt' dx' :
  grows sp sp1 dc dt dx -> grows sp1 sp2 dc' dt' dx' ->
  grows sp sp2 (fun T X => (dc T X + dc' T X)%Z) (fun T => dt T || dt' T)
    (fun T X => dx T X || dx' T X).
Proof.
  intros (C1 & T1 & X1) (C2 & T2 & X2). repeat split.
  - intros. rewrite C2, C1. lia.
  - intros. rewrite T2, T1. now destruct (dt T), (dt' T).
  - intros. rewrite X2, X1. now destruct (dx T X), (dx' T X).
Qed.

Lemma grows_ext sp sp' dc dt dx dc' dt' dx' :
  grows sp sp' dc dt dx ->
  (forall T X, dc T X = dc' T X) ->
  (forall T, dt T || Dict.mem sp T = dt' T || Dict.mem sp T) ->
  (forall T X, dx T X = dx' T X) ->
  grows sp sp' dc' dt' dx'.
Proof.
  intros (C & Ty & P) E1 E2 E3. repeat split; intros.
  - now rewrite C, E1.
  - now rewrite Ty, E2.
  - now rewrite P, E3.
Qed.

Lemma fold_add_count T (cc : Dict.t Z) : forall sp : partial,
  Dict.mem sp T = true ->
  exists sp', fold_result (add_count T) (map (fun kv => (fst kv, JNum (snd kv))) cc) sp = Ok sp' /\
    grows sp sp'
      (fun T' X' => if String.eqb T T' then total cc X' else 0%Z)
      (fun _ => false)
      (fun T' X' => String.eqb T T' && any cc X').
Proof.
  induction cc as [|[k v] cc IH]; intros sp Hm;
    cbn [map fold_result fst snd total any existsb].
  - exists sp; split; [reflexivity|]. repeat split.
    + intros T' X'. destruct (String.eqb T T'); lia.
    + intros T' X'. now rewrite andb_false_r.
  - destruct (add_count_num T sp k v) as (sp1 & E1 & G1).
    rewrite E1; cbn [rbind].
    assert (Hm1 : Dict.mem sp1 T = true).
    { destruct G1 as (_ & Ty & _). rewrite Ty, Hm. apply orb_true_r. }
    destruct (IH sp1 Hm1) as (sp2 & E2 & G2).
    exists sp2; split; [assumption|].
    eapply grows_ext; [exact (grows_trans G1 G2) | | |]; cbv beta.
    + intros T' X'. destruct (String.eqb T T'); [|reflexivity].
      destruct (String.eqb k X'); lia.
    + intros T'. destruct (String.eqb_spec T T') as [<-|N]; [|reflexivity].
      now rewrite Hm.
    + intros T' X'. fold (any cc X').
      now destruct (String.eqb T T'), (String.eqb k X').
Qed.

Lemma add_type_counts (sp : partial) T (cc : Dict.t Z) :
  exists sp', add_type sp (T, dump_counts cc) = Ok sp' /\
    grows sp sp'
      (fun T' X' => if String.eqb T T' then total cc X' else 0%Z)
      (fun T' => String.eqb T T')
      (fun T' X' => String.eqb T T' && any cc X').
Proof.
  unfold add_type, dump_counts; cbn [fst snd items rbind].
  pose proof (register_type sp T) as G0.
  assert (Hm : Dict.mem (Dict.set sp T (Dict.get_default sp T [])) T = true).
  { rewrite DictFacts.mem_set, String.eqb_refl. reflexivity. }
  destruct (fold_add_count T cc _ Hm) as (sp' & E & G).
  exists sp'; split; [assumption|].
  eapply grows_ext; [exact (grows_trans G0 G) | | |]; cbv beta.
  - intros; lia.
  - intros T'. now rewrite orb_false_r.
  - reflexivity.
Qed.

Lemma fold_add_type (p : partial) : forall sp : partial,
  exists sp',
    fold_result add_type (map (fun tc => (fst tc, dump_counts (snd tc))) p) sp = Ok sp' /\
    grows sp sp' (total2 p) (anyT p) (any2 p).
Proof.
  induction p as [|[k cc] p IH]; intros sp;
    cbn [map fold_result fst snd total2 any2 anyT existsb].
  - exists sp; split; [reflexivity|]. repeat split; intros; lia.
  - destruct (add_type_counts sp k cc) as (sp1 & E1 & G1).
    rewrite E1; cbn [rbind].
    destruct (IH sp1) as (sp2 & E2 & G2).
    exists sp2; split; [assumption|].
    eapply grows_ext; [exact (grows_trans G1 G2) | | |]; reflexivity.
Qed.

Lemma add_file_counts (sp : partial) key (p : partial) :
  exists sp', add_file sp (key, dump_partial p) = Ok sp' /\
    grows sp sp' (total2 p) (anyT p) (any2 p).
Proof. unfold add_file, dump_partial; simpl. apply fold_add_type. Qed.

Lemma fold_add_file (files : list (string * partial)) : forall sp : partial,
  exists sp', fold_result add_file (meta_data_of files) sp = Ok sp' /\
    grows sp sp'
      (fun T X => sumZ (map (fun kp => total2 (snd kp) T X) files))
      (fun T => existsb (fun kp => anyT (snd kp) T) files)
      (fun T X => existsb (fun kp => any2 (snd kp) T X) files).
Proof.
  unfold meta_data_of.
  induction files as [|[key p] files IH]; intros sp;
    cbn [map fold_result fst snd sumZ fold_right existsb].
  - exists sp; split; [reflexivity|]. repeat split; intros; lia.
  - destruct (add_file_counts sp key p) as (sp1 & E1 & G1).
    rewrite E1; cbn [rbind].
    destruct (IH sp1) as (sp2 & E2 & G2).
    exists sp2; split; [assumption|].
    eapply grows_ext; [exact (grows_trans G1 G2) | | |]; reflexivity.
Qed.

Lemma total_wf (cc : Dict.t Z) X : Dict.wf cc -> total cc X = Dict.get_default cc X 0%Z.
Proof.
  unfold Dict.wf, Dict.keys, Dict.get_default.
  induction cc as [|[k v] cc IH]; simpl; intros W; [reflexivity|].
  inversion W as [|? ? N W']; subst.
  destruct (String.eqb_spec k X) as [->|NE].
  - assert (Z0 : total cc X = 0%Z).
    { rewrite (IH W').
      apply DictFacts.get_none_notin in N. unfold Dict.keys in N. now rewrite N. }
    lia.
  - rewrite (IH W'). lia.
Qed.

Lemma total2_wf (p : partial) T X : partial_wf p -> total2 p T X = count p T X.
Proof.
  unfold partial_wf, Dict.wf, Dict.keys, count, Dict.get_default.
  induction p as [|[k cc] p IH]; simpl; intros [W F]; [reflexivity|].
  inversion W as [|? ? N W']; subst.
  inversion F as [|? ? Wcc F']; subst. simpl in Wcc.
  destruct (String.eqb_spec k T) as [->|NE].
  - assert (Z0 : total2 p T X = 0%Z).
    { rewrite (IH (conj W' F')).
      apply DictFacts.get_none_notin in N. unfold Dict.keys in N. now rewrite N. }
    rewrite Z0, (total_wf X Wcc). unfold Dict.get_default. lia.
  - rewrite (IH (conj W' F')). lia.
Qed.

Lemma any2_wf (p : partial) T X : partial_wf p -> any2 p T X = has_pair p T X.
Proof.
  unfold partial_wf, Dict.wf, Dict.keys, has_pair, Dict.get_default.
  induction p as [|[k cc] p IH]; simpl; intros [W F]; [reflexivity|].
  inversion W as [|? ? N W']; subst.
  inversion F as [|? ? Wcc F']; subst.
  destruct (String.eqb_spec k T) as [->|NE]; simpl.
  - assert (Z0 : any2 p T X = false).
    { rewrite (IH (conj W' F')).
      apply DictFacts.get_none_notin in N. unfold Dict.keys in N. now rewrite N. }
    fold (any2 p T X). rewrite Z0, orb_false_r.
    symmetry. apply DictFacts.mem_existsb.
  - apply (IH (conj W' F')).
Qed.

Lemma sumZ_perm (l l' : list Z) : Permutation l l' -> sumZ l = sumZ l'.
Proof. induction 1; simpl; lia. Qed.

Lemma existsb_perm {A} (f : A -> bool) (l l' : list A) :
  Permutation l l' -> existsb f l = existsb f l'.
Proof.
  induction 1; simpl; try congruence.
  now destruct (f x), (f y).
Qed.

Lemma existsb_ext_wf (f g : partial -> bool) (files : list (string * partial)) :
  (forall p, partial_wf p -> f p = g p) ->
  Forall (fun kp => partial_wf (snd kp)) files ->
  existsb (fun kp => f (snd kp)) files = existsb (fun kp => g (snd kp)) files.
Proof.
  intros E. induction 1 as [|[key p] files W _ IH]; simpl; [reflexivity|].
  now rewrite IH, (E p W).
Qed.

Lemma map_ext_wf {B} (f g : partial -> B) (files : list (string * partial)) :
  (forall p, partial_wf p -> f p = g p) ->
  Forall (fun kp => partial_wf (snd kp)) files ->
  map (fun kp => f (snd kp)) files = map (fun kp => g (snd kp)) files.
Proof.
  intros E. induction 1 as [|[key p] files W _ IH]; simpl; [reflexivity|].
  now rewrite IH, (E p W).
Qed.

(** The aggregate of well-formed partials, from the empty aggregate. *)
Lemma sum_meta_data_wf (files : list (string * partial)) :
  Forall (fun kp => partial_wf (snd kp)) files ->
  exists agg, sum_meta_data (meta_data_of files) = Ok agg /\
    (forall T X, count agg T X = sumZ (map (fun kp => count (snd kp) T X) files)) /\
    (forall T, Dict.mem agg T = existsb (fun kp => Dict.mem (snd kp) T) files) /\
    (forall T X, has_pair agg T X = existsb (fun kp => has_pair (snd kp) T X) files).
Proof.
  intros W. unfold sum_meta_data.
  destruct (fold_add_file files []) as (agg & E & C & Ty & P).
  exists agg; split; [assumption|]. repeat split.
  - intros T X. rewrite C.
    rewrite (map_ext_wf (fun p => total2 p T X) (fun p => count p T X)); [reflexivity| |assumption].
    intros p Wp. now apply total2_wf.
  - intros T. rewrite Ty, orb_false_r.
    apply (existsb_ext_wf (fun p => anyT p T) (fun p => Dict.mem p T)); [|assumption].
    intros p _. symmetry. apply DictFacts.mem_existsb.
  - intros T X. rewrite P, orb_false_r.
    apply (existsb_ext_wf (fun p => any2 p T X) (fun p => has_pair p T X)); [|assumption].
    intros p Wp. now apply any2_wf.
Qed.

End MergeFacts.

(* ================================================================= *)
(** * What [load_compendium] does on every input *)

Module LoadFacts.

Import LoadCompendium.

Lemma untouched_refl f : untouched f f.
Proof. repeat split. Qed.

Lemma for_each_raises {S X} (body : X -> M S unit) x xs s e s' :
  body x s = (Raise e, s') -> for_each (x :: xs) body s = (Raise e, s').
Proof. intros H. simpl. unfold bind. now rewrite H. Qed.

(** From a frame with nothing memoised, [get_ancestors] either raises or
    returns a list that starts with or contains the input type; it stages
    and writes nothing. *)
Lemma get_ancestors_nonempty E input_type f res f' :
  ancestor_map f = [] ->
  get_ancestors E input_type f = (res, f') ->
  untouched f f' /\ (forall ancs, res = Ok ancs -> ancs <> []).
Proof.
  intros Hempty.
  unfold get_ancestors, bind, lift, gets, modify, ret.
  destruct (type_name input_type) as [t|e]; cbn.
  2:{ intros [= <- <-]. split; [apply untouched_refl | discriminate]. }
  rewrite Hempty; cbn.
  destruct (toolkit_get_ancestors E t) as [a|e]; cbn.
  2:{ intros [= <- <-]. split; [apply untouched_refl | discriminate]. }
  destruct (map_result (toolkit_class_uri E) a) as [ancs|e]; cbn.
  2:{ intros [= <- <-]. split; [apply untouched_refl | discriminate]. }
  intros [= <- <-]. split; [repeat split|].
  intros l [= <-].
  destruct (in_list t ancs) eqn:I; [|discriminate].
  destruct ancs; [discriminate I | discriminate].
Qed.

(** The loop over [semantic_types] stops in its first round: the list has
    no [add]. *)
Lemma semantic_types_loop_raises (body : string -> M frame unit)
  (semantic_types : list string) f :
  semantic_types <> [] ->
  for_each semantic_types
    (fun semantic_type =>
       lift (list_add semantic_types semantic_type) ;; body semantic_type) f
  = (Raise AttributeError, f).
Proof.
  destruct semantic_types as [|t ts]; [congruence|]. intros _.
  apply for_each_raises. reflexivity.
Qed.

(** Every line makes [process_line] raise, with nothing staged. *)
Lemma process_line_raises E block_size dry_run l f :
  ancestor_map f = [] ->
  exists e f', process_line E block_size dry_run l f = (Raise e, f') /\ untouched f f'.
Proof.
  intros Hempty.
  unfold process_line.
  unfold bind at 1. unfold modify at 1.
  set (f1 := set_line_counter (line_counter f + 1) f).
  assert (U1 : untouched f f1) by (repeat split).
  assert (H1 : ancestor_map f1 = []) by exact Hempty.
  unfold bind at 1. unfold lift at 1.
  destruct (json_loads l) as [instance|e]; [|exists e, f1; split; [reflexivity | exact U1]].
  unfold bind at 1. unfold lift at 1.
  destruct (rbind (rbind (getitem instance "identifiers") getitem0)
                  (fun first => getitem first "i")) as [identifier|e];
    [|exists e, f1; split; [reflexivity | exact U1]].
  unfold bind at 1. unfold lift at 1.
  destruct (getitem instance "type") as [input_type|e];
    [|exists e, f1; split; [reflexivity | exact U1]].
  unfold bind at 1.
  destruct (get_ancestors E input_type f1) as [res f2] eqn:G.
  destruct (get_ancestors_nonempty E input_type f1 H1 G) as [U2 NE].
  assert (U : untouched f f2).
  { destruct U1 as (a1 & a2 & a3 & a4 & a5 & a6), U2 as (b1 & b2 & b3 & b4 & b5 & b6).
    repeat split; congruence. }
  destruct res as [semantic_types|e]; [|exists e, f2; split; [reflexivity | exact U]].
  unfold bind at 1.
  rewrite (semantic_types_loop_raises (stage instance identifier) f2 (NE _ eq_refl)).
  exists AttributeError, f2. split; [reflexivity | exact U].
Qed.

(** [load_compendium] on every input: the result is [True] exactly for a
    file with no line at all (when the store answers or the run is dry),
    nothing is counted, and the store is left as it was. *)
Lemma load_compendium_frame_spec E compendium_filename block_size dry_run r :
  exists f',
    load_compendium_frame E compendium_filename block_size dry_run (enter r) =
      (Ok (match files E compendium_filename with
           | Some [] => dry_run || redis_up E
           | _ => false
           end), f') /\
    untouched (enter r) f'.
Proof.
  unfold load_compendium_frame, try_except, load_compendium_body.
  destruct (files E compendium_filename) as [[|l rest]|].
  - unfold bind at 1. unfold bind at 1. cbn [for_each ret].
    destruct dry_run; cbn.
    + eexists; split; [reflexivity | apply untouched_refl].
    + unfold execute_pipelines, bind, gets, modify, raise; cbn.
      destruct (redis_up E); cbn.
      * eexists; split; [reflexivity|]. destruct r; repeat split.
      * eexists; split; [reflexivity | apply untouched_refl].
  - unfold bind at 1. unfold bind at 1.
    destruct (process_line_raises E block_size dry_run l (enter r) eq_refl)
      as (e & f' & P & U).
    rewrite (for_each_raises _ _ _ _ P).
    exists f'; split; [reflexivity | exact U].
  - unfold bind at 1. cbn.
    eexists; split; [reflexivity | apply untouched_refl].
Qed.

Lemma load_compendium_spec E compendium_filename block_size dry_run r :
  load_compendium E compendium_filename block_size dry_run r =
    (Ok (match files E compendium_filename with
         | Some [] => dry_run || redis_up E
         | _ => false
         end), r).
Proof.
  unfold load_compendium.
  destruct (load_compendium_frame_spec E compendium_filename block_size dry_run r)
    as (f' & H & U).
  rewrite H. f_equal. apply U.
Qed.

(** [load] with a file to load and a store that answers: the name
    [source_prefixes] is read right after the first [load_compendium], and
    nothing has been written. *)
Lemma load_raises_name_error E comp rest block_size dry_run r :
  all_valid E (comp :: rest) = true ->
  redis_up E = true ->
  load E (comp :: rest) block_size dry_run r = (Raise NameError, r).
Proof.
  intros V Up. unfold load. rewrite V.
  unfold bind at 1. unfold try_except.
  unfold bind at 1. unfold create_connection_pool. rewrite Up. cbn [ret].
  unfold bind at 1.
  erewrite for_each_raises; [reflexivity|].
  unfold bind at 1. rewrite load_compendium_spec. reflexivity.
Qed.

End LoadFacts.

(* ================================================================= *)
(** * Claims about [load_compendium] and [load] *)

(** C10: [load_compendium] never propagates an exception: whatever the
    file, the block size, the collaborators and the store, it returns a
    boolean; it returns [False] when its [try] block raised (whatever the
    exception: the file cannot be opened, a line is not JSON, the ancestor
    provider or the store fails, or any other) and [True] when the block ran
    to its end. *)
Theorem load_compendium_never_raises (E : env) (compendium_filename : string)
  (block_size : Z) (dry_run : bool) (r : redis) :
  let body :=
    LoadCompendium.load_compendium_body E compendium_filename block_size dry_run
      (LoadCompendium.enter r) in
  (exists b, fst (LoadCompendium.load_compendium E compendium_filename block_size dry_run r)
             = Ok b) /\
  (forall e, fst body = Raise e ->
     fst (LoadCompendium.load_compendium E compendium_filename block_size dry_run r)
     = Ok false) /\
  (fst body = Ok tt ->
     fst (LoadCompendium.load_compendium E compendium_filename block_size dry_run r)
     = Ok true).
Proof.
  cbv zeta.
  unfold LoadCompendium.load_compendium, LoadCompendium.load_compendium_frame,
    try_except, bind, ret.
  destruct (LoadCompendium.load_compendium_body E compendium_filename block_size
              dry_run (LoadCompendium.enter r)) as [[[]|e] f]; cbn.
  - split; [now exists true|]. split; [discriminate | reflexivity].
  - split; [now exists false|]. split; [reflexivity | discriminate].
Qed.

(** An empty file is loaded, a file that cannot be opened is not: both
    calls return. *)
Lemma load_compendium_never_raises_witness :
  fst (LoadCompendium.load_compendium example_env "empty.txt" 1000 false empty_redis)
    = Ok true /\
  fst (LoadCompendium.load_compendium example_env "missing.txt" 1000 false empty_redis)
    = Ok false.
Proof.
  split.
  - apply (load_compendium_never_raises example_env "empty.txt" 1000 false empty_redis).
    reflexivity.
  - apply (proj1 (proj2 (load_compendium_never_raises example_env "missing.txt" 1000
                           false empty_redis)) OSError).
    reflexivity.
Defined.

(** C2, at the line of the end-to-end example: [load_compendium] returns
    [False] and leaves the store empty, so that resolving a member
    afterwards finds nothing, where the claim has MONDO:0005002. *)
Theorem canonical_identifier_is_not_stored :
  LoadCompendium.load_compendium example_env "diseases.txt" 1000 false empty_redis
    = (Ok false, empty_redis) /\
  Normalizer.resolve example_env
    (snd (LoadCompendium.load_compendium example_env "diseases.txt" 1000 false empty_redis))
    ["doid:3812"%string]
    = Ok [None].
Proof. split; reflexivity. Qed.

(** C4, at the same line: the ancestors are looked up, then the loop over
    them raises in its first round; [load_compendium] returns [False] with
    an empty [source_prefixes]. *)
Theorem prefix_counts_are_not_accumulated :
  exists f',
    LoadCompendium.load_compendium_frame example_env "diseases.txt" 1000 false
      (LoadCompendium.enter empty_redis) = (Ok false, f') /\
    LoadCompendium.ancestor_map f' =
      [("biolink:Disease", ["biolink:Disease"; "biolink:NamedThing"])]%string /\
    LoadCompendium.source_prefixes f' = [].
Proof. eexists. repeat split. Qed.

(** C5, for one valid file: [load] raises [NameError] where it reads
    [source_prefixes], and no per-file key has been written. *)
Theorem per_file_partial_is_not_persisted :
  LoadCompendium.load example_env ["diseases.txt"%string] 1000 false empty_redis
    = (Raise NameError, empty_redis) /\
  Dict.get
    (curie_to_bl_type_db
       (snd (LoadCompendium.load example_env ["diseases.txt"%string] 1000 false empty_redis)))
    "file-diseases.txt" = None.
Proof. split; reflexivity. Qed.

(* ================================================================= *)
(** * Running a computation backwards from a normal return *)

Module MonadFacts.

Lemma bind_ok {S A B} (m : M S A) (k : A -> M S B) s b s' :
  bind m k s = (Ok b, s') -> exists a s1, m s = (Ok a, s1) /\ k a s1 = (Ok b, s').
Proof.
  unfold bind. destruct (m s) as [[a|e] s1]; [|discriminate].
  intros H. now exists a, s1.
Qed.

Lemma lift_ok {S A} (r : result A) (s : S) a s' :
  lift r s = (Ok a, s') -> r = Ok a /\ s' = s.
Proof. unfold lift. intros [= -> ->]. now split. Qed.

Lemma gets_ok {S A} (f : S -> A) (s : S) a s' :
  gets f s = (Ok a, s') -> a = f s /\ s' = s.
Proof. unfold gets. intros [= <- <-]. now split. Qed.

Lemma modify_ok {S} (f : S -> S) (s : S) u s' :
  modify f s = (Ok u, s') -> s' = f s.
Proof. unfold modify. now intros [= _ <-]. Qed.

Lemma rbind_ok {A B} (r : result A) (k : A -> result B) b :
  rbind r k = Ok b -> exists a, r = Ok a /\ k a = Ok b.
Proof. destruct r as [a|e]; simpl; [|discriminate]. intros H. now exists a. Qed.

Lemma as_text_ok o s : as_text o = Ok s -> o = JStr s.
Proof. destruct o; simpl; congruence. Qed.

Lemma str_upper_ok o s : str_upper o = Ok s -> exists t, o = JStr t /\ s = upper t.
Proof. destruct o; simpl; try discriminate. intros [= <-]. now eexists. Qed.

Lemma str_split_ok o s : str_split_colon_0 o = Ok s -> exists t, o = JStr t.
Proof. destruct o; simpl; try discriminate. intros _. now eexists. Qed.

End MonadFacts.

(** Take the first [bind] of a computation that returned normally apart:
    the value [a] and the state [s] it passes on, and the fact [Hm] that the
    first part returned them. *)
Tactic Notation "unbind" hyp(H) "as" ident(a) ident(s) ident(Hm) :=
  apply MonadFacts.bind_ok in H; destruct H as (a & s & Hm & H).

(* ================================================================= *)
(** * The term-to-canonical writes of the two loaders *)

Module StageFacts.

Import MonadFacts.

(** ** load_compendium.py *)

Lemma count_prefix_term2id semantic_type source_prefix f u f' :
  LoadCompendium.count_prefix semantic_type source_prefix f = (Ok u, f') ->
  LoadCompendium.term2id_pipeline f' = LoadCompendium.term2id_pipeline f.
Proof.
  unfold LoadCompendium.count_prefix. intros H. unbind H as sp f0 G.
  apply gets_ok in G as [-> ->].
  destruct (Dict.get _ source_prefix); apply modify_ok in H; now subst.
Qed.

Lemma stage_member_term2id identifier semantic_type m f f' :
  LoadCompendium.stage_member identifier semantic_type m f = (Ok tt, f') ->
  exists eid canonical,
    member_id "i" m = Ok eid /\ identifier = JStr canonical /\
    LoadCompendium.term2id_pipeline f' =
      LoadCompendium.term2id_pipeline f ++ [(upper eid, canonical)].
Proof.
  unfold LoadCompendium.stage_member. intros H.
  unbind H as i f1 Gi. apply lift_ok in Gi as [Gi ->].
  unbind H as source_prefix f2 Sp. apply lift_ok in Sp as [Sp ->].
  unbind H as u f3 Cp. apply count_prefix_term2id in Cp.
  unbind H as i' f4 Gi'. apply lift_ok in Gi' as [Gi' ->].
  unbind H as term f5 Up. apply lift_ok in Up as [Up ->].
  unbind H as canonical f6 Tx. apply lift_ok in Tx as [Tx ->].
  unbind H as p f7 Gp. apply gets_ok in Gp as [-> ->].
  apply modify_ok in H. subst f'. cbn.
  apply str_upper_ok in Up as (eid & -> & ->).
  apply as_text_ok in Tx as ->.
  exists eid, canonical. repeat split.
  - unfold member_id. now rewrite Gi'.
  - now rewrite Cp.
Qed.

Lemma stage_members_term2id identifier semantic_type members : forall f f',
  for_each members (LoadCompendium.stage_member identifier semantic_type) f = (Ok tt, f') ->
  exists eids,
    map_result (member_id "i") members = Ok eids /\
    forall canonical, identifier = JStr canonical ->
      LoadCompendium.term2id_pipeline f' =
        LoadCompendium.term2id_pipeline f ++ upper_writes canonical eids.
Proof.
  induction members as [|m members IH]; intros f f' H; cbn [for_each] in H.
  - injection H as <-. exists []. split; [reflexivity|].
    intros. cbn. now rewrite app_nil_r.
  - unbind H as u f1 Hm. destruct u.
    apply stage_member_term2id in Hm as (eid & canonical & Hid & -> & P).
    apply IH in H as (eids & Hids & Q).
    exists (eid :: eids). split.
    + cbn. rewrite Hid. cbn. now rewrite Hids.
    + intros c [= <-]. rewrite (Q canonical eq_refl), P.
      cbn. now rewrite <- app_assoc.
Qed.

(** The staging block of the current loader, when it returns: the
    term-to-canonical pipeline has grown by one write per member, under the
    upper-cased identifier. *)
Lemma stage_term2id instance identifier semantic_type f f' :
  LoadCompendium.stage instance identifier semantic_type f = (Ok tt, f') ->
  exists members eids canonical,
    rbind (getitem instance "identifiers") iterate = Ok members /\
    map_result (member_id "i") members = Ok eids /\
    identifier = JStr canonical /\
    LoadCompendium.term2id_pipeline f' =
      LoadCompendium.term2id_pipeline f ++ upper_writes canonical eids.
Proof.
  unfold LoadCompendium.stage. intros H.
  unbind H as sp f0 G. apply gets_ok in G as [-> ->].
  unbind H as u1 f1 W.
  assert (T0 : LoadCompendium.term2id_pipeline f1 = LoadCompendium.term2id_pipeline f).
  { unfold when in W. destruct (negb _).
    - apply modify_ok in W. now subst.
    - now injection W as _ <-. }
  unbind H as ids f2 Gi. apply lift_ok in Gi as [Gi ->].
  unbind H as members f3 It. apply lift_ok in It as [It ->].
  unbind H as u2 f4 L. destruct u2.
  apply stage_members_term2id in L as (eids & Hids & Q).
  unbind H as canonical f5 Tx. apply lift_ok in Tx as [Tx ->].
  apply as_text_ok in Tx as ->.
  specialize (Q _ eq_refl).
  unbind H as dumped f6 D. apply lift_ok in D as [_ ->].
  unbind H as p1 f7 G1. apply gets_ok in G1 as [-> ->].
  unbind H as u3 f8 M1. apply modify_ok in M1. subst f8.
  unbind H as ty f9 Ty. apply lift_ok in Ty as [_ ->].
  unbind H as p2 f10 G2. apply gets_ok in G2 as [-> ->].
  unbind H as u4 f11 M2. apply modify_ok in M2. subst f11.
  unbind H as has_ic f12 Ic. apply lift_ok in Ic as [_ ->].
  assert (T1 : LoadCompendium.term2id_pipeline f' = LoadCompendium.term2id_pipeline f4).
  { unfold when in H. destruct has_ic.
    - unbind H as ic f13 Gc. apply lift_ok in Gc as [_ ->].
      unbind H as p3 f14 G3. apply gets_ok in G3 as [-> ->].
      apply modify_ok in H. now subst.
    - now injection H as <-. }
  exists members, eids, canonical. repeat split.
  - now rewrite Gi.
  - assumption.
  - now rewrite T1, Q, T0.
Qed.

(** ** loader.py *)








End StageFacts.

(* ================================================================= *)
(** * Claims about the term-to-canonical writes *)




(* ================================================================= *)
(** * Claims about the pre-check *)

Module ValidateFacts.

Lemma validate_lines_forallb C sample :
  NodeLoader.validate_lines C sample = forallb (line_passes C) sample.
Proof.
  induction sample as [|l sample IH]; simpl; [reflexivity|].
  unfold line_passes at 1.
  destruct (rbind (json_loads l) (NodeLoader.jsonschema_validate C)); simpl; auto.
Qed.

Lemma all_valid_false E compendium_file comp :
  In comp compendium_file -> validate_compendium E comp = false ->
  LoadCompendium.all_valid E compendium_file = false.
Proof.
  induction compendium_file as [|c rest IH]; simpl; [tauto|].
  intros [->|I] V.
  - now rewrite V.
  - destruct (validate_compendium E c); auto.
Qed.

End ValidateFacts.

(** C9: for a file that can be opened, [validate_compendia] accepts it
    exactly when each of its first five lines parses and passes the schema,
    and rejects it exactly when one of them does not; a rejected file is
    skipped by the loop of [NodeLoader.load] without any call of
    [load_compendium], and [load] of load_compendium.py returns [False]
    before it loads anything when its pre-check rejects one of the files. *)
Theorem precheck_samples_the_first_five_lines (C : NodeLoader.config) (E : env)
  (in_file : string) (compendium : list line) :
  files E in_file = Some compendium ->
  (NodeLoader.validate_compendia C E in_file = Ok true <->
     forall l, In l (firstn 5 compendium) -> line_passes C l = true) /\
  (NodeLoader.validate_compendia C E in_file = Ok false <->
     exists l, In l (firstn 5 compendium) /\ line_passes C l = false) /\
  (NodeLoader.validate_compendia C E in_file = Ok false ->
     forall rest block_size s,
       NodeLoader.load_files C E (in_file :: rest) block_size s =
       NodeLoader.load_files C E rest block_size s) /\
  (forall compendium_file block_size dry_run r,
     In in_file compendium_file -> validate_compendium E in_file = false ->
     LoadCompendium.load E compendium_file block_size dry_run r = (Ok false, r)).
Proof.
  intros F.
  assert (V : NodeLoader.validate_compendia C E in_file =
              Ok (forallb (line_passes C) (firstn 5 compendium))).
  { unfold NodeLoader.validate_compendia, NodeLoader.islice.
    now rewrite F, ValidateFacts.validate_lines_forallb. }
  remember (firstn 5 compendium) as sample eqn:Hs. clear Hs.
  repeat split.
  - rewrite V. intros [= H]. now apply forallb_forall.
  - intros H. rewrite V. f_equal. now apply forallb_forall.
  - rewrite V. intros [= A]. clear V.
    induction sample as [|l ls IH]; simpl in A; [discriminate A|].
    destruct (line_passes C l) eqn:P.
    + destruct (IH A) as (l' & I & P'). exists l'. split; [now right | assumption].
    + exists l. split; [now left | assumption].
  - intros (l & I & P). rewrite V. f_equal.
    destruct (forallb (line_passes C) sample) eqn:A; [|reflexivity].
    rewrite forallb_forall in A. rewrite (A l I) in P. discriminate.
  - intros R rest block_size s.
    unfold NodeLoader.load_files. cbn [for_each].
    unfold bind at 1. unfold bind at 1. unfold lift. rewrite R. reflexivity.
  - intros compendium_file block_size dry_run r I NV.
    unfold LoadCompendium.load.
    now rewrite (ValidateFacts.all_valid_false E compendium_file in_file I NV).
Qed.

(** A file whose second line is not JSON is rejected and skipped; a file
    whose first five lines are fine is accepted, whatever its sixth. *)
Lemma precheck_samples_the_first_five_lines_witness :
  NodeLoader.validate_compendia example_config example_env "broken.txt" = Ok false /\
  NodeLoader.load_files example_config example_env ["broken.txt"%string] 1000 fresh_state
    = (Ok tt, fresh_state) /\
  NodeLoader.validate_compendia example_config example_env "late_error.txt" = Ok true.
Proof.
  pose proof (precheck_samples_the_first_five_lines example_config example_env
                "broken.txt"%string eq_refl) as (_ & Reject & Skip & _).
  pose proof (precheck_samples_the_first_five_lines example_config example_env
                "late_error.txt"%string eq_refl) as (Accept & _).
  assert (R : NodeLoader.validate_compendia example_config example_env "broken.txt"
              = Ok false).
  { apply Reject. exists (Garbage "{"). split; [right; left; reflexivity | reflexivity]. }
  split; [exact R|]. split.
  - rewrite (Skip R). reflexivity.
  - apply Accept. intros l I. cbn in I.
    repeat (destruct I as [<-|I]; [reflexivity|]). destruct I.
Defined.

(* ================================================================= *)
(** * Claims about resolution *)

Module ResolveFacts.

Lemma mget_get {V} (data : Dict.t V) args :
  MockRedis.mget data args = map (Dict.get data) args.
Proof.
  unfold MockRedis.mget. apply map_ext. intros x.
  unfold Dict.mem. now destruct (Dict.get data x).
Qed.

(** The second round answers for the resolved identifiers only, and
    [assemble] puts each answer back at the position it belongs to. *)
Lemma assemble_aligned (r : redis) (canonical : list (option string)) :
  Normalizer.assemble canonical
    (combine (map (Dict.get (id_to_eqids_db r)) (Normalizer.resolved canonical))
             (map (Dict.get (id_to_type_db r)) (Normalizer.resolved canonical)))
  = map (fun c => match c with
                  | None => None
                  | Some c =>
                      Some (Normalizer.assemble_node c (Dict.get (id_to_eqids_db r) c)
                                                       (Dict.get (id_to_type_db r) c))
                  end) canonical.
Proof.
  induction canonical as [|[c|] canonical IH]; simpl; [reflexivity| |];
    now rewrite IH.
Qed.

Lemma resolve_pointwise E r identifiers :
  redis_up E = true ->
  Normalizer.resolve E r identifiers = Ok (map (resolve_one r) identifiers).
Proof.
  intros Up. unfold Normalizer.resolve. rewrite Up. cbv zeta.
  rewrite !mget_get, assemble_aligned. f_equal.
  rewrite !map_map. apply map_ext. intros x. unfold resolve_one.
  now destruct (Dict.get (eq_id_to_id_db r) (upper x)).
Qed.

End ResolveFacts.

(** C1: when the store answers, [resolve] returns a list as long as its
    input whose slot at each position is the resolution of the identifier at
    that position: [None] for an identifier with no term-to-canonical entry,
    and the same node at every position that holds the same identifier. *)
Theorem resolve_is_aligned_with_its_input (E : env) (r : redis)
  (identifiers : list string) :
  redis_up E = true ->
  exists out,
    Normalizer.resolve E r identifiers = Ok out /\
    List.length out = List.length identifiers /\
    (forall i x, nth_error identifiers i = Some x ->
       nth_error out i = Some (resolve_one r x)) /\
    (forall i x, nth_error identifiers i = Some x ->
       Dict.get (eq_id_to_id_db r) (upper x) = None -> nth_error out i = Some None) /\
    (forall i j x, nth_error identifiers i = Some x -> nth_error identifiers j = Some x ->
       nth_error out i = nth_error out j).
Proof.
  intros Up. exists (map (resolve_one r) identifiers).
  assert (P : forall i x, nth_error identifiers i = Some x ->
                nth_error (map (resolve_one r) identifiers) i = Some (resolve_one r x)).
  { intros i x H. now rewrite nth_error_map, H. }
  split; [now apply ResolveFacts.resolve_pointwise|].
  split; [apply length_map|].
  split; [exact P|]. split.
  - intros i x H U. rewrite (P i x H). unfold resolve_one. now rewrite U.
  - intros i j x Hi Hj. now rewrite (P i x Hi), (P j x Hj).
Qed.

(** The mocked store of the tests: an unknown identifier between two
    occurrences of DOID:3812. *)
Lemma resolve_is_aligned_with_its_input_witness :
  exists out,
    Normalizer.resolve example_env mock_redis
      ["DOID:3812"; "UNKNOWN:000000"; "DOID:3812"]%string = Ok out /\
    List.length out = 3 /\
    nth_error out 1 = Some None /\
    nth_error out 0 = nth_error out 2 /\
    option_map (option_map (fun n => Normalizer.identifier (Normalizer.id n)))
      (nth_error out 0) = Some (Some "MONDO:0005002"%string).
Proof.
  destruct (resolve_is_aligned_with_its_input example_env mock_redis
              ["DOID:3812"; "UNKNOWN:000000"; "DOID:3812"]%string eq_refl)
    as (out & R & L & P & U & D).
  exists out. split; [exact R|]. split; [exact L|]. split; [|split].
  - apply (U 1 "UNKNOWN:000000"%string); reflexivity.
  - apply (D 0 2 "DOID:3812"%string); reflexivity.
  - rewrite (P 0 "DOID:3812"%string eq_refl). reflexivity.
Defined.

(** C8: when the store answers, [resolve] returns normally whatever the
    identifiers are, and the slot of an identifier is [None] exactly when
    the identifier has no term-to-canonical entry. *)
Theorem unknown_identifier_resolves_to_null (E : env) (r : redis)
  (identifiers : list string) :
  redis_up E = true ->
  exists out,
    Normalizer.resolve E r identifiers = Ok out /\
    forall i x, nth_error identifiers i = Some x ->
      (nth_error out i = Some None <-> Dict.get (eq_id_to_id_db r) (upper x) = None).
Proof.
  intros Up. exists (map (resolve_one r) identifiers).
  split; [now apply ResolveFacts.resolve_pointwise|].
  intros i x H. rewrite nth_error_map, H. cbn.
  unfold resolve_one. destruct (Dict.get (eq_id_to_id_db r) (upper x)).
  - split; discriminate.
  - split; reflexivity.
Qed.

(** The unresolvable identifiers of the tests. *)
Lemma unknown_identifier_resolves_to_null_witness :
  Normalizer.resolve example_env mock_redis ["NCBIGene:ABCD"; "NCBIGene:GENE:1017"]%string
    = Ok [None; None].
Proof.
  destruct (unknown_identifier_resolves_to_null example_env mock_redis
              ["NCBIGene:ABCD"; "NCBIGene:GENE:1017"]%string eq_refl)
    as (out & R & U).
  rewrite R. f_equal.
  pose proof (proj2 (U 0 "NCBIGene:ABCD"%string eq_refl) eq_refl) as U0.
  pose proof (proj2 (U 1 "NCBIGene:GENE:1017"%string eq_refl) eq_refl) as U1.
  assert (L : List.length out = 2).
  { pose proof (ResolveFacts.resolve_pointwise example_env mock_redis
                  ["NCBIGene:ABCD"; "NCBIGene:GENE:1017"]%string eq_refl) as R'.
    rewrite R in R'. injection R' as ->. reflexivity. }
  destruct out as [|a [|b [|c out]]]; try discriminate L.
  cbn in U0, U1. now injection U0 as ->; injection U1 as ->.
Defined.

(* ================================================================= *)
(** * Claims about the statistics merger *)

(** C7: the aggregate of any list of per-file partials holds, for every
    (semantic type, prefix) pair, the sum of the counts of that pair over the
    files; and the files taken in any other order give an aggregate with the
    same counts, the same types and the same pairs. *)
Theorem merged_counts_are_sums_in_any_order (files : list (string * partial)) :
  Forall (fun kp => partial_wf (snd kp)) files ->
  exists agg,
    LoadCompendium.sum_meta_data (meta_data_of files) = Ok agg /\
    (forall T X, count agg T X = sumZ (map (fun kp => count (snd kp) T X) files)) /\
    (forall files', Permutation files files' ->
       exists agg',
         LoadCompendium.sum_meta_data (meta_data_of files') = Ok agg' /\
         (forall T X, count agg' T X = count agg T X) /\
         (forall T, Dict.mem agg' T = Dict.mem agg T) /\
         (forall T X, has_pair agg' T X = has_pair agg T X)).
Proof.
  intros W.
  destruct (MergeFacts.sum_meta_data_wf W) as (agg & E & C & Ty & P).
  exists agg. split; [exact E|]. split; [exact C|].
  intros files' Perm.
  assert (W' : Forall (fun kp => partial_wf (snd kp)) files').
  { apply Forall_forall. intros kp I. rewrite Forall_forall in W.
    apply W. eapply Permutation_in; [apply Permutation_sym; exact Perm | exact I]. }
  destruct (MergeFacts.sum_meta_data_wf W') as (agg' & E' & C' & Ty' & P').
  exists agg'. split; [exact E'|]. repeat split.
  - intros T X. rewrite C', C. symmetry.
    apply MergeFacts.sumZ_perm, Permutation_map, Perm.
  - intros T. rewrite Ty', Ty. symmetry. now apply MergeFacts.existsb_perm.
  - intros T X. rewrite P', P. symmetry. now apply MergeFacts.existsb_perm.
Qed.

(** Counts of 3 and 5 for prefix X under type T merge to 8, in both
    orders. *)
Lemma merged_counts_are_sums_in_any_order_witness :
  Forall (fun kp => partial_wf (snd kp)) two_partials /\
  (exists agg,
     LoadCompendium.sum_meta_data (meta_data_of two_partials) = Ok agg /\
     count agg "T" "X" = 8%Z) /\
  (exists agg',
     LoadCompendium.sum_meta_data (meta_data_of (rev two_partials)) = Ok agg' /\
     count agg' "T" "X" = 8%Z).
Proof.
  assert (W : Forall (fun kp => partial_wf (snd kp)) two_partials).
  { repeat constructor; cbn; intros F; exact F. }
  split; [exact W|].
  destruct (merged_counts_are_sums_in_any_order W) as (agg & E & C & O).
  split.
  - exists agg. split; [exact E|]. rewrite C. reflexivity.
  - destruct (O (rev two_partials) (Permutation_rev two_partials))
      as (agg' & E' & C' & _).
    exists agg'. split; [exact E'|]. rewrite C', C. reflexivity.
Defined.

(** ** Two runs of the merge *)

Module MergeRunFacts.

Import LoadCompendium.

Lemma keys_file_partials (db : Dict.t rvalue) :
  keys_file db = Dict.keys (file_partials db).
Proof.
  unfold keys_file, file_partials, Dict.keys.
  induction db as [|[k v] db IH]; simpl; [reflexivity|].
  destruct (String.prefix "file-" k); simpl; now rewrite IH.
Qed.






Lemma get_execute_sets {V} (pipeline : list (string * V)) : forall (db : Dict.t V) k,
  Dict.get (execute_sets pipeline db) k =
    match last_set pipeline k with
    | Some w => Some w
    | None => Dict.get db k
    end.
Proof.
  unfold execute_sets.
  induction pipeline as [|[k' v] pipeline IH]; intros db k; simpl; [reflexivity|].
  rewrite IH. destruct (last_set pipeline k); [reflexivity|].
  destruct (String.eqb_spec k' k) as [->|N].
  - apply DictFacts.get_set_eq.
  - now apply DictFacts.get_set_ne.
Qed.

Lemma execute_commands_sets (items : list (string * rvalue)) : forall db,
  execute_commands (map (fun kv => SET (fst kv) (snd kv)) items) db
  = (Ok tt, execute_sets items db).
Proof.
  unfold execute_sets.
  induction items as [|[k v] items IH]; intros db; simpl; [reflexivity|].
  apply IH.
Qed.

(** The [SET] commands of an aggregate, as a pipeline of [set] calls. *)
Lemma stage_aggregate_sets (agg : partial) :
  map (fun item => SET (fst item) (RJson (dump_counts (snd item)))) agg
  = map (fun kv => SET (fst kv) (snd kv))
        (map (fun item => (fst item, RJson (dump_counts (snd item)))) agg).
Proof. now rewrite map_map. Qed.


(** Writes under keys that are not per-file keys leave the per-file entries
    as they are. *)
Lemma file_partials_set (db : Dict.t rvalue) k v :
  String.prefix "file-" k = false -> file_partials (Dict.set db k v) = file_partials db.
Proof.
  intros P. unfold file_partials.
  induction db as [|[k' v'] db IH]; simpl.
  - now rewrite P.
  - destruct (String.eqb_spec k' k) as [->|N]; simpl.
    + now rewrite P.
    + now rewrite IH.
Qed.

Lemma file_partials_execute (pipeline : list command) : forall db,
  Forall (fun c => String.prefix "file-" (command_key c) = false) pipeline ->
  file_partials (snd (execute_commands pipeline db)) = file_partials db.
Proof.
  induction pipeline as [|c pipeline IH]; intros db F; simpl; [reflexivity|].
  inversion F as [|? ? Pc F']; subst.
  destruct (apply_command db c) as [db'|e] eqn:A; [|reflexivity].
  rewrite (IH db' F').
  destruct c as [k v | k vs]; simpl in A, Pc.
  - injection A as <-. now apply file_partials_set.
  - destruct (Dict.get db k) as [[j|t|l]|]; try discriminate A;
      injection A as <-; now apply file_partials_set.
Qed.








(** The statistics database after one run. *)
Lemma merge_run_db E dry_run r :
  curie_to_bl_type_db (snd (merge_semantic_meta_data E dry_run r)) =
    match merge_pipeline (curie_to_bl_type_db r) with
    | Ok pipeline =>
        if redis_up E && negb dry_run
        then snd (execute_commands pipeline (curie_to_bl_type_db r))
        else curie_to_bl_type_db r
    | Raise _ => curie_to_bl_type_db r
    end.
Proof.
  unfold merge_semantic_meta_data.
  destruct (redis_up E) eqn:Up; cbn.
  2:{ now destruct (merge_pipeline (curie_to_bl_type_db r)). }
  unfold bind, gets, lift.
  destruct (merge_pipeline (curie_to_bl_type_db r)) as [pipeline|e]; [|reflexivity].
  destruct dry_run; cbn; [reflexivity|].
  unfold execute_pipeline. rewrite Up.
  now destruct (execute_commands pipeline (curie_to_bl_type_db r)).
Qed.

End MergeRunFacts.



(** When no semantic type of the aggregate is named like a per-file key, a
    run leaves the per-file partials as they are. *)
Lemma merge_keeps_the_partials (E : env) (dry_run : bool) (r : redis) pipeline :
  LoadCompendium.merge_pipeline (curie_to_bl_type_db r) = Ok pipeline ->
  Forall (fun c => String.prefix "file-" (command_key c) = false) pipeline ->
  file_partials
    (curie_to_bl_type_db (snd (LoadCompendium.merge_semantic_meta_data E dry_run r)))
  = file_partials (curie_to_bl_type_db r).
Proof.
  intros P F. rewrite MergeRunFacts.merge_run_db, P.
  destruct (redis_up E && negb dry_run); [|reflexivity].
  now apply MergeRunFacts.file_partials_execute.
Qed.

(** A semantic type named file-T: the first run writes its counts under the
    key file-T; the second run reads that key as a per-file partial, raises
    before it writes, and leaves the store as the first run left it. *)
Example merge_after_a_type_named_like_a_file :
  let run1 := LoadCompendium.merge_semantic_meta_data example_env false odd_partial_redis in
  let run2 := LoadCompendium.merge_semantic_meta_data example_env false (snd run1) in
  fst run1 = Ok tt /\
  LoadCompendium.merge_pipeline (curie_to_bl_type_db odd_partial_redis)
    = Ok [LPUSH "semantic_types" ["file-T"%string];
          SET "file-T" (RJson (JDict [("X"%string, JNum 1)]))] /\
  LoadCompendium.merge_pipeline (curie_to_bl_type_db (snd run1)) = Raise KeyError /\
  fst run2 = Raise KeyError /\
  snd run2 = snd run1.
Proof. cbv zeta. repeat split. Qed.

(* ================================================================= *)
(** * What the staging block of the current loader is written to do

    [load_compendium] never gets to [stage] (see [LoadFacts]); the lemmas
    below are about the block on its own. *)

Module BlockFacts.

Import MonadFacts.

Lemma count_prefix_counts semantic_type source_prefix f u f' :
  LoadCompendium.count_prefix semantic_type source_prefix f = (Ok u, f') ->
  forall T X,
    count (LoadCompendium.source_prefixes f') T X =
      (count (LoadCompendium.source_prefixes f) T X
       + (if String.eqb semantic_type T
          then if String.eqb source_prefix X then 1 else 0
          else 0))%Z.
Proof.
  unfold LoadCompendium.count_prefix. intros H. unbind H as sp f0 G.
  apply gets_ok in G as [-> ->]. intros T X.
  assert (Step : forall n,
            Dict.get_default
              (Dict.get_default (LoadCompendium.source_prefixes f) semantic_type [])
              source_prefix 0%Z = (n - 1)%Z ->
            count (Dict.set (LoadCompendium.source_prefixes f) semantic_type
                     (Dict.set
                        (Dict.get_default (LoadCompendium.source_prefixes f) semantic_type [])
                        source_prefix n)) T X =
            (count (LoadCompendium.source_prefixes f) T X
             + (if String.eqb semantic_type T
                then if String.eqb source_prefix X then 1 else 0
                else 0))%Z).
  { intros n Hn.
    destruct (String.eqb_spec semantic_type T) as [<-|NT].
    - rewrite MergeFacts.count_set_eq.
      destruct (String.eqb_spec source_prefix X) as [<-|NX].
      + rewrite DictFacts.get_default_set_eq. unfold count. lia.
      + rewrite DictFacts.get_default_set_ne by assumption. unfold count. lia.
    - rewrite MergeFacts.count_set_ne by assumption. lia. }
  destruct (Dict.get _ source_prefix) as [n|] eqn:Gn;
    apply modify_ok in H; subst f'; cbn [LoadCompendium.source_prefixes
      LoadCompendium.set_source_prefixes]; apply Step;
    unfold Dict.get_default at 1; rewrite Gn; lia.
Qed.

Lemma stage_member_counts identifier semantic_type m f f' :
  LoadCompendium.stage_member identifier semantic_type m f = (Ok tt, f') ->
  exists eid,
    member_id "i" m = Ok eid /\
    forall T X,
      count (LoadCompendium.source_prefixes f') T X =
        (count (LoadCompendium.source_prefixes f) T X
         + (if String.eqb semantic_type T
            then if String.eqb (split_colon_0 eid) X then 1 else 0
            else 0))%Z.
Proof.
  unfold LoadCompendium.stage_member. intros H.
  unbind H as i f1 Gi. apply lift_ok in Gi as [Gi ->].
  unbind H as source_prefix f2 Sp. apply lift_ok in Sp as [Sp ->].
  unbind H as u f3 Cp. pose proof (count_prefix_counts _ _ _ Cp) as C.
  unbind H as i' f4 Gi'. apply lift_ok in Gi' as [Gi' ->].
  unbind H as term f5 Up. apply lift_ok in Up as [Up ->].
  unbind H as canonical f6 Tx. apply lift_ok in Tx as [Tx ->].
  unbind H as p f7 Gp. apply gets_ok in Gp as [-> ->].
  apply modify_ok in H. subst f'.
  cbn [LoadCompendium.source_prefixes LoadCompendium.set_term2id_pipeline].
  rewrite Gi in Gi'. injection Gi' as <-.
  destruct i; try discriminate Sp. injection Sp as <-.
  exists s. split; [unfold member_id; now rewrite Gi|]. exact C.
Qed.

Lemma stage_members_counts identifier semantic_type members : forall f f',
  for_each members (LoadCompendium.stage_member identifier semantic_type) f = (Ok tt, f') ->
  exists eids,
    map_result (member_id "i") members = Ok eids /\
    forall T X,
      count (LoadCompendium.source_prefixes f') T X =
        (count (LoadCompendium.source_prefixes f) T X
         + (if String.eqb semantic_type T then members_with_prefix eids X else 0))%Z.
Proof.
  induction members as [|m members IH]; intros f f' H; cbn [for_each] in H.
  - injection H as <-. exists []. split; [reflexivity|].
    intros T X. cbn. destruct (String.eqb semantic_type T); lia.
  - unbind H as u f1 Hm. destruct u.
    apply stage_member_counts in Hm as (eid & Hid & C).
    apply IH in H as (eids & Hids & Cs).
    exists (eid :: eids). split.
    + cbn. rewrite Hid. cbn. now rewrite Hids.
    + intros T X. rewrite Cs, C. cbn [members_with_prefix].
      destruct (String.eqb semantic_type T); lia.
Qed.

(** The block, when it returns, has added one to the count of its type and
    the prefix of each member, and has left the other types alone. *)
Lemma stage_counts instance identifier semantic_type f f' :
  LoadCompendium.stage instance identifier semantic_type f = (Ok tt, f') ->
  exists members eids,
    rbind (getitem instance "identifiers") iterate = Ok members /\
    map_result (member_id "i") members = Ok eids /\
    forall T X,
      count (LoadCompendium.source_prefixes f') T X =
        (count (LoadCompendium.source_prefixes f) T X
         + (if String.eqb semantic_type T then members_with_prefix eids X else 0))%Z.
Proof.
  unfold LoadCompendium.stage. intros H.
  unbind H as sp f0 G. apply gets_ok in G as [-> ->].
  unbind H as u1 f1 W.
  assert (C0 : forall T X, count (LoadCompendium.source_prefixes f1) T X
                           = count (LoadCompendium.source_prefixes f) T X).
  { intros T X. unfold when in W.
    destruct (Dict.mem (LoadCompendium.source_prefixes f) semantic_type) eqn:Mem; cbn in W.
    - now injection W as _ <-.
    - apply modify_ok in W. subst f1. cbn.
      destruct (String.eqb_spec semantic_type T) as [<-|NT].
      + rewrite MergeFacts.count_set_eq. unfold count, Dict.get_default.
        unfold Dict.mem in Mem.
        now destruct (Dict.get (LoadCompendium.source_prefixes f) semantic_type).
      + now rewrite MergeFacts.count_set_ne. }
  unbind H as ids f2 Gi. apply lift_ok in Gi as [Gi ->].
  unbind H as members f3 It. apply lift_ok in It as [It ->].
  unbind H as u2 f4 L. destruct u2.
  apply stage_members_counts in L as (eids & Hids & Cs).
  unbind H as canonical f5 Tx. apply lift_ok in Tx as [_ ->].
  unbind H as dumped f6 D. apply lift_ok in D as [_ ->].
  unbind H as p1 f7 G1. apply gets_ok in G1 as [-> ->].
  unbind H as u3 f8 M1. apply modify_ok in M1. subst f8.
  unbind H as ty f9 Ty. apply lift_ok in Ty as [_ ->].
  unbind H as p2 f10 G2. apply gets_ok in G2 as [-> ->].
  unbind H as u4 f11 M2. apply modify_ok in M2. subst f11.
  unbind H as has_ic f12 Ic. apply lift_ok in Ic as [_ ->].
  assert (S1 : LoadCompendium.source_prefixes f' = LoadCompendium.source_prefixes f4).
  { unfold when in H. destruct has_ic.
    - unbind H as ic f13 Gc. apply lift_ok in Gc as [_ ->].
      unbind H as p3 f14 G3. apply gets_ok in G3 as [-> ->].
      apply modify_ok in H. now subst.
    - now injection H as <-. }
  exists members, eids. split; [now rewrite Gi|]. split; [assumption|].
  intros T X. now rewrite S1, Cs, C0.
Qed.

(** Every write of [upper_writes] carries the canonical identifier. *)
Lemma last_set_upper_writes canonical eids eid :
  In eid eids -> last_set (upper_writes canonical eids) (upper eid) = Some canonical.
Proof.
  unfold upper_writes.
  induction eids as [|e eids IH]; intros I; cbn; [destruct I|].
  destruct (in_dec string_dec eid eids) as [I'|N].
  - now rewrite (IH I').
  - destruct I as [->|I]; [|contradiction].
    destruct (last_set _ (upper eid)) as [w|] eqn:L.
    + clear IH N. revert L. induction eids as [|e' eids IH']; cbn; [discriminate|].
      destruct (last_set (map (fun eid0 => (upper eid0, canonical)) eids) (upper eid)) eqn:L'.
      * intros [= <-]. now apply IH'.
      * destruct (String.eqb (upper e') (upper eid)); [now intros [= <-] | discriminate].
    + now rewrite String.eqb_refl.
Qed.

(** The block for one class, carried out on a store that answers, and a
    lookup of any member in any letter case: the node found has the
    identifier the block was given, which [process_line] takes from the
    first member. *)
Lemma stage_then_resolve E instance identifier semantic_type r f f' :
  redis_up E = true ->
  LoadCompendium.stage instance identifier semantic_type (LoadCompendium.enter r) = (Ok tt, f) ->
  LoadCompendium.execute_pipelines E f = (Ok tt, f') ->
  exists members eids canonical,
    rbind (getitem instance "identifiers") iterate = Ok members /\
    map_result (member_id "i") members = Ok eids /\
    identifier = JStr canonical /\
    forall eid x, In eid eids -> upper x = upper eid ->
      option_map (fun n => Normalizer.identifier (Normalizer.id n))
        (resolve_one (LoadCompendium.store f') x) = Some canonical.
Proof.
  intros Up St Ex.
  apply StageFacts.stage_term2id in St as (members & eids & canonical & Hm & He & -> & P).
  exists members, eids, canonical. repeat split; try assumption.
  intros eid x I Ux.
  unfold LoadCompendium.execute_pipelines in Ex.
  unbind Ex as f0 f1 G. apply gets_ok in G as [-> ->].
  rewrite Up in Ex. apply modify_ok in Ex. subst f'.
  unfold resolve_one.
  cbn [LoadCompendium.store LoadCompendium.set_store eq_id_to_id_db id_to_eqids_db
       id_to_type_db].
  rewrite Ux, P.
  cbn [LoadCompendium.enter LoadCompendium.term2id_pipeline app].
  rewrite MergeRunFacts.get_execute_sets, (last_set_upper_writes canonical eids eid I).
  reflexivity.
Qed.

End BlockFacts.

(* ================================================================= *)
(** * Facts about the string operations *)

Module PyFacts.

Import Py.

Open Scope string_scope.

Lemma has_char_app c x y : has_char c (x ++ y) = has_char c x || has_char c y.
Proof.
  induction x as [|a x IH]; simpl; [reflexivity|].
  now rewrite IH, orb_assoc.
Qed.

Lemma split_not_nil c s : split c s <> [].
Proof.
  destruct s as [|a s]; simpl; [discriminate|].
  destruct (Ascii.eqb a c); [discriminate|].
  destruct (split c s); discriminate.
Qed.

Lemma split1_not_nil c s : split1 c s <> [].
Proof.
  destruct s as [|a s]; simpl; [discriminate|].
  destruct (Ascii.eqb a c); [discriminate|].
  destruct (split1 c s); discriminate.
Qed.

(** A string without the separator is one part. *)
Lemma split_none c s : has_char c s = false -> split c s = [s].
Proof.
  induction s as [|a s IH]; simpl; [reflexivity|].
  destruct (Ascii.eqb a c); simpl; [discriminate|].
  intros H. now rewrite (IH H).
Qed.

Lemma split1_none c s : has_char c s = false -> split1 c s = [s].
Proof.
  induction s as [|a s IH]; simpl; [reflexivity|].
  destruct (Ascii.eqb a c); simpl; [discriminate|].
  intros H. now rewrite (IH H).
Qed.

(** Splitting around a separator splits both sides. *)
Lemma split_app c x y : split c (x ++ String c y) = (split c x ++ split c y)%list.
Proof.
  induction x as [|a x IH]; simpl.
  - now rewrite Ascii.eqb_refl.
  - destruct (Ascii.eqb a c); [now rewrite IH|].
    rewrite IH. destruct (split c x) eqn:E; [|reflexivity].
    now apply split_not_nil in E.
Qed.

Lemma split1_first c x y :
  has_char c x = false -> split1 c (x ++ String c y) = [x; y].
Proof.
  induction x as [|a x IH]; simpl.
  - now rewrite Ascii.eqb_refl.
  - destruct (Ascii.eqb a c); simpl; [discriminate|].
    intros H. now rewrite (IH H).
Qed.

(** A string with the separator: what is before the first one and what is
    after it. *)
Lemma has_char_cut c s :
  has_char c s = true ->
  exists x y, s = x ++ String c y /\ has_char c x = false.
Proof.
  induction s as [|a s IH]; simpl; [discriminate|].
  destruct (Ascii.eqb_spec a c) as [->|N]; simpl.
  - intros _. exists "", s. now split.
  - intros H. destruct (IH H) as (x & y & -> & Hx).
    exists (String a x), y. split; [reflexivity|]. simpl.
    destruct (Ascii.eqb_spec a c); [contradiction | exact Hx].
Qed.

(** The last separator: what is before it and what is after it. *)
Lemma has_char_cut_last c s :
  has_char c s = true ->
  exists x y, s = x ++ String c y /\ has_char c y = false.
Proof.
  induction s as [|a s IH]; simpl; [discriminate|].
  destruct (has_char c s) eqn:Hs.
  - intros _. destruct (IH eq_refl) as (x & y & -> & Hy).
    exists (String a x), y. now split.
  - rewrite orb_false_r. intros H. apply Ascii.eqb_eq in H as ->.
    exists "", s. now split.
Qed.

Lemma join_split c s : join (String c "") (split c s) = s.
Proof.
  unfold join. induction s as [|a s IH]; simpl; [reflexivity|].
  destruct (Ascii.eqb_spec a c) as [->|N].
  - destruct (split c s) as [|p ps] eqn:E; [now apply split_not_nil in E|].
    simpl in IH |- *. now rewrite IH.
  - destruct (split c s) as [|p ps] eqn:E; [now apply split_not_nil in E|].
    destruct ps as [|q qs]; simpl in IH |- *; now rewrite <- IH.
Qed.

(** The parts of a split hold no separator, and only characters of the
    string. *)
Lemma split_parts c s :
  Forall (fun part => has_char c part = false /\
                      forall d, has_char d part = true -> has_char d s = true)
         (split c s).
Proof.
  induction s as [|a s IH]; simpl.
  - repeat constructor. intros d H. discriminate.
  - destruct (Ascii.eqb_spec a c) as [->|N].
    + constructor.
      * split; [reflexivity | discriminate].
      * eapply Forall_impl; [|exact IH]. intros part [H1 H2]. split; [exact H1|].
        intros d Hd. rewrite (H2 d Hd). apply orb_true_r.
    + destruct (split c s) as [|p ps] eqn:E; [now apply split_not_nil in E|].
      inversion IH as [|? ? [H1 H2] F]; subst. constructor.
      * split.
        -- simpl. destruct (Ascii.eqb_spec a c); [contradiction | exact H1].
        -- intros d. simpl. destruct (Ascii.eqb a d); [reflexivity|]. simpl.
           apply H2.
      * eapply Forall_impl; [|exact F]. intros part [G1 G2]. split; [exact G1|].
        intros d Hd. rewrite (G2 d Hd). apply orb_true_r.
Qed.

Lemma split_whitespace_parts s :
  Forall (fun word => (forall d, isspace d = true -> has_char d word = false) /\
                      forall d, has_char d word = true -> has_char d s = true)
         (split_whitespace s).
Proof.
  induction s as [|a s IH]; [constructor|].
  assert (Tail : Forall (fun word =>
             (forall d, isspace d = true -> has_char d word = false) /\
             forall d, has_char d word = true -> has_char d (String a s) = true)
           (split_whitespace s)).
  { eapply Forall_impl; [|exact IH]. intros w [H1 H2]. split; [exact H1|].
    intros d Hd. simpl. rewrite (H2 d Hd). apply orb_true_r. }
  cbn [split_whitespace].
  destruct (isspace a) eqn:Sa; [exact Tail|].
  assert (Single : (forall d, isspace d = true -> has_char d (String a "") = false) /\
                   forall d, has_char d (String a "") = true ->
                             has_char d (String a s) = true).
  { split.
    - intros d Hd. simpl. rewrite orb_false_r.
      destruct (Ascii.eqb_spec a d) as [->|]; [congruence | reflexivity].
    - intros d. simpl. rewrite orb_false_r. intros ->. reflexivity. }
  destruct s as [|b s']; [repeat constructor; apply Single|].
  destruct (isspace b) eqn:Sb; [constructor; [exact Single | exact Tail]|].
  destruct (split_whitespace (String b s')) as [|w ws] eqn:E.
  - repeat constructor; apply Single.
  - inversion Tail as [|? ? [H1 H2] F]; subst. constructor; [|exact F].
    split.
    + intros d Hd. simpl. rewrite (H1 d Hd), orb_false_r.
      destruct (Ascii.eqb_spec a d) as [->|]; [congruence | reflexivity].
    + intros d. pose proof (H2 d) as H2d. cbn [has_char] in H2d |- *.
      destruct (Ascii.eqb a d); [reflexivity | exact H2d].
Qed.

(** A character of a joined string comes from the separator or from a
    part. *)
Lemma has_char_join d sep parts :
  has_char d (join sep parts) = true ->
  has_char d sep = true \/ exists part, In part parts /\ has_char d part = true.
Proof.
  unfold join. induction parts as [|p ps IH]; simpl; [discriminate|].
  destruct ps as [|q qs].
  - intros H. right. exists p. auto.
  - rewrite !has_char_app. intros H.
    apply orb_true_iff in H as [H|H]; [right; exists p; auto|].
    apply orb_true_iff in H as [H|H]; [now left|].
    destruct (IH H) as [L | (part & I & P)]; [now left|].
    right. exists part. split; [now right | exact P].
Qed.

End PyFacts.

(* ================================================================= *)
(** * util.py: lists *)

Module UniquifyFacts.

Import Util.

Lemma in_list_In x xs : in_list x xs = true <-> In x xs.
Proof.
  unfold in_list. rewrite existsb_exists. split.
  - intros (y & I & E). apply String.eqb_eq in E. now subst.
  - intros I. exists x. split; [exact I | apply String.eqb_refl].
Qed.

Lemma in_list_app x xs ys : in_list x (xs ++ ys) = in_list x xs || in_list x ys.
Proof. unfold in_list. apply existsb_app. Qed.

Lemma uniquify_from_spec seq : forall seen,
  NoDup (uniquify_from seen seq) /\
  forall x, In x (uniquify_from seen seq) <-> In x seq /\ ~ In x seen.
Proof.
  induction seq as [|y seq IH]; intros seen; simpl.
  - split; [constructor | tauto].
  - destruct (in_list y seen) eqn:Y.
    + apply in_list_In in Y. destruct (IH seen) as [N M]. split; [exact N|].
      intros x. rewrite M. split; [tauto|].
      intros [[->|I] S]; [contradiction | tauto].
    + assert (NY : ~ In y seen) by (rewrite <- in_list_In; congruence).
      destruct (IH (y :: seen)) as [N M]. split.
      * constructor; [|exact N]. rewrite M. simpl. tauto.
      * intros x. simpl. rewrite M. simpl. split.
        -- intros [<-|[I S]]; tauto.
        -- intros [[<-|I] S]; [now left|].
           destruct (string_dec y x) as [->|D]; [now left | right; tauto].
Qed.

(** What has been seen can be taken out of the list beforehand. *)
Lemma uniquify_from_filter seq : forall seen1 seen2,
  uniquify_from (seen1 ++ seen2) seq =
  uniquify_from seen1 (filter (fun y => negb (in_list y seen2)) seq).
Proof.
  induction seq as [|y seq IH]; intros seen1 seen2; simpl; [reflexivity|].
  rewrite in_list_app.
  destruct (in_list y seen2) eqn:Y2; simpl.
  - rewrite orb_true_r. apply IH.
  - rewrite orb_false_r. destruct (in_list y seen1); [apply IH|].
    f_equal. apply (IH (y :: seen1) seen2).
Qed.

End UniquifyFacts.

(** [uniquify_list] returns a list without repetition that has exactly the
    elements of its argument. *)
Theorem uniquify_list_has_each_element_once (seq : list string) :
  NoDup (Util.uniquify_list seq) /\
  forall x, In x (Util.uniquify_list seq) <-> In x seq.
Proof.
  destruct (UniquifyFacts.uniquify_from_spec seq []) as [N M].
  split; [exact N|]. intros x. unfold Util.uniquify_list. rewrite M. simpl. tauto.
Qed.

(** [uniquify_list] keeps every element at its first occurrence: the head of
    the list stays the head, and its later copies are what is removed from
    the rest; a second pass changes nothing. *)
Theorem uniquify_list_keeps_first_occurrences (x : string) (rest seq : list string) :
  Util.uniquify_list (x :: rest) =
    x :: Util.uniquify_list (filter (fun y => negb (String.eqb y x)) rest) /\
  Util.uniquify_list (Util.uniquify_list seq) = Util.uniquify_list seq.
Proof.
  split.
  - unfold Util.uniquify_list. simpl. f_equal.
    change (Util.uniquify_from [x] rest) with (Util.uniquify_from ([] ++ [x]) rest).
    rewrite (UniquifyFacts.uniquify_from_filter rest [] [x]).
    f_equal. apply filter_ext. intros y. unfold in_list. simpl.
    now rewrite orb_false_r, String.eqb_sym.
  - unfold Util.uniquify_list.
    assert (Fix : forall l seen, NoDup l -> (forall y, In y l -> ~ In y seen) ->
                    Util.uniquify_from seen l = l).
    { induction l as [|y l IH]; intros seen N D; simpl; [reflexivity|].
      inversion N as [|? ? Ny Nl]; subst.
      destruct (in_list y seen) eqn:Y.
      - apply UniquifyFacts.in_list_In in Y. exfalso. apply (D y); simpl; auto.
      - f_equal. apply IH; [exact Nl|].
        intros z Iz [<-|S]; [contradiction|]. apply (D z); simpl; auto. }
    apply Fix; [apply UniquifyFacts.uniquify_from_spec|]. intros y _ [].
Qed.

(* ================================================================= *)
(** * util.py: CURIEs *)

Module CurieFacts.

Import Py.

Open Scope string_scope.

(** Upper-casing neither makes nor removes a colon, a slash or an
    underscore. *)
Lemma upper_ascii_colon a : Ascii.eqb (upper_ascii a) ":" = Ascii.eqb a ":".
Proof. destruct a as [[] [] [] [] [] [] [] []]; reflexivity. Qed.

Lemma upper_ascii_idem a : upper_ascii (upper_ascii a) = upper_ascii a.
Proof. destruct a as [[] [] [] [] [] [] [] []]; reflexivity. Qed.

Lemma upper_idem s : upper (upper s) = upper s.
Proof. induction s as [|a s IH]; simpl; [reflexivity|]. now rewrite upper_ascii_idem, IH. Qed.

Lemma upper_app x y : upper (x ++ y) = upper x ++ upper y.
Proof. induction x as [|a x IH]; simpl; [reflexivity|]. now rewrite IH. Qed.

Lemma has_colon_upper s : has_char ":" (upper s) = has_char ":" s.
Proof.
  induction s as [|a s IH]; simpl; [reflexivity|].
  now rewrite upper_ascii_colon, IH.
Qed.

(** The cases of every function that looks for the first colon. *)
Lemma colon_cases text :
  (has_char ":" text = false /\ split1 ":" text = [text]) \/
  (exists p rest, text = p ++ ":" ++ rest /\ has_char ":" p = false /\
                  has_char ":" text = true /\ split1 ":" text = [p; rest]).
Proof.
  destruct (has_char ":" text) eqn:H.
  - right. destruct (PyFacts.has_char_cut ":" text H) as (p & rest & -> & Hp).
    exists p, rest. repeat split; try assumption.
    now apply PyFacts.split1_first.
  - left. split; [reflexivity | now apply PyFacts.split1_none].
Qed.

End CurieFacts.

(** [get_numerical_curie_suffix] raises IndexError for a CURIE without a
    colon; for a CURIE with one it converts all the text after the first
    colon, and returns [None] when that is not a number. *)
Theorem get_numerical_curie_suffix_needs_a_colon (int : string -> option Z)
  (curie : string) :
  Util.get_numerical_curie_suffix int curie =
    if Py.has_char ":" curie then Ok (int (Util.un_curie curie)) else Raise IndexError.
Proof.
  unfold Util.get_numerical_curie_suffix, Util.un_curie.
  destruct (CurieFacts.colon_cases curie) as [[H S] | (p & rest & E & Hp & H & S)];
    rewrite H, S; unfold Py.join, Py.from_1, Py.item; simpl.
  - reflexivity.
  - now destruct (int rest).
Qed.

(** For a text with a colon, [upper_curie] is [get_curie], a colon and
    [un_curie]: the upper-cased text before the first colon, and the text
    after it as it is. *)
Theorem upper_curie_is_get_curie_and_un_curie (text : string) :
  Py.has_char ":" text = true ->
  exists p,
    Util.get_curie text = Ok (Some p) /\
    Py.has_char ":" p = false /\
    Util.upper_curie text = Ok (p ++ ":" ++ Util.un_curie text)%string /\
    upper text = (p ++ ":" ++ upper (Util.un_curie text))%string.
Proof.
  intros H.
  destruct (CurieFacts.colon_cases text) as [[H' _] | (p & rest & E & Hp & _ & S)];
    [congruence|].
  exists (upper p).
  unfold Util.get_curie, Util.upper_curie, Util.un_curie. rewrite H, S. cbn.
  assert (SU : Py.split1 ":" (upper text) = [upper p; upper rest]).
  { rewrite E, CurieFacts.upper_app. cbn.
    apply (PyFacts.split1_first ":"%char (upper p) (upper rest)).
    now rewrite CurieFacts.has_colon_upper. }
  rewrite SU. cbn. repeat split.
  - now rewrite CurieFacts.has_colon_upper.
  - rewrite E at 1. now rewrite CurieFacts.upper_app.
Qed.

Lemma upper_curie_is_get_curie_and_un_curie_witness :
  Util.get_curie "mondo:0005002:x" = Ok (Some "MONDO"%string) /\
  Util.upper_curie "mondo:0005002:x" = Ok "MONDO:0005002:x"%string.
Proof.
  destruct (upper_curie_is_get_curie_and_un_curie "mondo:0005002:x" eq_refl)
    as (p & G & _ & U & _).
  assert (P : p = "MONDO"%string).
  { cbn in G. now injection G as <-. }
  subst p. split; [exact G | exact U].
Defined.

(** [upper_curie] never raises, leaves a text without a colon alone, keeps
    what [un_curie] returns, and changes nothing when applied again. *)
Theorem upper_curie_is_idempotent (text : string) :
  exists u,
    Util.upper_curie text = Ok u /\
    Util.upper_curie u = Ok u /\
    Util.un_curie u = Util.un_curie text /\
    Py.has_char ":" u = Py.has_char ":" text.
Proof.
  destruct (CurieFacts.colon_cases text) as [[H S] | (p & rest & E & Hp & H & S)].
  - exists text. unfold Util.upper_curie. rewrite H. cbn. auto.
  - exists (upper p ++ ":" ++ rest)%string.
    assert (Hu : Py.has_char ":" (upper p) = false)
      by now rewrite CurieFacts.has_colon_upper.
    assert (Su : Py.split1 ":" (upper p ++ ":" ++ rest) = [upper p; rest])
      by now apply (PyFacts.split1_first ":"%char).
    assert (Cu : Py.has_char ":" (upper p ++ ":" ++ rest) = true).
    { rewrite PyFacts.has_char_app. cbn. apply orb_true_r. }
    unfold Util.upper_curie, Util.un_curie. rewrite H, S, Cu, Su. cbn.
    now rewrite CurieFacts.upper_idem.
Qed.

(* ================================================================= *)
(** * util.py: the last segment of a path *)

Module SegmentFacts.

Import Py.

Open Scope string_scope.

Lemma append_assoc (x y z : string) : (x ++ y) ++ z = x ++ (y ++ z).
Proof. induction x as [|a x IH]; simpl; [reflexivity | now rewrite IH]. Qed.

Lemma prefix_app p s : String.prefix p s = true -> exists rest, s = p ++ rest.
Proof.
  revert s. induction p as [|a p IH]; intros s H.
  - now exists s.
  - destruct s as [|b s]; simpl in H; [discriminate|].
    destruct (ascii_dec a b) as [<-|]; [|discriminate].
    destruct (IH s H) as (rest & ->). now exists rest.
Qed.

Lemma prefix_append p s : String.prefix p (p ++ s) = true.
Proof.
  induction p as [|a p IH]; simpl.
  - now destruct s.
  - destruct (ascii_dec a a) as [_|N]; [exact IH | now destruct N].
Qed.

Lemma last_1_app {A} (l : list A) (y : A) : last_1 (l ++ [y])%list = [y].
Proof.
  unfold last_1. rewrite length_app. simpl.
  replace (List.length l + 1 - 1)%nat with (List.length l) by lia.
  rewrite skipn_app, skipn_all, Nat.sub_diag. reflexivity.
Qed.

Lemma item_last {A} (l : list A) (y : A) : item (l ++ [y])%list (-1) = Ok y.
Proof. unfold item. simpl. now rewrite rev_unit. Qed.

Lemma item_last_but_one {A} (l : list A) (x y : A) :
  item (l ++ [x; y])%list (-2) = Ok x.
Proof.
  unfold item. simpl.
  change (l ++ [x; y])%list with (l ++ [x] ++ [y])%list.
  now rewrite app_assoc, !rev_unit.
Qed.

(** The parts of [s.split(c)] end with the text after the last [c]. *)
Lemma split_last c s :
  exists init base last,
    split c s = (init ++ [last])%list /\ s = base ++ last /\
    has_char c last = false /\
    (has_char c s = true -> exists x, base = x ++ String c "" /\ init = split c x) /\
    (has_char c s = false -> base = "" /\ init = []).
Proof.
  destruct (has_char c s) eqn:H.
  - destruct (PyFacts.has_char_cut_last c s H) as (x & y & -> & Hy).
    exists (split c x), (x ++ String c ""), y.
    rewrite PyFacts.split_app, (PyFacts.split_none c y Hy), append_assoc.
    repeat split; try assumption; try discriminate.
    intros _. now exists x.
  - exists [], "", s. rewrite (PyFacts.split_none c s H).
    repeat split; try assumption; try discriminate.
Qed.

End SegmentFacts.

(** [Text.path_last] never raises: it returns the text after the last
    slash, which has no slash, and the whole text when there is none. *)
Theorem path_last_is_the_text_after_the_last_slash (text : string) :
  exists base last,
    Util.path_last text = Ok last /\
    text = (base ++ last)%string /\
    Py.has_char "/" last = false /\
    (base = EmptyString \/ exists x, base = (x ++ "/")%string).
Proof.
  destruct (SegmentFacts.split_last "/" text)
    as (init & base & last & S & E & Hl & Yes & No).
  unfold Util.path_last. destruct (Py.has_char "/" text) eqn:H.
  - exists base, last. rewrite S, SegmentFacts.last_1_app.
    repeat split; try assumption.
    right. destruct (Yes eq_refl) as (x & -> & _). now exists x.
  - exists base, last. destruct (No eq_refl) as [-> _]. simpl in E. subst last.
    repeat split; try assumption. now left.
Qed.

(** [Munge.gene] never raises: a name that starts with [http://] is cut to
    the text after its last slash, any other name is returned as it is. *)
Theorem gene_keeps_the_last_segment_of_a_url (name : string) :
  exists last,
    Util.gene name = Ok last /\
    if String.prefix "http://" name
    then Py.has_char "/" last = false /\ exists x, name = (x ++ "/" ++ last)%string
    else last = name.
Proof.
  unfold Util.gene. destruct (String.prefix "http://" name) eqn:P.
  - destruct (SegmentFacts.prefix_app _ _ P) as (rest & ->).
    destruct (SegmentFacts.split_last "/" ("http://" ++ rest))
      as (init & base & last & S & E & Hl & Yes & _).
    exists last. rewrite S, SegmentFacts.last_1_app.
    repeat split; try assumption.
    destruct (Yes eq_refl) as (x & -> & _). exists x.
    rewrite E. now rewrite SegmentFacts.append_assoc.
  - now exists name.
Qed.

(* ================================================================= *)
(** * util.py: CURIEs and OBO IRIs *)

Module OboFacts.

Import Py.

Open Scope string_scope.

(** [split] of two or three parts that have no separator. *)
Lemma split_two c x y :
  has_char c x = false -> has_char c y = false ->
  split c (x ++ String c y) = [x; y].
Proof.
  intros Hx Hy.
  now rewrite PyFacts.split_app, (PyFacts.split_none c x Hx), (PyFacts.split_none c y Hy).
Qed.

Lemma split_head_two c x y rest :
  has_char c x = false -> has_char c y = false ->
  exists more, split c (x ++ String c (y ++ String c rest)) = x :: y :: more.
Proof.
  intros Hx Hy. exists (split c rest).
  now rewrite PyFacts.split_app, (PyFacts.split_none c x Hx), PyFacts.split_app,
    (PyFacts.split_none c y Hy).
Qed.

(** The last segment of a path whose last segment is [last]. *)
Lemma item_last_segment base last :
  has_char "/" last = false ->
  item (split "/" (base ++ "/" ++ last)) (-1) = Ok last.
Proof.
  intros H. change (base ++ "/" ++ last) with (base ++ String "/" last).
  rewrite PyFacts.split_app, (PyFacts.split_none _ _ H).
  apply SegmentFacts.item_last.
Qed.

(** [obo_to_curie] on [.../P_L]. *)
Lemma obo_to_curie_segment base P L :
  has_char "/" P = false -> has_char "/" L = false ->
  has_char "_" P = false -> has_char "_" L = false ->
  Util.obo_to_curie (base ++ "/" ++ P ++ "_" ++ L) = Ok (P ++ ":" ++ L).
Proof.
  intros SP SL UP UL. unfold Util.obo_to_curie.
  rewrite item_last_segment.
  - cbn [rbind]. change (P ++ "_" ++ L) with (P ++ String "_" L).
    now rewrite (split_two "_"%char P L UP UL).
  - rewrite PyFacts.has_char_app, SP. exact SL.
Qed.

(** [curie_to_obo] on a text whose first two parts are [P] and [L]. *)
Lemma curie_to_obo_parts text P L more :
  split ":" text = P :: L :: more ->
  Util.curie_to_obo text = Ok ("<http://purl.obolibrary.org/obo/" ++ P ++ "_" ++ L ++ ">").
Proof. intros S. unfold Util.curie_to_obo. now rewrite S. Qed.

End OboFacts.

(** [Text.curie_to_obo] raises IndexError exactly on the texts that have
    no colon. *)
Theorem curie_to_obo_raises_without_a_colon (text : string) :
  Util.curie_to_obo text = Raise IndexError <-> Py.has_char ":" text = false.
Proof.
  destruct (Py.has_char ":" text) eqn:H.
  - destruct (PyFacts.has_char_cut ":" text H) as (x & y & -> & Hx).
    unfold Util.curie_to_obo.
    rewrite PyFacts.split_app, (PyFacts.split_none _ _ Hx).
    destruct (Py.split ":" y) as [|y0 ys] eqn:S; [now apply PyFacts.split_not_nil in S|].
    split; discriminate.
  - unfold Util.curie_to_obo. rewrite (PyFacts.split_none _ _ H). now split.
Qed.

(** [Text.curie_to_obo] writes the first two colon-separated parts into an
    IRI inside angle brackets, and leaves out whatever follows a second
    colon. *)
Theorem curie_to_obo_drops_what_follows_a_second_colon (P L rest : string) :
  Py.has_char ":" P = false -> Py.has_char ":" L = false ->
  Util.curie_to_obo (P ++ ":" ++ L)%string =
    Ok ("<http://purl.obolibrary.org/obo/" ++ P ++ "_" ++ L ++ ">")%string /\
  Util.curie_to_obo (P ++ ":" ++ L ++ ":" ++ rest)%string =
    Util.curie_to_obo (P ++ ":" ++ L)%string.
Proof.
  intros HP HL.
  assert (Two : Util.curie_to_obo (P ++ ":" ++ L)%string =
    Ok ("<http://purl.obolibrary.org/obo/" ++ P ++ "_" ++ L ++ ">")%string).
  { apply OboFacts.curie_to_obo_parts with (more := []).
    exact (OboFacts.split_two ":"%char P L HP HL). }
  split; [exact Two|]. rewrite Two.
  destruct (OboFacts.split_head_two ":"%char P L rest HP HL) as (more & S).
  now apply OboFacts.curie_to_obo_parts with (more := more).
Qed.

Lemma curie_to_obo_drops_what_follows_a_second_colon_witness :
  Util.curie_to_obo "MONDO:0005002" = Ok "<http://purl.obolibrary.org/obo/MONDO_0005002>"%string /\
  Util.curie_to_obo "MONDO:0005002:extra" = Util.curie_to_obo "MONDO:0005002".
Proof.
  exact (curie_to_obo_drops_what_follows_a_second_colon
           "MONDO" "0005002" "extra" eq_refl eq_refl).
Defined.

(** [Text.obo_to_curie] turns the last segment [P_L] of an OBO IRI into the
    CURIE [P:L], whatever comes before the last slash. *)
Theorem obo_to_curie_of_an_obo_iri (base P L : string) :
  Py.has_char "/" P = false -> Py.has_char "/" L = false ->
  Py.has_char "_" P = false -> Py.has_char "_" L = false ->
  Util.obo_to_curie (base ++ "/" ++ P ++ "_" ++ L)%string = Ok (P ++ ":" ++ L)%string /\
  Util.opt_to_curie (Some ("http://purl.obolibrary.org" ++ base ++ "/" ++ P ++ "_" ++ L)%string)
    = Ok (Some (P ++ ":" ++ L)%string).
Proof.
  intros SP SL UP UL. split; [now apply OboFacts.obo_to_curie_segment|].
  pose proof (OboFacts.obo_to_curie_segment ("http://purl.obolibrary.org" ++ base)
                P L SP SL UP UL) as O.
  rewrite SegmentFacts.append_assoc in O. unfold Util.obo_to_curie in O.
  unfold Util.opt_to_curie.
  rewrite SegmentFacts.prefix_append.
  cbn [orb].
  destruct (Py.item _ (-1)) as [last|e]; cbn [rbind] in O |- *; [|discriminate O].
  now injection O as ->.
Qed.

Lemma obo_to_curie_of_an_obo_iri_witness :
  Util.obo_to_curie "/obo/MONDO_0005002" = Ok "MONDO:0005002"%string /\
  Util.opt_to_curie (Some "http://purl.obolibrary.org/obo/MONDO_0005002"%string)
    = Ok (Some "MONDO:0005002"%string).
Proof.
  exact (obo_to_curie_of_an_obo_iri "/obo" "MONDO" "0005002"
           eq_refl eq_refl eq_refl eq_refl).
Defined.

(** [Text.curie_to_obo] and [Text.obo_to_curie] are not inverse to each
    other: the closing angle bracket of the IRI stays at the end of the
    CURIE that comes back. *)
Theorem obo_to_curie_after_curie_to_obo_keeps_the_bracket (P L : string) :
  Py.has_char ":" P = false -> Py.has_char ":" L = false ->
  Py.has_char "/" P = false -> Py.has_char "/" L = false ->
  Py.has_char "_" P = false -> Py.has_char "_" L = false ->
  exists iri,
    Util.curie_to_obo (P ++ ":" ++ L)%string = Ok iri /\
    Util.obo_to_curie iri = Ok (P ++ ":" ++ L ++ ">")%string.
Proof.
  intros CP CL SP SL UP UL.
  exists ("<http://purl.obolibrary.org/obo/" ++ P ++ "_" ++ L ++ ">")%string. split.
  - apply OboFacts.curie_to_obo_parts with (more := []).
    exact (OboFacts.split_two ":"%char P L CP CL).
  - apply (OboFacts.obo_to_curie_segment "<http://purl.obolibrary.org/obo" P (L ++ ">"));
      try assumption; rewrite PyFacts.has_char_app; [rewrite SL | rewrite UL]; reflexivity.
Qed.

Lemma obo_to_curie_after_curie_to_obo_keeps_the_bracket_witness :
  exists iri,
    Util.curie_to_obo "MONDO:0005002" = Ok iri /\
    Util.obo_to_curie iri = Ok "MONDO:0005002>"%string.
Proof.
  exact (obo_to_curie_after_curie_to_obo_keeps_the_bracket "MONDO" "0005002"
           eq_refl eq_refl eq_refl eq_refl eq_refl eq_refl).
Defined.

Module OptFacts.

Import Py.

Open Scope string_scope.

Lemma item_last_ok c s : exists last, item (split c s) (-1) = Ok last.
Proof.
  destruct (SegmentFacts.split_last c s) as (init & base & last & S & _).
  exists last. rewrite S. apply SegmentFacts.item_last.
Qed.

Lemma item_last_two_ok c s :
  has_char c s = true ->
  exists x y, item (split c s) (-2) = Ok x /\ item (split c s) (-1) = Ok y.
Proof.
  intros H.
  destruct (SegmentFacts.split_last c s) as (init & base & last & S & _ & _ & Yes & _).
  destruct (Yes H) as (x & _ & ->).
  destruct (SegmentFacts.split_last c x) as (init' & _ & z & S' & _).
  exists z, last. rewrite S, S', <- app_assoc. split.
  - apply SegmentFacts.item_last_but_one.
  - rewrite app_assoc. apply SegmentFacts.item_last.
Qed.

Lemma split_identifiers_org s :
  split "/" ("http://identifiers.org/" ++ s) =
    "http:" :: "" :: "identifiers.org" :: split "/" s.
Proof.
  change ("http://identifiers.org/" ++ s) with ("http://identifiers.org" ++ String "/" s).
  now rewrite PyFacts.split_app.
Qed.

Lemma not_obo s :
  String.prefix "http://purl.obolibrary.org" ("http://identifiers.org/" ++ s) = false.
Proof. reflexivity. Qed.

Lemma not_orpha s :
  String.prefix "http://www.orpha.net" ("http://identifiers.org/" ++ s) = false.
Proof. reflexivity. Qed.

Lemma not_umls s :
  String.prefix "http://linkedlifedata.com/resource/umls" ("http://identifiers.org/" ++ s)
    = false.
Proof. reflexivity. Qed.

End OptFacts.

(** [Text.opt_to_curie] never raises, and returns None for None only: every
    IRI it takes apart has the segments it indexes. *)
Theorem opt_to_curie_never_raises (text : option string) :
  exists r, Util.opt_to_curie text = Ok r /\ (r = None <-> text = None).
Proof.
  destruct text as [text|]; [|exists None; now split].
  unfold Util.opt_to_curie.
  destruct (String.prefix "http://purl.obolibrary.org" text
            || String.prefix "http://www.orpha.net" text).
  { destruct (OptFacts.item_last_ok "/" text) as (last & ->).
    eexists. split; [reflexivity | split; discriminate]. }
  destruct (String.prefix "http://linkedlifedata.com/resource/umls" text).
  { destruct (OptFacts.item_last_ok "/" text) as (last & ->).
    eexists. split; [reflexivity | split; discriminate]. }
  destruct (String.prefix "http://identifiers.org/" text) eqn:P.
  { destruct (SegmentFacts.prefix_app _ _ P) as (rest & ->).
    destruct (OptFacts.item_last_two_ok "/" ("http://identifiers.org/" ++ rest) eq_refl)
      as (x & y & -> & ->).
    eexists. split; [reflexivity | split; discriminate]. }
  eexists. split; [reflexivity | split; discriminate].
Qed.

(** On [http://identifiers.org/NS/ID], [Text.opt_to_curie] gives the CURIE
    with the upper-cased namespace; without a namespace segment it takes the
    host name for one. *)
Theorem opt_to_curie_of_an_identifiers_org_iri (ns local : string) :
  Py.has_char "/" ns = false -> Py.has_char "/" local = false ->
  Util.opt_to_curie (Some ("http://identifiers.org/" ++ ns ++ "/" ++ local)%string)
    = Ok (Some (upper ns ++ ":" ++ local)%string) /\
  Util.opt_to_curie (Some ("http://identifiers.org/" ++ local)%string)
    = Ok (Some ("IDENTIFIERS.ORG:" ++ local)%string).
Proof.
  intros Hn Hl. unfold Util.opt_to_curie.
  rewrite !OptFacts.not_obo, !OptFacts.not_orpha, !OptFacts.not_umls,
    !SegmentFacts.prefix_append, !OptFacts.split_identifiers_org.
  change (ns ++ "/" ++ local)%string with (ns ++ String "/" local)%string.
  rewrite (OboFacts.split_two "/"%char ns local Hn Hl), (PyFacts.split_none _ _ Hl).
  split; reflexivity.
Qed.

Lemma opt_to_curie_of_an_identifiers_org_iri_witness :
  Util.opt_to_curie (Some "http://identifiers.org/ncbigene/1017"%string)
    = Ok (Some "NCBIGENE:1017"%string) /\
  Util.opt_to_curie (Some "http://identifiers.org/1017"%string)
    = Ok (Some "IDENTIFIERS.ORG:1017"%string).
Proof.
  exact (opt_to_curie_of_an_identifiers_org_iri "ncbigene" "1017" eq_refl eq_refl).
Defined.

(* ================================================================= *)
(** * util.py: shortening and snake case *)

Module TextFacts.

Import Py.

Open Scope string_scope.

Lemma length_append (x y : string) :
  String.length (x ++ y) = (String.length x + String.length y)%nat.
Proof. induction x as [|a x IH]; simpl; [reflexivity | now rewrite IH]. Qed.

Lemma length_substring_0 n s :
  String.length (String.substring 0 n s) = Nat.min n (String.length s).
Proof.
  revert s. induction n as [|n IH]; intros [|a s]; simpl; try reflexivity.
  now rewrite IH.
Qed.

Lemma substring_0_all n s :
  (String.length s <= n)%nat -> String.substring 0 n s = s.
Proof.
  revert s. induction n as [|n IH]; intros [|a s] H; simpl in *; try reflexivity; try lia.
  rewrite IH; [reflexivity | lia].
Qed.

(** [text[: min(len(text), limit)]] for a limit that is not negative. *)
Lemma slice_to_min text (limit : Z) :
  (0 <= limit)%Z ->
  slice_to text (Z.min (Z.of_nat (String.length text)) limit) =
    String.substring 0 (Z.to_nat limit) text.
Proof.
  intros H. unfold slice_to.
  destruct (Z.ltb_spec (Z.min (Z.of_nat (String.length text)) limit) 0%Z) as [N|_]; [lia|].
  destruct (Z.le_gt_cases (Z.of_nat (String.length text)) limit) as [Le|Gt].
  - rewrite !substring_0_all; [reflexivity | lia | lia].
  - f_equal. lia.
Qed.

End TextFacts.

(** [Text.short] with a limit that is not negative: a text within the limit
    comes back as it is, a longer one is cut to [limit] characters followed
    by three dots, so the result is up to three characters longer than the
    limit; the empty text gives None. *)
Theorem short_cuts_to_the_limit_and_adds_three_dots (obj : string) (limit : Z) :
  (0 <= limit)%Z -> obj <> EmptyString ->
  exists text,
    Util.short obj limit = Some text /\
    (Z.of_nat (String.length text) <= limit + 3)%Z /\
    (Z.of_nat (String.length obj) <= limit -> text = obj)%Z /\
    ((limit < Z.of_nat (String.length obj))%Z ->
     text = (String.substring 0 (Z.to_nat limit) obj ++ "...")%string) /\
    Util.short EmptyString limit = None.
Proof.
  intros H N. destruct obj as [|a obj]; [now destruct N|].
  unfold Util.short. rewrite (TextFacts.slice_to_min _ H).
  eexists. split; [reflexivity|].
  destruct (Z.ltb_spec limit (Z.of_nat (String.length (String a obj)))) as [Lt|Ge].
  - rewrite TextFacts.length_append, TextFacts.length_substring_0.
    repeat split; try reflexivity; try lia.
    cbn [String.length]. lia.
  - rewrite TextFacts.substring_0_all by lia.
    assert (E : (String a obj ++ "")%string = String a obj).
    { clear. generalize (String a obj). intros s.
      induction s as [|b s IH]; simpl; [reflexivity | now rewrite IH]. }
    rewrite E. repeat split; try reflexivity; lia.
Qed.

Lemma short_cuts_to_the_limit_and_adds_three_dots_witness :
  Util.short "biolink:Disease" 7%Z = Some "biolink..."%string.
Proof.
  destruct (short_cuts_to_the_limit_and_adds_three_dots (obj := "biolink:Disease") (limit := 7%Z))
    as (text & S & _ & _ & Cut & _); [lia | discriminate |].
  rewrite S. f_equal. apply Cut. reflexivity.
Defined.

(** [Text.snakify] leaves no comma, dash or whitespace: every character of
    the result is an underscore or a character of the text that is none of
    these. *)
Theorem snakify_leaves_no_separator (text : string) (d : ascii) :
  Py.has_char d (Util.snakify text) = true ->
  d <> ","%char /\ d <> "-"%char /\ Py.isspace d = false /\
  (d = "_"%char \/ Py.has_char d text = true).
Proof.
  assert (Under : forall d', Py.has_char d' "_" = true -> d' = "_"%char).
  { intros d'. cbn [Py.has_char]. rewrite orb_false_r. intros E.
    apply Ascii.eqb_eq in E. now subst. }
  assert (Not : forall c part, Py.has_char c part = false ->
                               Py.has_char d part = true -> d <> c).
  { intros c part F T ->. congruence. }
  unfold Util.snakify. intros H.
  apply PyFacts.has_char_join in H. destruct H as [H | (word & In3 & H)].
  { apply Under in H. subst d. repeat split; try discriminate. now left. }
  pose proof (PyFacts.split_whitespace_parts
                (Py.join "_" (Py.split "-" (Py.join "_" (Py.split "," text))))) as W.
  rewrite Forall_forall in W. destruct (W word In3) as [Space In2]. clear W.
  assert (Sp : Py.isspace d = false).
  { destruct (Py.isspace d) eqn:E; [|reflexivity]. rewrite (Space d E) in H. discriminate. }
  apply In2 in H. clear In2 In3 Space word.
  apply PyFacts.has_char_join in H. destruct H as [H | (part & In2 & H)].
  { apply Under in H. subst d. repeat split; try discriminate. now left. }
  pose proof (PyFacts.split_parts "-" (Py.join "_" (Py.split "," text))) as W.
  rewrite Forall_forall in W. destruct (W part In2) as [Dash In1]. clear W.
  pose proof (Not _ _ Dash H) as ND. apply In1 in H. clear In1 In2 Dash part.
  apply PyFacts.has_char_join in H. destruct H as [H | (part & In1 & H)].
  { apply Under in H. subst d. repeat split; try discriminate. now left. }
  pose proof (PyFacts.split_parts "," text) as W.
  rewrite Forall_forall in W. destruct (W part In1) as [Comma In0]. clear W.
  pose proof (Not _ _ Comma H) as NC. apply In0 in H.
  repeat split; try assumption. now right.
Qed.

Lemma snakify_leaves_no_separator_witness :
  Py.has_char "b" (Util.snakify "a, b-c") = true /\
  ("b"%char <> ","%char /\ "b"%char <> "-"%char /\ Py.isspace "b" = false /\
   ("b"%char = "_"%char \/ Py.has_char "b" "a, b-c" = true)).
Proof.
  split; [reflexivity|].
  exact (snakify_leaves_no_separator "a, b-c" "b" eq_refl).
Defined.

(* ================================================================= *)
(** * load_compendium.py on every input *)

(** The nested [get_ancestors] is memoised: once it has returned a list for
    a type, it returns that list again without asking the provider, whatever
    the provider would say now, and leaves the frame alone.  A list that was
    not memoised before contains the input type. *)
Theorem get_ancestors_is_memoised (E : env) (input_type : json)
  (f f' : LoadCompendium.frame) (ancs : list string) :
  LoadCompendium.get_ancestors E input_type f = (Ok ancs, f') ->
  exists t,
    input_type = JStr t /\
    Dict.get (LoadCompendium.ancestor_map f') t = Some ancs /\
    (Dict.get (LoadCompendium.ancestor_map f) t = None -> In t ancs) /\
    untouched f f' /\
    forall E', LoadCompendium.get_ancestors E' input_type f' = (Ok ancs, f').
Proof.
  unfold LoadCompendium.get_ancestors, bind, lift, gets, modify, ret.
  destruct input_type as [| | |t| |]; cbn; try discriminate.
  destruct (Dict.get (LoadCompendium.ancestor_map f) t) as [memo|] eqn:G.
  - intros [= <- <-]. exists t. repeat split; try assumption; try congruence.
    intros E'. now rewrite G.
  - destruct (toolkit_get_ancestors E t) as [a|e]; cbn; [|discriminate].
    destruct (map_result (toolkit_class_uri E) a) as [uris|e]; cbn; [|discriminate].
    intros [= <- <-]. exists t. cbn.
    rewrite DictFacts.get_set_eq. repeat split.
    intros _. destruct (in_list t uris) eqn:I.
    + now apply UniquifyFacts.in_list_In.
    + now left.
Qed.

(** The ancestors of a disease, asked twice. *)
Lemma get_ancestors_is_memoised_witness :
  let f' := snd (LoadCompendium.get_ancestors example_env (JStr "biolink:Disease")
                   (LoadCompendium.enter empty_redis)) in
  In "biolink:Disease"%string ["biolink:Disease"; "biolink:NamedThing"]%string /\
  forall E', LoadCompendium.get_ancestors E' (JStr "biolink:Disease") f'
             = (Ok ["biolink:Disease"; "biolink:NamedThing"]%string, f').
Proof.
  cbv zeta.
  destruct (get_ancestors_is_memoised example_env (JStr "biolink:Disease")
              (LoadCompendium.enter empty_redis) eq_refl)
    as (t & T & _ & I & _ & Again).
  injection T as <-. split; [exact (I eq_refl) | exact Again].
Defined.

(** [load_compendium] leaves the store exactly as it found it, whatever the
    file, the block size and the collaborators; it returns [True] for a file
    without lines only, so no line of any file is ever loaded. *)
Theorem load_compendium_writes_nothing (E : env) (compendium_filename : string)
  (block_size : Z) (dry_run : bool) (r : redis) :
  exists loaded,
    LoadCompendium.load_compendium E compendium_filename block_size dry_run r
      = (Ok loaded, r) /\
    (loaded = true <->
     files E compendium_filename = Some [] /\ (dry_run = true \/ redis_up E = true)).
Proof.
  rewrite LoadFacts.load_compendium_spec. eexists. split; [reflexivity|].
  destruct (files E compendium_filename) as [[|l rest]|].
  - rewrite orb_true_iff. split; [now intros H | now intros [_ H]].
  - split; [discriminate | now intros [H _]].
  - split; [discriminate | now intros [H _]].
Qed.

(** [load] with at least one file never returns [True] and never writes: it
    returns [False] when a file is invalid, raises ConnectionError when the
    store does not answer, and NameError in every other case. *)
Theorem load_with_a_file_never_succeeds (E : env) (comp : string) (rest : list string)
  (block_size : Z) (dry_run : bool) (r : redis) :
  LoadCompendium.load E (comp :: rest) block_size dry_run r =
    (if LoadCompendium.all_valid E (comp :: rest)
     then if redis_up E then Raise NameError else Raise ConnectionError
     else Ok false, r).
Proof.
  destruct (LoadCompendium.all_valid E (comp :: rest)) eqn:V.
  - destruct (redis_up E) eqn:Up.
    + now apply LoadFacts.load_raises_name_error.
    + unfold LoadCompendium.load. rewrite V.
      unfold bind at 1. unfold try_except. unfold bind at 1.
      unfold LoadCompendium.create_connection_pool. now rewrite Up.
  - unfold LoadCompendium.load. now rewrite V.
Qed.

(** The staging block on the class of the end-to-end example: one member
    with the prefix MONDO and one with DOID are counted under the type. *)
Lemma stage_counts_witness :
  let f' := snd (LoadCompendium.stage disease_record (JStr "MONDO:0005002") "biolink:Disease"
                   (LoadCompendium.enter empty_redis)) in
  count (LoadCompendium.source_prefixes f') "biolink:Disease" "MONDO" = 1%Z /\
  count (LoadCompendium.source_prefixes f') "biolink:Disease" "UMLS" = 0%Z /\
  count (LoadCompendium.source_prefixes f') "biolink:NamedThing" "MONDO" = 0%Z.
Proof.
  cbv zeta.
  destruct (@BlockFacts.stage_counts disease_record (JStr "MONDO:0005002") "biolink:Disease"
              (LoadCompendium.enter empty_redis) _ eq_refl)
    as (members & eids & M & Eids & C).
  injection M as <-. injection Eids as <-.
  rewrite !C. repeat split.
Defined.

(** The staging block on the class of the end-to-end example, then a lookup
    of the second member in lower case: the node carries the first
    member. *)
Lemma stage_then_resolve_witness :
  let f := snd (LoadCompendium.stage disease_record (JStr "MONDO:0005002") "biolink:Disease"
                  (LoadCompendium.enter empty_redis)) in
  let f' := snd (LoadCompendium.execute_pipelines example_env f) in
  option_map (fun n => Normalizer.identifier (Normalizer.id n))
    (resolve_one (LoadCompendium.store f') "doid:3812") = Some "MONDO:0005002"%string.
Proof.
  cbv zeta.
  destruct (@BlockFacts.stage_then_resolve example_env disease_record (JStr "MONDO:0005002")
              "biolink:Disease" empty_redis _ _ eq_refl eq_refl eq_refl)
    as (members & eids & canonical & M & Eids & Id & Found).
  injection M as <-. injection Eids as <-. injection Id as <-.
  apply (Found "DOID:3812"%string); [right; left; reflexivity | reflexivity].
Defined.

(* ================================================================= *)
(** * merge_semantic_meta_data, from the store to the store *)

Module MergeStoreFacts.

Import LoadCompendium.

Lemma set_new {V} (d : Dict.t V) k v :
  Dict.get d k = None -> Dict.set d k v = d ++ [(k, v)].
Proof.
  induction d as [|[k' v'] d IH]; simpl; [reflexivity|].
  destruct (String.eqb k' k); [discriminate|]. intros H. now rewrite IH.
Qed.

Lemma filter_all {A} (f : A -> bool) (l : list A) :
  (forall x, In x l -> f x = true) -> filter f l = l.
Proof.
  induction l as [|x l IH]; intros H; simpl; [reflexivity|].
  rewrite (H x (or_introl eq_refl)), IH; [reflexivity|].
  intros y I. apply H. now right.
Qed.

Lemma combine_maps {A B C} (f : A -> B) (g : A -> C) (l : list A) :
  combine (map f l) (map g l) = map (fun x => (f x, g x)) l.
Proof. induction l as [|x l IH]; simpl; [reflexivity | now rewrite IH]. Qed.

Lemma fold_result_inv {A B} (P : A -> Prop) (f : A -> B -> result A) (xs : list B) :
  (forall a x a', P a -> f a x = Ok a' -> P a') ->
  forall a a', P a -> fold_result f xs a = Ok a' -> P a'.
Proof.
  intros Step. induction xs as [|x xs IH]; intros a a' Pa; simpl.
  - now intros [= <-].
  - destruct (f a x) as [a1|e] eqn:F; cbn; [|discriminate].
    apply IH. now apply (Step a x).
Qed.

(** The pipelined [get] of the per-file keys returns each partial. *)
Lemma fetch_all (db : Dict.t rvalue) (files : list (string * partial)) :
  Dict.wf db ->
  (forall kp, In kp files -> In (fst kp, RJson (dump_partial (snd kp))) db) ->
  map_result (fetch db) (map fst files)
  = Ok (map (fun kp => Some (RJson (dump_partial (snd kp)))) files).
Proof.
  intros W. induction files as [|kp files IH]; intros H; simpl; [reflexivity|].
  unfold fetch at 1.
  rewrite (@DictFacts.in_get _ db _ _ W (H kp (or_introl eq_refl))). cbn.
  rewrite IH; [reflexivity|]. intros kp' I. apply H. now right.
Qed.

(** The loop of lines 113-115 over partials with pairwise distinct keys. *)
Lemma fold_keep (files : list (string * partial)) : forall acc,
  NoDup (map fst files) ->
  (forall k, In k (map fst files) -> Dict.get acc k = None) ->
  fold_result keep_meta_datum
    (map (fun kp => (fst kp, Some (RJson (dump_partial (snd kp))))) files) acc
  = Ok (acc ++ meta_data_of files).
Proof.
  induction files as [|[k p] files IH]; intros acc N Fresh; simpl.
  - now rewrite app_nil_r.
  - inversion N as [|? ? Nk N']; subst.
    rewrite (@set_new _ acc k (dump_partial p) (Fresh k (or_introl eq_refl))).
    rewrite IH; [now rewrite <- app_assoc | assumption |].
    intros k' I. rewrite <- (@set_new _ acc k (dump_partial p) (Fresh k (or_introl eq_refl))).
    rewrite DictFacts.get_set_ne; [apply Fresh; now right|].
    intros ->. contradiction.
Qed.

(** What a run reads from a store that holds the partials [files]. *)
Lemma read_meta_data_of (db : Dict.t rvalue) (files : list (string * partial)) :
  Dict.wf db ->
  file_partials db = map (fun kp => (fst kp, RJson (dump_partial (snd kp)))) files ->
  read_meta_data db = Ok (meta_data_of files).
Proof.
  intros W F.
  assert (K : keys_file db = map fst files).
  { rewrite MergeRunFacts.keys_file_partials, F. unfold Dict.keys.
    rewrite map_map. reflexivity. }
  assert (N : NoDup (map fst files)).
  { rewrite <- K. unfold keys_file. now apply NoDup_filter. }
  unfold read_meta_data. rewrite K.
  rewrite filter_all.
  2:{ intros k I. rewrite <- K in I. apply filter_In in I as [_ P].
      destruct (String.eqb_spec k "semantic_types") as [->|]; [discriminate P | reflexivity]. }
  rewrite fetch_all; [|assumption|].
  2:{ intros kp I.
      assert (I' : In (fst kp, RJson (dump_partial (snd kp))) (file_partials db)).
      { rewrite F. now apply (in_map (fun kp => (fst kp, RJson (dump_partial (snd kp))))). }
      unfold file_partials in I'. now apply filter_In in I' as [I' _]. }
  cbn [rbind]. rewrite combine_maps.
  now rewrite (fold_keep files [] N).
Qed.

(** The aggregate has pairwise distinct semantic types. *)
Lemma sum_meta_data_keys (all_meta_data : Dict.t json) (agg : partial) :
  sum_meta_data all_meta_data = Ok agg -> Dict.wf agg.
Proof.
  unfold sum_meta_data.
  apply (fold_result_inv (fun sp : partial => Dict.wf sp)); [|constructor].
  intros sp entry sp' W. unfold add_file.
  destruct (getitem (snd entry) "source_prefixes") as [pc|e]; cbn; [|discriminate].
  destruct (items pc) as [prefix_counts|e]; cbn; [|discriminate].
  revert W. apply fold_result_inv. clear sp sp'.
  intros sp item sp' W. unfold add_type.
  destruct (items (snd item)) as [curie_counts|e]; cbn; [|discriminate].
  apply (fold_result_inv (fun sp : partial => Dict.wf sp)); [|now apply DictFacts.wf_set].
  clear sp sp' W. intros sp c sp' W. unfold add_count.
  destruct (py_add _ (snd c)) as [n|e]; cbn; [|discriminate].
  intros [= <-]. now apply DictFacts.wf_set.
Qed.

(** The last write of a pipeline that sets each key of a dict once. *)
Lemma last_set_map {V W} (g : V -> W) (d : Dict.t V) k :
  Dict.wf d ->
  last_set (map (fun kv => (fst kv, g (snd kv))) d) k = option_map g (Dict.get d k).
Proof.
  unfold Dict.wf, Dict.keys.
  induction d as [|[k' v] d IH]; intros N; simpl; [reflexivity|].
  inversion N as [|? ? Nk N']; subst. rewrite (IH N').
  destruct (String.eqb_spec k' k) as [->|Ne].
  - assert (G : Dict.get d k = None) by now apply DictFacts.get_none_notin.
    now rewrite G.
  - now destruct (Dict.get d k).
Qed.

(** The store after the writes of an aggregate: the counts under each type,
    and the types pushed in front of the list. *)
Lemma execute_stage_aggregate (db : Dict.t rvalue) (agg : partial) :
  Dict.wf agg ->
  (Dict.get db "semantic_types" = None \/
   exists l, Dict.get db "semantic_types" = Some (RList l)) ->
  exists db',
    execute_commands (stage_aggregate agg) db = (Ok tt, db') /\
    forall T,
      Dict.get db' T =
        match Dict.get agg T with
        | Some cc => Some (RJson (dump_counts cc))
        | None =>
            match agg with
            | [] => Dict.get db T
            | _ :: _ =>
                if String.eqb "semantic_types" T
                then Some (RList (rev (Dict.keys agg)
                                  ++ match Dict.get db "semantic_types" with
                                     | Some (RList l) => l
                                     | _ => []
                                     end))
                else Dict.get db T
            end
        end.
Proof.
  intros W L. unfold stage_aggregate.
  set (items := map (fun item : string * Dict.t Z =>
                       (fst item, RJson (dump_counts (snd item)))) agg).
  assert (Sets : forall db1 T,
            Dict.get (execute_sets items db1) T =
              match Dict.get agg T with
              | Some cc => Some (RJson (dump_counts cc))
              | None => Dict.get db1 T
              end).
  { intros db1 T. rewrite MergeRunFacts.get_execute_sets. unfold items.
    rewrite (last_set_map (fun cc => RJson (dump_counts cc)) T W).
    now destruct (Dict.get agg T). }
  rewrite MergeRunFacts.stage_aggregate_sets. fold items.
  destruct agg as [|item agg'] eqn:A.
  - cbn. exists db. split; reflexivity.
  - rewrite <- A in *.
    replace (Nat.ltb 0 (List.length (Dict.keys agg))) with true by now rewrite A.
    cbn [app execute_commands apply_command].
    set (old := match Dict.get db "semantic_types" with
                | Some (RList l) => l
                | _ => []
                end).
    assert (P : match Dict.get db "semantic_types" with
                | Some (RList l) => Ok (Dict.set db "semantic_types"
                                          (RList (rev (Dict.keys agg) ++ l)))
                | Some _ => Raise ResponseError
                | None => Ok (Dict.set db "semantic_types" (RList (rev (Dict.keys agg))))
                end
                = Ok (Dict.set db "semantic_types" (RList (rev (Dict.keys agg) ++ old)))).
    { unfold old. destruct L as [-> | (l & ->)]; [now rewrite app_nil_r | reflexivity]. }
    rewrite P, MergeRunFacts.execute_commands_sets.
    eexists. split; [reflexivity|].
    intros T. rewrite Sets. destruct (Dict.get agg T); [reflexivity|].
    rewrite A. rewrite <- A.
    destruct (String.eqb_spec "semantic_types" T) as [<-|Ne].
    + apply DictFacts.get_set_eq.
    + now apply DictFacts.get_set_ne.
Qed.

(** One run over a store that holds the partials [files]. *)
Lemma merge_run (E : env) (r : redis) (files : list (string * partial)) :
  redis_up E = true ->
  Dict.wf (curie_to_bl_type_db r) ->
  file_partials (curie_to_bl_type_db r)
    = map (fun kp => (fst kp, RJson (dump_partial (snd kp)))) files ->
  Forall (fun kp => partial_wf (snd kp)) files ->
  (Dict.get (curie_to_bl_type_db r) "semantic_types" = None \/
   exists l, Dict.get (curie_to_bl_type_db r) "semantic_types" = Some (RList l)) ->
  exists agg db',
    sum_meta_data (meta_data_of files) = Ok agg /\
    Dict.wf agg /\
    (forall T X, count agg T X = sumZ (map (fun kp => count (snd kp) T X) files)) /\
    (forall T, Dict.mem agg T = existsb (fun kp => Dict.mem (snd kp) T) files) /\
    execute_commands (stage_aggregate agg) (curie_to_bl_type_db r) = (Ok tt, db') /\
    merge_semantic_meta_data E false r =
      (Ok tt, mkRedis (eq_id_to_id_db r) (id_to_eqids_db r) (id_to_type_db r)
                      (info_content_db r) db').
Proof.
  intros Up W F Wf L.
  destruct (MergeFacts.sum_meta_data_wf Wf) as (agg & S & C & Ty & _).
  pose proof (sum_meta_data_keys _ S) as Wa.
  destruct (execute_stage_aggregate (curie_to_bl_type_db r) Wa L) as (db' & X & _).
  exists agg, db'. repeat split; try assumption.
  unfold merge_semantic_meta_data. rewrite Up.
  unfold bind, gets, lift, merge_pipeline.
  rewrite (@read_meta_data_of (curie_to_bl_type_db r) files W F). cbn [rbind]. rewrite S. cbn [rbind negb when].
  unfold execute_pipeline. now rewrite Up, X.
Qed.

End MergeStoreFacts.

(** A run of [merge_semantic_meta_data] over a store that holds per-file
    partials leaves, under every semantic type of the files, the prefix
    counts summed over the files; the four other databases are not
    written. *)
Theorem merge_stores_the_summed_counts (E : env) (r : redis)
  (files : list (string * partial)) :
  redis_up E = true ->
  Dict.wf (curie_to_bl_type_db r) ->
  file_partials (curie_to_bl_type_db r)
    = map (fun kp => (fst kp, RJson (dump_partial (snd kp)))) files ->
  Forall (fun kp => partial_wf (snd kp)) files ->
  (Dict.get (curie_to_bl_type_db r) "semantic_types" = None \/
   exists l, Dict.get (curie_to_bl_type_db r) "semantic_types" = Some (RList l)) ->
  exists r',
    LoadCompendium.merge_semantic_meta_data E false r = (Ok tt, r') /\
    (eq_id_to_id_db r' = eq_id_to_id_db r /\ id_to_eqids_db r' = id_to_eqids_db r /\
     id_to_type_db r' = id_to_type_db r /\ info_content_db r' = info_content_db r) /\
    forall T, existsb (fun kp => Dict.mem (snd kp) T) files = true ->
      exists cc,
        Dict.get (curie_to_bl_type_db r') T = Some (RJson (LoadCompendium.dump_counts cc)) /\
        forall X, Dict.get_default cc X 0%Z
                  = sumZ (map (fun kp => count (snd kp) T X) files).
Proof.
  intros Up W F Wf L.
  destruct (@MergeStoreFacts.merge_run E r files Up W F Wf L)
    as (agg & db' & S & Wa & C & Ty & X & Run).
  destruct (@MergeStoreFacts.execute_stage_aggregate (curie_to_bl_type_db r) agg Wa L)
    as (db'' & X' & G).
  rewrite X in X'. injection X' as <-.
  eexists. split; [exact Run|]. split; [repeat split|].
  intros T Has. cbn [curie_to_bl_type_db]. rewrite G.
  rewrite <- Ty in Has. unfold Dict.mem in Has.
  destruct (Dict.get agg T) as [cc|] eqn:A; [|discriminate].
  exists cc. split; [reflexivity|].
  intros X0. rewrite <- C. unfold count, Dict.get_default. now rewrite A.
Qed.

(** Two partials that count X under T 3 and 5 times: the store holds 8
    under T after the run. *)
Lemma merge_stores_the_summed_counts_witness :
  exists cc,
    Dict.get (curie_to_bl_type_db
                (snd (LoadCompendium.merge_semantic_meta_data example_env false
                        two_partials_redis))) "T"
      = Some (RJson (LoadCompendium.dump_counts cc)) /\
    Dict.get_default cc "X" 0%Z = 8%Z.
Proof.
  assert (W : Dict.wf (curie_to_bl_type_db two_partials_redis)).
  { repeat constructor; cbn; intuition discriminate. }
  assert (Wf : Forall (fun kp => partial_wf (snd kp)) two_partials).
  { repeat constructor; cbn; intros F; exact F. }
  destruct (@merge_stores_the_summed_counts example_env two_partials_redis two_partials
              eq_refl W eq_refl Wf (or_introl eq_refl))
    as (r' & Run & _ & Sums).
  destruct (Sums "T"%string eq_refl) as (cc & G & C).
  exists cc. rewrite Run. split; [exact G | now rewrite C].
Defined.

Module TypesListFacts.

Lemma count_occ_keys {V} (d : Dict.t V) (T : string) :
  Dict.wf d ->
  count_occ string_dec (Dict.keys d) T = if Dict.mem d T then 1%nat else 0%nat.
Proof.
  unfold Dict.wf, Dict.keys, Dict.mem.
  induction d as [|[k v] d IH]; intros N; simpl; [reflexivity|].
  inversion N as [|? ? Nk N']; subst.
  destruct (string_dec k T) as [->|Ne].
  - rewrite String.eqb_refl. f_equal. now apply count_occ_not_In.
  - destruct (String.eqb_spec k T); [contradiction | now apply IH].
Qed.

(** The list of semantic types after a run, and what the handler of the
    server makes of it. *)
Lemma merge_types_list (E : env) (r : redis) (files : list (string * partial)) :
  redis_up E = true ->
  Dict.wf (curie_to_bl_type_db r) ->
  file_partials (curie_to_bl_type_db r)
    = map (fun kp => (fst kp, RJson (dump_partial (snd kp)))) files ->
  Forall (fun kp => partial_wf (snd kp)) files ->
  (Dict.get (curie_to_bl_type_db r) "semantic_types" = None \/
   exists l, Dict.get (curie_to_bl_type_db r) "semantic_types" = Some (RList l)) ->
  existsb (fun kp => Dict.mem (snd kp) "semantic_types") files = false ->
  exists r' types,
    LoadCompendium.merge_semantic_meta_data E false r = (Ok tt, r') /\
    semantic_types_list (curie_to_bl_type_db r') = types /\
    (types <> [] -> Server.get_semantic_types_handler E r' = Ok (Server.Body types)) /\
    forall T,
      count_occ string_dec types T =
        (count_occ string_dec (semantic_types_list (curie_to_bl_type_db r)) T
         + if existsb (fun kp => Dict.mem (snd kp) T) files then 1 else 0)%nat.
Proof.
  intros Up W F Wf L NoType.
  destruct (@MergeStoreFacts.merge_run E r files Up W F Wf L)
    as (agg & db' & S & Wa & C & Ty & X & Run).
  destruct (@MergeStoreFacts.execute_stage_aggregate (curie_to_bl_type_db r) agg Wa L)
    as (db'' & X' & G).
  rewrite X in X'. injection X' as <-.
  eexists. exists (semantic_types_list db'). split; [exact Run|].
  cbn [curie_to_bl_type_db]. split; [reflexivity|].
  rewrite <- Ty in NoType. unfold Dict.mem in NoType.
  destruct (Dict.get agg "semantic_types") eqn:A; [discriminate|].
  assert (Stored : Dict.get db' "semantic_types" =
            match agg with
            | [] => Dict.get (curie_to_bl_type_db r) "semantic_types"
            | _ :: _ => Some (RList (rev (Dict.keys agg)
                                     ++ semantic_types_list (curie_to_bl_type_db r)))
            end).
  { rewrite G, A. destruct agg; [reflexivity|]. now rewrite String.eqb_refl. }
  split.
  - unfold Server.get_semantic_types_handler, lrange_all, semantic_types_list.
    rewrite Up. cbn [curie_to_bl_type_db].
    destruct (Dict.get db' "semantic_types") as [[j|t|[|x l]]|]; cbn; congruence.
  - intros T. rewrite <- Ty. unfold semantic_types_list at 1. rewrite Stored.
    destruct agg as [|item agg'] eqn:Agg.
    + cbn. fold (semantic_types_list (curie_to_bl_type_db r)). lia.
    + rewrite <- Agg in *.
      rewrite count_occ_app, count_occ_rev, (count_occ_keys T Wa). lia.
Qed.

End TypesListFacts.

(** Every run of [merge_semantic_meta_data] pushes each semantic type of the
    files onto the list of semantic types, whatever the list holds already:
    the type occurs once more after the run than before it. *)
Theorem merge_pushes_each_type_once_more (E : env) (r : redis)
  (files : list (string * partial)) :
  redis_up E = true ->
  Dict.wf (curie_to_bl_type_db r) ->
  file_partials (curie_to_bl_type_db r)
    = map (fun kp => (fst kp, RJson (dump_partial (snd kp)))) files ->
  Forall (fun kp => partial_wf (snd kp)) files ->
  (Dict.get (curie_to_bl_type_db r) "semantic_types" = None \/
   exists l, Dict.get (curie_to_bl_type_db r) "semantic_types" = Some (RList l)) ->
  existsb (fun kp => Dict.mem (snd kp) "semantic_types") files = false ->
  exists r',
    LoadCompendium.merge_semantic_meta_data E false r = (Ok tt, r') /\
    forall T,
      count_occ string_dec (semantic_types_list (curie_to_bl_type_db r')) T =
        (count_occ string_dec (semantic_types_list (curie_to_bl_type_db r)) T
         + if existsb (fun kp => Dict.mem (snd kp) T) files then 1 else 0)%nat.
Proof.
  intros Up W F Wf L NoType.
  destruct (@TypesListFacts.merge_types_list E r files Up W F Wf L NoType)
    as (r' & types & Run & <- & _ & Once).
  exists r'. split; assumption.
Qed.

(** [get_semantic_types_handler] after a run of [merge_semantic_meta_data]:
    the body holds the list as the store has it, so a semantic type of the
    files that was in the list before the run is served twice. *)
Theorem served_types_repeat_after_a_merge (E : env) (r : redis)
  (files : list (string * partial)) (T : string) :
  redis_up E = true ->
  Dict.wf (curie_to_bl_type_db r) ->
  file_partials (curie_to_bl_type_db r)
    = map (fun kp => (fst kp, RJson (dump_partial (snd kp)))) files ->
  Forall (fun kp => partial_wf (snd kp)) files ->
  (Dict.get (curie_to_bl_type_db r) "semantic_types" = None \/
   exists l, Dict.get (curie_to_bl_type_db r) "semantic_types" = Some (RList l)) ->
  existsb (fun kp => Dict.mem (snd kp) "semantic_types") files = false ->
  existsb (fun kp => Dict.mem (snd kp) T) files = true ->
  exists r' types,
    LoadCompendium.merge_semantic_meta_data E false r = (Ok tt, r') /\
    Server.get_semantic_types_handler E r' = Ok (Server.Body types) /\
    count_occ string_dec types T =
      S (count_occ string_dec (semantic_types_list (curie_to_bl_type_db r)) T).
Proof.
  intros Up W F Wf L NoType Has.
  destruct (@TypesListFacts.merge_types_list E r files Up W F Wf L NoType)
    as (r' & types & Run & List & Served & Once).
  exists r', types. split; [exact Run|].
  pose proof (Once T) as OnceT. rewrite Has in OnceT.
  split; [|lia].
  apply Served. intros ->. simpl in OnceT. lia.
Qed.

(** The list holds T, and the two partials count under T: the handler
    serves T twice after the run. *)
Lemma served_types_repeat_after_a_merge_witness :
  let r := mkRedis [] [] [] []
             (two_partials_db ++ [("semantic_types"%string, RList ["T"%string])]) in
  exists types,
    Server.get_semantic_types_handler example_env
      (snd (LoadCompendium.merge_semantic_meta_data example_env false r))
    = Ok (Server.Body types) /\
    count_occ string_dec types "T"%string = 2%nat.
Proof.
  cbv zeta.
  assert (W : Dict.wf (two_partials_db ++ [("semantic_types"%string, RList ["T"%string])])).
  { repeat constructor; cbn; intuition discriminate. }
  assert (Wf : Forall (fun kp => partial_wf (snd kp)) two_partials).
  { repeat constructor; cbn; intros F; exact F. }
  destruct (@served_types_repeat_after_a_merge example_env
              (mkRedis [] [] [] []
                 (two_partials_db ++ [("semantic_types"%string, RList ["T"%string])]))
              two_partials "T" eq_refl W eq_refl Wf
              (or_intror (ex_intro _ ["T"%string] eq_refl)) eq_refl eq_refl)
    as (r' & types & Run & Served & Count).
  exists types. rewrite Run. split; [exact Served | exact Count].
Defined.

(** After one run over the two partials the list holds T once, after a
    second run twice. *)
Lemma merge_pushes_each_type_once_more_witness :
  let r1 := snd (LoadCompendium.merge_semantic_meta_data example_env false
                   two_partials_redis) in
  let r2 := snd (LoadCompendium.merge_semantic_meta_data example_env false r1) in
  count_occ string_dec (semantic_types_list (curie_to_bl_type_db r1)) "T"%string = 1%nat /\
  semantic_types_list (curie_to_bl_type_db r2) = ["T"; "T"]%string.
Proof.
  cbv zeta. split; [|reflexivity].
  assert (W : Dict.wf (curie_to_bl_type_db two_partials_redis)).
  { repeat constructor; cbn; intuition discriminate. }
  assert (Wf : Forall (fun kp => partial_wf (snd kp)) two_partials).
  { repeat constructor; cbn; intros F; exact F. }
  destruct (@merge_pushes_each_type_once_more example_env two_partials_redis two_partials
              eq_refl W eq_refl Wf (or_introl eq_refl) eq_refl)
    as (r' & Run & Once).
  rewrite Run. cbn [snd]. now rewrite Once.
Defined.

(** The run over the two partials writes to the keys semantic_types and T,
    and the partials are read back as they were. *)
Lemma merge_keeps_the_partials_witness :
  file_partials
    (curie_to_bl_type_db
       (snd (LoadCompendium.merge_semantic_meta_data example_env false two_partials_redis)))
  = file_partials two_partials_db.
Proof.
  apply (@merge_keeps_the_partials example_env false two_partials_redis _ eq_refl).
  repeat constructor.
Defined.

(* ================================================================= *)
(** * loader.py: what one line adds to the statistics *)

Module ScalarFacts.

Lemma scalar_eqb_key a b : scalar_eqb a b = true <-> as_key a = as_key b.
Proof.
  destruct a as [x|x|[]|], b as [y|y|[]|]; cbn [scalar_eqb as_key]; split; intros H;
    try discriminate; try reflexivity;
    try (apply String.eqb_eq in H; now subst);
    try (apply Z.eqb_eq in H; now subst);
    inversion H; subst; first [apply String.eqb_refl | apply Z.eqb_refl].
Qed.

Lemma scalar_eqb_refl a : scalar_eqb a a = true.
Proof. now apply scalar_eqb_key. Qed.

Lemma scalar_eqb_sym a b : scalar_eqb a b = scalar_eqb b a.
Proof.
  destruct (scalar_eqb a b) eqn:H, (scalar_eqb b a) eqn:H'; try reflexivity.
  - apply scalar_eqb_key in H. symmetry in H. apply scalar_eqb_key in H. congruence.
  - apply scalar_eqb_key in H'. symmetry in H'. apply scalar_eqb_key in H'. congruence.
Qed.

(** Equal keys are equal to the same keys. *)
Lemma scalar_eqb_congr a b c : scalar_eqb a b = true -> scalar_eqb a c = scalar_eqb b c.
Proof.
  intros H. apply scalar_eqb_key in H.
  destruct (scalar_eqb a c) eqn:A, (scalar_eqb b c) eqn:B; try reflexivity.
  - apply scalar_eqb_key in A. rewrite H in A. apply scalar_eqb_key in A. congruence.
  - apply scalar_eqb_key in B. rewrite <- H in B. apply scalar_eqb_key in B. congruence.
Qed.


Lemma get_set {V} (d : SDict.t V) k v k' :
  SDict.get (SDict.set d k v) k' = if scalar_eqb k k' then Some v else SDict.get d k'.
Proof.
  induction d as [|[k0 v0] d IH]; cbn; [reflexivity|].
  destruct (scalar_eqb k0 k) eqn:E; cbn.
  - rewrite (scalar_eqb_congr k0 k k' E). now destruct (scalar_eqb k k').
  - rewrite IH. destruct (scalar_eqb k0 k') eqn:E'; [|reflexivity].
    destruct (scalar_eqb k k') eqn:E''; [|reflexivity].
    pose proof (scalar_eqb_congr k0 k' k E') as Q.
    rewrite E, (scalar_eqb_sym k' k), E'' in Q. discriminate Q.
Qed.

Lemma mem_key {V} (d : SDict.t V) k :
  SDict.mem d k = true <-> In (as_key k) (map as_key (SDict.keys d)).
Proof.
  unfold SDict.mem, SDict.keys. induction d as [|[k0 v0] d IH]; cbn.
  - split; [discriminate | intros []].
  - destruct (scalar_eqb k0 k) eqn:E.
    + split; [|reflexivity]. intros _. left. now apply scalar_eqb_key.
    + rewrite IH. split; [now right|]. intros [H|H]; [|exact H].
      apply scalar_eqb_key in H. congruence.
Qed.

Lemma keys_set {V} (d : SDict.t V) k v :
  SDict.keys (SDict.set d k v) = if SDict.mem d k then SDict.keys d else SDict.keys d ++ [k].
Proof.
  unfold SDict.mem, SDict.keys. induction d as [|[k0 v0] d IH]; cbn; [reflexivity|].
  destruct (scalar_eqb k0 k); cbn; [reflexivity|].
  rewrite IH. now destruct (SDict.get d k).
Qed.


Lemma type_count_set sp T v T' X :
  type_count (SDict.set sp T v) T' X =
    if scalar_eqb T T' then Dict.get_default v X 0%Z else type_count sp T' X.
Proof.
  unfold type_count, SDict.get_default. rewrite get_set.
  now destruct (scalar_eqb T T').
Qed.

End ScalarFacts.

Module LegacyCountFacts.

Import MonadFacts.

Lemma legacy_count_prefix_counts semantic_type source_prefix s u s' :
  NodeLoader.count_prefix semantic_type source_prefix s = (Ok u, s') ->
  NodeLoader.semantic_types s' = NodeLoader.semantic_types s /\
  forall T X,
    type_count (NodeLoader.source_prefixes s') T X =
      (type_count (NodeLoader.source_prefixes s) T X
       + (if scalar_eqb semantic_type T
          then if String.eqb source_prefix X then 1 else 0
          else 0))%Z.
Proof.
  unfold NodeLoader.count_prefix. intros H. unbind H as sp s0 G.
  apply gets_ok in G as [-> ->].
  assert (Step : forall n T X,
            Dict.get_default
              (SDict.get_default (NodeLoader.source_prefixes s) semantic_type [])
              source_prefix 0%Z = (n - 1)%Z ->
            type_count (SDict.set (NodeLoader.source_prefixes s) semantic_type
                          (Dict.set
                             (SDict.get_default (NodeLoader.source_prefixes s)
                                semantic_type [])
                             source_prefix n)) T X =
            (type_count (NodeLoader.source_prefixes s) T X
             + (if scalar_eqb semantic_type T
                then if String.eqb source_prefix X then 1 else 0
                else 0))%Z).
  { intros n T X Hn. rewrite ScalarFacts.type_count_set.
    destruct (scalar_eqb semantic_type T) eqn:ET; [|lia].
    assert (Same : SDict.get_default (NodeLoader.source_prefixes s) semantic_type []
                   = SDict.get_default (NodeLoader.source_prefixes s) T []).
    { unfold SDict.get_default.
      clear - ET. induction (NodeLoader.source_prefixes s) as [|[k0 v0] d IH]; cbn;
        [reflexivity|].
      rewrite (ScalarFacts.scalar_eqb_sym k0 semantic_type),
        (ScalarFacts.scalar_eqb_congr semantic_type T k0 ET),
        (ScalarFacts.scalar_eqb_sym T k0).
      destruct (scalar_eqb k0 T); [reflexivity | exact IH]. }
    unfold type_count. rewrite <- Same.
    destruct (String.eqb_spec source_prefix X) as [<-|NX].
    - rewrite DictFacts.get_default_set_eq. lia.
    - rewrite DictFacts.get_default_set_ne by assumption. lia. }
  destruct (Dict.get _ source_prefix) as [n|] eqn:Gn;
    apply modify_ok in H; subst s'; (split; [reflexivity|]); intros T X;
    cbn [NodeLoader.source_prefixes NodeLoader.set_source_prefixes]; apply Step;
    unfold Dict.get_default at 1; rewrite Gn; lia.
Qed.

Lemma legacy_stage_member_counts identifier semantic_type m s s' :
  NodeLoader.stage_member identifier semantic_type m s = (Ok tt, s') ->
  exists eid,
    member_id "identifier" m = Ok eid /\
    NodeLoader.semantic_types s' = NodeLoader.semantic_types s /\
    forall T X,
      type_count (NodeLoader.source_prefixes s') T X =
        (type_count (NodeLoader.source_prefixes s) T X
         + (if scalar_eqb semantic_type T
            then if String.eqb (split_colon_0 eid) X then 1 else 0
            else 0))%Z.
Proof.
  unfold NodeLoader.stage_member. intros H.
  unbind H as source_prefix s1 Sp. apply lift_ok in Sp as [Sp ->].
  unbind H as u s2 Cp. apply legacy_count_prefix_counts in Cp as [St C].
  unbind H as eid s3 Gi. apply lift_ok in Gi as [Gi ->].
  unbind H as p1 s4 G1. apply gets_ok in G1 as [-> ->].
  unbind H as u1 s5 M1. apply modify_ok in M1. subst s5.
  unbind H as p2 s6 G2. apply gets_ok in G2 as [-> ->].
  apply modify_ok in H. subst s'.
  cbn [NodeLoader.source_prefixes NodeLoader.semantic_types
       NodeLoader.set_term2id_pipeline].
  exists eid. split; [exact Gi|]. split; [exact St|].
  destruct (getitem m "identifier") as [i|e]; [|discriminate Gi].
  cbn in Gi, Sp. destruct i; try discriminate Gi.
  injection Gi as <-. injection Sp as <-. exact C.
Qed.

Lemma legacy_stage_members_counts identifier semantic_type members : forall s s',
  for_each members (NodeLoader.stage_member identifier semantic_type) s = (Ok tt, s') ->
  exists eids,
    map_result (member_id "identifier") members = Ok eids /\
    NodeLoader.semantic_types s' = NodeLoader.semantic_types s /\
    forall T X,
      type_count (NodeLoader.source_prefixes s') T X =
        (type_count (NodeLoader.source_prefixes s) T X
         + (if scalar_eqb semantic_type T then members_with_prefix eids X else 0))%Z.
Proof.
  induction members as [|m members IH]; intros s s' H; cbn [for_each] in H.
  - injection H as <-. exists []. split; [reflexivity|]. split; [reflexivity|].
    intros T X. cbn. destruct (scalar_eqb semantic_type T); lia.
  - unbind H as u s1 Hm. destruct u.
    apply legacy_stage_member_counts in Hm as (eid & Hid & St & C).
    apply IH in H as (eids & Hids & Sts & Cs).
    exists (eid :: eids). split; [|split].
    + cbn. rewrite Hid. cbn. now rewrite Hids.
    + now rewrite Sts.
    + intros T X. rewrite Cs, C. cbn [members_with_prefix].
      destruct (scalar_eqb semantic_type T); lia.
Qed.

Lemma set_add_in x xs : NodeLoader.in_set x (NodeLoader.set_add x xs) = true.
Proof.
  unfold NodeLoader.set_add. destruct (NodeLoader.in_set x xs) eqn:I; [exact I|].
  unfold NodeLoader.in_set. rewrite existsb_app. cbn.
  now rewrite ScalarFacts.scalar_eqb_refl, orb_true_r.
Qed.

Lemma set_add_keeps x y xs :
  NodeLoader.in_set y xs = true -> NodeLoader.in_set y (NodeLoader.set_add x xs) = true.
Proof.
  unfold NodeLoader.set_add. destruct (NodeLoader.in_set x xs); [trivial|].
  unfold NodeLoader.in_set. rewrite existsb_app. intros ->. reflexivity.
Qed.

Lemma stage_type_counts l instance identifier semantic_type s s' :
  NodeLoader.stage_type l instance identifier semantic_type s = (Ok tt, s') ->
  exists t members eids,
    hashable semantic_type = Ok t /\
    rbind (getitem instance "equivalent_identifiers") iterate = Ok members /\
    map_result (member_id "identifier") members = Ok eids /\
    NodeLoader.in_set t (NodeLoader.semantic_types s') = true /\
    (forall y, NodeLoader.in_set y (NodeLoader.semantic_types s) = true ->
               NodeLoader.in_set y (NodeLoader.semantic_types s') = true) /\
    forall T X,
      type_count (NodeLoader.source_prefixes s') T X =
        (type_count (NodeLoader.source_prefixes s) T X
         + (if scalar_eqb t T then members_with_prefix eids X else 0))%Z.
Proof.
  unfold NodeLoader.stage_type. intros H.
  unbind H as t s1 Ht. apply lift_ok in Ht as [Ht ->].
  unbind H as u1 s2 M1. apply modify_ok in M1. subst s2.
  unbind H as sp s3 G. apply gets_ok in G as [-> ->].
  unbind H as u2 s4 W.
  assert (C0 : NodeLoader.semantic_types s4
               = NodeLoader.set_add t (NodeLoader.semantic_types s) /\
               forall T X, type_count (NodeLoader.source_prefixes s4) T X
                           = type_count (NodeLoader.source_prefixes s) T X).
  { unfold when in W.
    cbn [NodeLoader.source_prefixes NodeLoader.set_semantic_types] in W.
    destruct (SDict.mem (NodeLoader.source_prefixes s) t) eqn:Mem; cbn [negb] in W.
    - injection W as _ <-. now split.
    - apply modify_ok in W. subst s4. split; [reflexivity|].
      intros T X. cbn [NodeLoader.source_prefixes NodeLoader.set_source_prefixes
                       NodeLoader.set_semantic_types].
      rewrite ScalarFacts.type_count_set.
      destruct (scalar_eqb t T) eqn:ET; [|reflexivity].
      unfold type_count, SDict.get_default.
      assert (G : SDict.get (NodeLoader.source_prefixes s) T = None).
      { unfold SDict.mem in Mem. clear - Mem ET.
        induction (NodeLoader.source_prefixes s) as [|[k0 v0] d IH]; cbn in *;
          [reflexivity|].
        rewrite (ScalarFacts.scalar_eqb_sym k0 T),
          <- (ScalarFacts.scalar_eqb_congr t T k0 ET),
          (ScalarFacts.scalar_eqb_sym t k0).
        destruct (scalar_eqb k0 t); [discriminate Mem | now apply IH]. }
      now rewrite G. }
  destruct C0 as [St0 C0].
  unbind H as members s5 Gm. apply lift_ok in Gm as [Gm ->].
  unbind H as u3 s6 L. destruct u3.
  apply legacy_stage_members_counts in L as (eids & Hids & Sts & Cs).
  unbind H as p s7 Gp. apply gets_ok in Gp as [-> ->].
  apply modify_ok in H. subst s'.
  cbn [NodeLoader.source_prefixes NodeLoader.semantic_types
       NodeLoader.set_id2instance_pipeline].
  exists t, members, eids. repeat split; try assumption.
  - rewrite Sts, St0. apply set_add_in.
  - intros y Iy. rewrite Sts, St0. now apply set_add_keeps.
  - intros T X. now rewrite Cs, C0.
Qed.

Lemma stage_types_counts l instance identifier members eids
  (Hm : rbind (getitem instance "equivalent_identifiers") iterate = Ok members)
  (He : map_result (member_id "identifier") members = Ok eids)
  (types : list json) : forall s s',
  for_each types (NodeLoader.stage_type l instance identifier) s = (Ok tt, s') ->
  exists tys,
    map_result hashable types = Ok tys /\
    (forall T, In T tys -> NodeLoader.in_set T (NodeLoader.semantic_types s') = true) /\
    (forall y, NodeLoader.in_set y (NodeLoader.semantic_types s) = true ->
               NodeLoader.in_set y (NodeLoader.semantic_types s') = true) /\
    forall T X,
      type_count (NodeLoader.source_prefixes s') T X =
        (type_count (NodeLoader.source_prefixes s) T X
         + occurrences T tys * members_with_prefix eids X)%Z.
Proof.
  induction types as [|ty types IH]; intros s s' H; cbn [for_each] in H.
  - injection H as <-. exists []. split; [reflexivity|]. split; [intros T []|].
    split; [trivial|]. intros T X. cbn. lia.
  - unbind H as u s1 Ht. destruct u.
    apply stage_type_counts in Ht as (t & members' & eids' & Hs & Hm' & He' & I & Inc & C).
    rewrite Hm in Hm'. injection Hm' as <-.
    rewrite He in He'. injection He' as <-.
    apply IH in H as (tys & Htys & Is & Incs & Cs).
    exists (t :: tys). split; [|split; [|split]].
    + cbn. rewrite Hs. cbn. now rewrite Htys.
    + intros T [<-|IT]; [now apply Incs | now apply Is].
    + intros y Iy. now apply Incs, Inc.
    + intros T X. rewrite Cs, C. unfold occurrences. cbn [filter].
      rewrite (ScalarFacts.scalar_eqb_sym T t).
      destruct (scalar_eqb t T); cbn [List.length]; lia.
Qed.

End LegacyCountFacts.

(** One line that [NodeLoader.load_compendium] processes to its end adds,
    for every type of the record and every member, one to the count of the
    member's prefix under that type (a type listed twice counts twice), and
    every type of the record is in [semantic_types] afterwards.  A type is
    any hashable value, and two types are the same when they are equal. *)
Theorem legacy_line_counts_each_member_under_each_type (C : NodeLoader.config) (E : env)
  (block_size : Z) (l : line) (s s' : NodeLoader.state) :
  NodeLoader.process_line C E block_size l s = (Ok tt, s') ->
  exists instance types tys,
    json_loads l = Ok instance /\
    rbind (getitem instance "type") iterate = Ok types /\
    map_result hashable types = Ok tys /\
    (forall T, In T tys -> NodeLoader.in_set T (NodeLoader.semantic_types s') = true) /\
    forall members eids,
      rbind (getitem instance "equivalent_identifiers") iterate = Ok members ->
      map_result (member_id "identifier") members = Ok eids ->
      forall T X,
        type_count (NodeLoader.source_prefixes s') T X =
          (type_count (NodeLoader.source_prefixes s) T X
           + occurrences T tys * members_with_prefix eids X)%Z.
Proof.
  unfold NodeLoader.process_line. intros H.
  unbind H as u0 s0 M0. apply MonadFacts.modify_ok in M0. subst s0.
  unbind H as instance s1 J. apply MonadFacts.lift_ok in J as [J ->].
  unbind H as identifier s2 I. apply MonadFacts.lift_ok in I as [I ->].
  unbind H as types s3 T. apply MonadFacts.lift_ok in T as [T ->].
  unbind H as u1 s4 L. destruct u1.
  assert (Same : NodeLoader.semantic_types s' = NodeLoader.semantic_types s4 /\
                 NodeLoader.source_prefixes s' = NodeLoader.source_prefixes s4).
  { unfold when in H. destruct (negb _); [|now injection H as <-].
    unbind H as n s5 G. apply MonadFacts.gets_ok in G as [-> ->].
    unbind H as r s6 P. apply MonadFacts.lift_ok in P as [_ ->].
    destruct (Z.eqb r 0); [|now injection H as <-].
    unfold NodeLoader.submit in H. destruct (redis_up E); [|discriminate].
    apply MonadFacts.modify_ok in H. now subst. }
  destruct Same as [St Sp].
  assert (Tys : exists tys, map_result hashable types = Ok tys /\
                  (forall T, In T tys ->
                     NodeLoader.in_set T (NodeLoader.semantic_types s4) = true)).
  { destruct types as [|ty types'].
    - exists []. split; [reflexivity | intros T0 []].
    - pose proof L as L0. cbn [for_each] in L0.
      unbind L0 as u s5 Ht. destruct u.
      apply LegacyCountFacts.stage_type_counts in Ht
        as (t & members & eids & _ & Hm & He & _).
      destruct (@LegacyCountFacts.stage_types_counts l instance identifier members eids
                  Hm He (ty :: types') _ _ L) as (tys & Htys & Is & _).
      exists tys. split; [exact Htys | exact Is]. }
  destruct Tys as (tys & Htys & Is).
  exists instance, types, tys. repeat split; try assumption.
  - intros T0 I0. rewrite St. now apply Is.
  - intros members eids Hm He T0 X. rewrite Sp.
    destruct (@LegacyCountFacts.stage_types_counts l instance identifier members eids
                Hm He types _ _ L) as (tys' & Htys' & _ & _ & Cs).
    rewrite Htys in Htys'. injection Htys' as <-.
    rewrite Cs. reflexivity.
Qed.

(** A record that lists the type gene twice, with one NCBIGene member and
    one HGNC member: NCBIGene is counted twice under gene.  A record whose
    types are the int 1 and [True], which are equal: one member is counted
    twice under 1. *)
Lemma legacy_line_counts_each_member_under_each_type_witness :
  let s' := snd (NodeLoader.process_line example_config example_env 1000
                   (Encoded gene_record_twice) fresh_state) in
  let n' := snd (NodeLoader.process_line example_config example_env 1000
                   (Encoded numbered_record) fresh_state) in
  type_count (NodeLoader.source_prefixes s') (SStr "gene") "NCBIGene" = 2%Z /\
  NodeLoader.in_set (SStr "gene") (NodeLoader.semantic_types s') = true /\
  type_count (NodeLoader.source_prefixes n') (SNum 1) "NCBIGene" = 2%Z.
Proof.
  cbv zeta.
  assert (Run : NodeLoader.process_line example_config example_env 1000
                  (Encoded gene_record_twice) fresh_state
                = (Ok tt, snd (NodeLoader.process_line example_config example_env 1000
                                 (Encoded gene_record_twice) fresh_state)))
    by (vm_compute; reflexivity).
  assert (Run1 : NodeLoader.process_line example_config example_env 1000
                   (Encoded numbered_record) fresh_state
                 = (Ok tt, snd (NodeLoader.process_line example_config example_env 1000
                                  (Encoded numbered_record) fresh_state)))
    by (vm_compute; reflexivity).
  destruct (legacy_line_counts_each_member_under_each_type _ _ _ _ _ Run)
    as (instance & types & tys & J & T & Tys & Is & Cs).
  destruct (legacy_line_counts_each_member_under_each_type _ _ _ _ _ Run1)
    as (instance1 & types1 & tys1 & J1 & T1 & Tys1 & _ & Cs1).
  vm_compute in J. injection J as <-.
  vm_compute in T. injection T as <-.
  vm_compute in Tys. injection Tys as <-.
  vm_compute in J1. injection J1 as <-.
  vm_compute in T1. injection T1 as <-.
  vm_compute in Tys1. injection Tys1 as <-.
  split; [|split].
  - rewrite (Cs [JDict [("identifier"%string, JStr "NCBIGene:1017")];
                 JDict [("identifier"%string, JStr "HGNC:1771")]]
                ["NCBIGene:1017"; "HGNC:1771"]%string eq_refl eq_refl
                (SStr "gene") "NCBIGene"%string).
    vm_compute. reflexivity.
  - apply Is. now left.
  - rewrite (Cs1 [JDict [("identifier"%string, JStr "NCBIGene:1017")]]
                 ["NCBIGene:1017"%string] eq_refl eq_refl
                 (SNum 1) "NCBIGene"%string).
    vm_compute. reflexivity.
Defined.

(* ================================================================= *)
(** * loader.py: test mode, and files that cannot be opened *)

Module TestModeFacts.

Lemma sn_ret {A} (a : A) : submits_nothing (ret a).
Proof. intros s. reflexivity. Qed.

Lemma sn_raise {A} (e : exn) : submits_nothing (@raise NodeLoader.state A e).
Proof. intros s. reflexivity. Qed.

Lemma sn_lift {A} (r : result A) : submits_nothing (lift r).
Proof. intros s. reflexivity. Qed.

Lemma sn_gets {A} (f : NodeLoader.state -> A) : submits_nothing (gets f).
Proof. intros s. reflexivity. Qed.

Lemma sn_modify (f : NodeLoader.state -> NodeLoader.state) :
  (forall s, NodeLoader.submitted (f s) = NodeLoader.submitted s) ->
  submits_nothing (modify f).
Proof. intros H s. apply H. Qed.

Lemma sn_bind {A B} (m : M NodeLoader.state A) (k : A -> M NodeLoader.state B) :
  submits_nothing m -> (forall a, submits_nothing (k a)) -> submits_nothing (bind m k).
Proof.
  intros Hm Hk s. unfold bind. specialize (Hm s).
  destruct (m s) as [[a|e] s1]; cbn in Hm |- *; [|exact Hm].
  now rewrite Hk.
Qed.

Lemma sn_try_except {A} (m : M NodeLoader.state A) (h : exn -> M NodeLoader.state A) :
  submits_nothing m -> (forall e, submits_nothing (h e)) -> submits_nothing (try_except m h).
Proof.
  intros Hm Hh s. unfold try_except. specialize (Hm s).
  destruct (m s) as [[a|e] s1]; cbn in Hm |- *; [exact Hm|].
  now rewrite Hh.
Qed.

Lemma sn_when (c : bool) (m : M NodeLoader.state unit) :
  (c = true -> submits_nothing m) -> submits_nothing (when c m).
Proof. destruct c; intros H; [now apply H | apply sn_ret]. Qed.

Lemma sn_for_each {X} (xs : list X) (body : X -> M NodeLoader.state unit) :
  (forall x, submits_nothing (body x)) -> submits_nothing (for_each xs body).
Proof.
  intros H. induction xs as [|x xs IH]; cbn [for_each]; [apply sn_ret|].
  apply sn_bind; [apply H | intros _; exact IH].
Qed.

(** Goes through a sequence of steps, leaving those that need a reason. *)
Ltac submits :=
  repeat lazymatch goal with
    | |- submits_nothing (bind _ _) => apply sn_bind; [|intros ?]
    | |- submits_nothing (for_each _ _) => apply sn_for_each; intros ?
    | |- submits_nothing (modify _) => apply sn_modify; intros ?; reflexivity
    | |- submits_nothing (ret _) => apply sn_ret
    | |- submits_nothing (raise _) => apply sn_raise
    | |- submits_nothing (lift _) => apply sn_lift
    | |- submits_nothing (gets _) => apply sn_gets
    end.

Lemma sn_count_prefix semantic_type source_prefix :
  submits_nothing (NodeLoader.count_prefix semantic_type source_prefix).
Proof.
  unfold NodeLoader.count_prefix. submits.
  destruct (Dict.get _ source_prefix); submits.
Qed.

Lemma sn_stage_member identifier semantic_type m :
  submits_nothing (NodeLoader.stage_member identifier semantic_type m).
Proof. unfold NodeLoader.stage_member. submits. apply sn_count_prefix. Qed.

Lemma sn_stage_type l instance identifier semantic_type :
  submits_nothing (NodeLoader.stage_type l instance identifier semantic_type).
Proof.
  unfold NodeLoader.stage_type. submits.
  - apply sn_when. intros _. submits.
  - apply sn_stage_member.
Qed.

(** In test mode a line is staged and nothing is submitted. *)
Lemma sn_process_line C E block_size l :
  NodeLoader.test_mode C = 1%Z ->
  submits_nothing (NodeLoader.process_line C E block_size l).
Proof.
  intros Test. unfold NodeLoader.process_line. rewrite Test. submits.
  - apply sn_stage_type.
  - apply sn_when. discriminate.
Qed.

Lemma sn_load_compendium C E compendium_filename block_size :
  NodeLoader.test_mode C = 1%Z ->
  submits_nothing (NodeLoader.load_compendium C E compendium_filename block_size).
Proof.
  intros Test. unfold NodeLoader.load_compendium. submits.
  apply sn_try_except; [|intros e; apply sn_ret].
  submits.
  - destruct (redis_up E); submits.
  - destruct (files E compendium_filename) as [compendium|]; submits.
    + now apply sn_process_line.
    + rewrite Test. apply sn_when. discriminate.
Qed.

(** [load_compendium] returns a boolean on every input. *)
Lemma load_compendium_returns C E compendium_filename block_size s :
  exists loaded s',
    NodeLoader.load_compendium C E compendium_filename block_size s = (Ok loaded, s').
Proof.
  unfold NodeLoader.load_compendium, bind, modify, try_except, ret.
  match goal with |- context [match ?body with _ => _ end] => destruct body as [[[]|e] s1] end;
    eexists; eexists; reflexivity.
Qed.

End TestModeFacts.

(** In test mode [NodeLoader.load_compendium] hands no batch to the store,
    whatever the file holds and however the call ends, and neither does the
    loop of [load] over the files. *)
Theorem test_mode_submits_nothing (C : NodeLoader.config) (E : env)
  (compendia : list string) (compendium_filename : string) (block_size : Z)
  (s : NodeLoader.state) :
  NodeLoader.test_mode C = 1%Z ->
  (exists loaded s',
     NodeLoader.load_compendium C E compendium_filename block_size s = (Ok loaded, s') /\
     NodeLoader.submitted s' = NodeLoader.submitted s) /\
  NodeLoader.submitted (snd (NodeLoader.load_files C E compendia block_size s))
    = NodeLoader.submitted s.
Proof.
  intros Test. split.
  - destruct (TestModeFacts.load_compendium_returns C E compendium_filename block_size s)
      as (loaded & s' & R).
    exists loaded, s'. split; [exact R|].
    pose proof (@TestModeFacts.sn_load_compendium C E compendium_filename block_size
                  Test s) as K.
    now rewrite R in K.
  - unfold NodeLoader.load_files.
    apply TestModeFacts.sn_for_each. intros comp.
    apply TestModeFacts.sn_bind; [apply TestModeFacts.sn_lift|].
    intros [|]; [|apply TestModeFacts.sn_ret].
    apply TestModeFacts.sn_bind; [|intros _; apply TestModeFacts.sn_ret].
    now apply TestModeFacts.sn_load_compendium.
Qed.

(** A loader in test mode on the file of one gene: the file loads, the
    term is staged, and nothing is submitted. *)
Lemma test_mode_submits_nothing_witness :
  let C := NodeLoader.mkConfig 1 (NodeLoader.validate_with example_config) in
  let run := NodeLoader.load_compendium C example_env "genes_legacy.txt" 1000 fresh_state in
  fst run = Ok true /\
  NodeLoader.submitted (snd run) = [] /\
  NodeLoader.term2id_pipeline (snd run) <> [].
Proof.
  cbv zeta.
  destruct (@test_mode_submits_nothing
              (NodeLoader.mkConfig 1 (NodeLoader.validate_with example_config))
              example_env [] "genes_legacy.txt" 1000 fresh_state eq_refl)
    as [(loaded & s' & R & K) _].
  rewrite R. cbn [fst snd]. split; [|split].
  - vm_compute in R. now injection R as <- _.
  - exact K.
  - vm_compute in R. injection R as _ <-. discriminate.
Defined.

(** A file that cannot be opened: [load_compendium] on its own reports
    [False], but the loop of [load] validates the file first, with [open]
    outside the [try], so the loop raises OSError there and the files after
    it are not reached. *)
Theorem a_missing_file_stops_the_legacy_load (C : NodeLoader.config) (E : env)
  (before : list string) (comp : string) (rest : list string) (block_size : Z)
  (s : NodeLoader.state) :
  Forall (fun c => files E c <> None) before ->
  files E comp = None ->
  fst (NodeLoader.load_compendium C E comp block_size s) = Ok false /\
  fst (NodeLoader.load_files C E (before ++ comp :: rest) block_size s) = Raise OSError.
Proof.
  intros Exist Missing. split.
  - unfold NodeLoader.load_compendium, bind, modify, try_except, ret, raise.
    rewrite Missing. now destruct (redis_up E).
  - revert s. unfold NodeLoader.load_files.
    induction Exist as [|c before Hc Exist IH]; intros s; cbn [app for_each].
    + unfold bind at 1. unfold bind at 1. unfold lift, NodeLoader.validate_compendia.
      now rewrite Missing.
    + unfold bind at 1. unfold bind at 1. unfold lift, NodeLoader.validate_compendia.
      destruct (files E c) as [compendium|]; [|now destruct Hc].
      destruct (NodeLoader.validate_lines C (NodeLoader.islice compendium 5)).
      * unfold bind at 1.
        destruct (TestModeFacts.load_compendium_returns C E c block_size s)
          as (loaded & s' & ->).
        cbn [ret]. apply IH.
      * cbn [ret]. apply IH.
Qed.

(** The file of one gene, then a file that does not exist. *)
Lemma a_missing_file_stops_the_legacy_load_witness :
  fst (NodeLoader.load_compendium example_config example_env "missing.txt" 1000 fresh_state)
    = Ok false /\
  fst (NodeLoader.load_files example_config example_env
         ["genes_legacy.txt"; "missing.txt"; "genes_legacy.txt"]%string 1000 fresh_state)
    = Raise OSError.
Proof.
  apply (@a_missing_file_stops_the_legacy_load example_config example_env
           ["genes_legacy.txt"%string] "missing.txt" ["genes_legacy.txt"%string]
           1000 fresh_state).
  - repeat constructor. discriminate.
  - reflexivity.
Defined.

(* ================================================================= *)
(** * loader.py: the statistics [load] writes *)

Module InvariantFacts.

Section Invariant.

Variable P : NodeLoader.state -> Prop.

Lemma pr_ret {A} (a : A) : preserves P (ret a).
Proof. intros s H. exact H. Qed.

Lemma pr_raise {A} (e : exn) : preserves P (@raise NodeLoader.state A e).
Proof. intros s H. exact H. Qed.

Lemma pr_lift {A} (r : result A) : preserves P (lift r).
Proof. intros s H. exact H. Qed.

Lemma pr_gets {A} (f : NodeLoader.state -> A) : preserves P (gets f).
Proof. intros s H. exact H. Qed.

Lemma pr_modify (f : NodeLoader.state -> NodeLoader.state) :
  (forall s, P s -> P (f s)) -> preserves P (modify f).
Proof. intros H s. apply H. Qed.

Lemma pr_bind {A B} (m : M NodeLoader.state A) (k : A -> M NodeLoader.state B) :
  preserves P m -> (forall a, preserves P (k a)) -> preserves P (bind m k).
Proof.
  intros Hm Hk s Ps. unfold bind. specialize (Hm s Ps).
  destruct (m s) as [[a|e] s1]; cbn in Hm |- *; [|exact Hm].
  now apply Hk.
Qed.


Lemma pr_when (c : bool) (m : M NodeLoader.state unit) :
  preserves P m -> preserves P (when c m).
Proof. destruct c; intros H; [exact H | apply pr_ret]. Qed.



Lemma pr_for_each {X} (xs : list X) (body : X -> M NodeLoader.state unit) :
  (forall x, preserves P (body x)) -> preserves P (for_each xs body).
Proof.
  intros H. induction xs as [|x xs IH]; cbn [for_each]; [apply pr_ret|].
  apply pr_bind; [apply H | intros _; exact IH].
Qed.

End Invariant.

(** Goes through a sequence of steps, leaving those that need a reason. *)
Ltac preserves :=
  repeat lazymatch goal with
    | |- preserves _ (bind _ _) => apply pr_bind; [|intros ?]
    | |- preserves _ (for_each _ _) => apply pr_for_each; intros ?
    | |- preserves _ (when _ _) => apply pr_when
    | |- preserves _ (modify _) => apply pr_modify; intros ? H; exact H
    | |- preserves _ (ret _) => apply pr_ret
    | |- preserves _ (raise _) => apply pr_raise
    | |- preserves _ (lift _) => apply pr_lift
    | |- preserves _ (gets _) => apply pr_gets
    end.


















End InvariantFacts.



(* ================================================================= *)
(** * loader.py: convert_to_kgx *)

Module KgxFacts.

Import MonadFacts.
Import NodeLoader.

Lemma combinations_length {A} (l : list A) :
  (2 * List.length (combinations l) = List.length l * (List.length l - 1))%nat.
Proof.
  induction l as [|x l IH]; [reflexivity|].
  cbn [combinations List.length]. rewrite length_app, length_map. nia.
Qed.

Lemma same_as_edge_ends K comp source c edge :
  same_as_edge K comp source c = Ok edge -> edge_ends edge = pair_ids c.
Proof.
  unfold same_as_edge, edge_ends, pair_ids.
  destruct (getitem (fst c) "id") as [i|e]; cbn; [|discriminate].
  destruct i; cbn; try discriminate.
  destruct (getitem (snd c) "id") as [j|e]; cbn; [|discriminate].
  destruct j; cbn; try discriminate.
  now intros [= <-].
Qed.

(** The loop of lines 112-117 over the pairs. *)
Lemma edges_loop K comp source (cs : list (json * json)) : forall st st',
  for_each cs (fun c =>
    edge <- lift (same_as_edge K comp source c) ;;
    modify (fun k => set_edges (edges k ++ [edge]) k)) st = (Ok tt, st') ->
  exists es,
    map_result (same_as_edge K comp source) cs = Ok es /\
    st' = set_edges (edges st ++ es) st.
Proof.
  induction cs as [|c cs IH]; intros st st' H; cbn [for_each] in H.
  - injection H as <-. exists []. split; [reflexivity|].
    destruct st. cbn. now rewrite app_nil_r.
  - unbind H as u st1 Step. destruct u.
    unbind Step as edge st0 Ed. apply lift_ok in Ed as [Ed ->].
    apply modify_ok in Step. subst st1.
    apply IH in H as (es & Hes & ->).
    exists (edge :: es). split.
    + cbn. rewrite Ed. cbn. now rewrite Hes.
    + destruct st. cbn. now rewrite <- app_assoc.
Qed.

(** One line below the write threshold. *)
Lemma kgx_line_below K comp source l st st' :
  kgx_line K comp source l st = (Ok tt, st') ->
  (kgx_line_counter st + 1)%Z <> 10000%Z ->
  exists pn es,
    line_nodes l = Ok pn /\
    map_result (same_as_edge K comp source) (combinations pn) = Ok es /\
    st' = mkKgx (kgx_line_counter st + 1)%Z (nodes st ++ pn) (edges st ++ es)
                (first st) (node_file st) (edge_file st).
Proof.
  unfold kgx_line, line_nodes. intros H Below.
  unbind H as u0 st0 M0. apply modify_ok in M0. subst st0.
  unbind H as instance st1 J. apply lift_ok in J as [J ->]. rewrite J. cbn [rbind].
  unbind H as n st2 Len. apply lift_ok in Len as [Len ->]. rewrite Len. cbn [rbind].
  unbind H as pass_nodes st3 Pass.
  assert (P : exists es,
            (if Nat.ltb 0 n
             then rbind (rbind (getitem instance "equivalent_identifiers") iterate)
                        (map_result (pass_node instance))
             else Ok []) = Ok pass_nodes /\
            map_result (same_as_edge K comp source) (combinations pass_nodes) = Ok es /\
            st3 = set_edges (edges st ++ es)
                    (set_kgx_line_counter (kgx_line_counter st + 1)%Z st)).
  { destruct (Nat.ltb 0 n).
    - unbind Pass as members st4 Mem. apply lift_ok in Mem as [Mem ->].
      unbind Pass as pn st5 Pn. apply lift_ok in Pn as [Pn ->].
      unbind Pass as u1 st6 Loop. destruct u1.
      injection Pass as <- <-.
      apply edges_loop in Loop as (es & Hes & ->).
      exists es. rewrite Mem. cbn [rbind]. now repeat split.
    - injection Pass as <- <-. exists []. repeat split.
      destruct st. cbn. now rewrite app_nil_r. }
  destruct P as (es & Hpn & Hes & ->).
  exists pass_nodes, es. split; [exact Hpn|]. split; [exact Hes|].
  unbind H as u2 st7 M2. apply modify_ok in M2. subst st7.
  unbind H as lc st8 G. apply gets_ok in G as [-> ->].
  destruct st. cbn in H, Below |- *.
  destruct (Z.eqb_spec (kgx_line_counter0 + 1) 10000) as [Eq|_]; [contradiction|].
  cbn in H. now injection H as <-.
Qed.

(** The lines of a file that stays below the write threshold. *)
Lemma kgx_lines_below K comp source (ls : list line) : forall st st',
  for_each ls (kgx_line K comp source) st = (Ok tt, st') ->
  (kgx_line_counter st + Z.of_nat (List.length ls) < 10000)%Z ->
  exists Ns Es,
    map_result line_nodes ls = Ok Ns /\
    st' = mkKgx (kgx_line_counter st + Z.of_nat (List.length ls))%Z
                (nodes st ++ List.concat Ns) (edges st ++ List.concat Es)
                (first st) (node_file st) (edge_file st).
Proof.
  induction ls as [|l ls IH]; intros st st' H Below; cbn [for_each] in H.
  - injection H as <-. exists [], []. split; [reflexivity|].
    destruct st. cbn. now rewrite Z.add_0_r, !app_nil_r.
  - cbn [List.length] in Below |- *.
    unbind H as u st1 Line. destruct u.
    apply kgx_line_below in Line as (pn & es & Hpn & _ & ->); [|lia].
    apply IH in H as (Ns & Es & HNs & ->); [|cbn; lia].
    exists (pn :: Ns), (es :: Es). split.
    + cbn. rewrite Hpn. cbn. now rewrite HNs.
    + cbn. rewrite <- !app_assoc. f_equal. lia.
Qed.

(** A valid file that stays below the write threshold: what [nodes] holds
    when the file starts is written with the nodes of the file, and stays
    in [nodes]. *)
Lemma kgx_file_below C K E comp (ls : list line) st st' :
  validate_compendia C E comp = Ok true ->
  files E comp = Some ls ->
  (kgx_line_counter st + Z.of_nat (List.length ls) < 10000)%Z ->
  kgx_file C K E comp st = (Ok tt, st') ->
  exists Ns,
    map_result line_nodes ls = Ok Ns /\
    nodes st' = nodes st ++ List.concat Ns /\
    kgx_line_counter st' = (kgx_line_counter st + Z.of_nat (List.length ls))%Z /\
    node_file st' =
      node_file st ++
      match nodes st' with
      | [] => []
      | _ :: _ => [(String "010" EmptyString, nodes st')]
      end.
Proof.
  intros Valid Files Below H. unfold kgx_file in H.
  unbind H as valid st0 V. apply lift_ok in V as [V ->].
  rewrite Valid in V. injection V as <-. rewrite Files in H.
  unbind H as u st1 Lines. destruct u.
  apply kgx_lines_below in Lines as (Ns & Es & HNs & ->); [|exact Below].
  exists Ns. split; [exact HNs|].
  unbind H as ns st2 G. apply gets_ok in G as [-> ->].
  unbind H as u st3 WN.
  unbind H as es st4 G. apply gets_ok in G as [-> ->].
  assert (Same : nodes st' = nodes st3 /\ kgx_line_counter st' = kgx_line_counter st3 /\
                 node_file st' = node_file st3).
  { unfold when in H. destruct (Nat.ltb 0 (List.length (edges st3))).
    - apply modify_ok in H. now subst.
    - now injection H as <-. }
  destruct Same as (-> & -> & ->). clear H.
  cbn [nodes] in WN. unfold when in WN.
  destruct (nodes st ++ List.concat Ns) as [|x xs] eqn:N; cbn in WN.
  - injection WN as _ <-. cbn. repeat split. now rewrite app_nil_r.
  - apply modify_ok in WN. subst st3. cbn. now repeat split.
Qed.

End KgxFacts.

(** One line of a compendium in [convert_to_kgx]: a node for each
    equivalent identifier of the record, and an edge for each pair of nodes,
    from the earlier to the later one; for n nodes that is n(n-1)/2
    edges. *)
Theorem kgx_line_makes_an_edge_for_every_pair (K : NodeLoader.kgx_env)
  (comp source : string) (l : line) (st st' : NodeLoader.kgx) :
  NodeLoader.kgx_line K comp source l st = (Ok tt, st') ->
  (NodeLoader.kgx_line_counter st + 1)%Z <> 10000%Z ->
  exists pn es,
    line_nodes l = Ok pn /\
    NodeLoader.nodes st' = NodeLoader.nodes st ++ pn /\
    NodeLoader.edges st' = NodeLoader.edges st ++ es /\
    (2 * List.length es = List.length pn * (List.length pn - 1))%nat /\
    map edge_ends es = map pair_ids (NodeLoader.combinations pn).
Proof.
  intros H Below.
  destruct (@KgxFacts.kgx_line_below K comp source l st st' H Below)
    as (pn & es & Hpn & Hes & ->).
  exists pn, es. repeat split; try assumption.
  - rewrite <- KgxFacts.combinations_length.
    clear - Hes. revert es Hes.
    induction (NodeLoader.combinations pn) as [|c cs IH]; intros es Hes; cbn in Hes.
    + now injection Hes as <-.
    + destruct (NodeLoader.same_as_edge K comp source c); cbn in Hes; [|discriminate].
      destruct (map_result (NodeLoader.same_as_edge K comp source) cs) as [es'|];
        cbn in Hes; [|discriminate].
      injection Hes as <-. cbn. specialize (IH es' eq_refl). lia.
  - clear - Hes. revert es Hes.
    induction (NodeLoader.combinations pn) as [|c cs IH]; intros es Hes; cbn in Hes.
    + now injection Hes as <-.
    + destruct (NodeLoader.same_as_edge K comp source c) as [edge|] eqn:Ed;
        cbn in Hes; [|discriminate].
      destruct (map_result (NodeLoader.same_as_edge K comp source) cs) as [es'|];
        cbn in Hes; [|discriminate].
      injection Hes as <-. cbn.
      now rewrite (@KgxFacts.same_as_edge_ends K comp source c edge Ed), (IH es' eq_refl).
Qed.

(** A record with two equivalent identifiers: two nodes, and one edge from
    the first to the second. *)
Lemma kgx_line_makes_an_edge_for_every_pair_witness :
  let st' := snd (NodeLoader.kgx_line example_kgx "genes_legacy.txt" "genes_legacy.txt"
                    (Encoded gene_record_twice) NodeLoader.kgx_start) in
  List.length (NodeLoader.nodes st') = 2%nat /\
  map edge_ends (NodeLoader.edges st')
    = [(Ok (JStr "NCBIGene:1017"), Ok (JStr "HGNC:1771"))].
Proof.
  cbv zeta.
  assert (Below : (NodeLoader.kgx_line_counter NodeLoader.kgx_start + 1)%Z <> 10000%Z)
    by discriminate.
  assert (Run : NodeLoader.kgx_line example_kgx "genes_legacy.txt" "genes_legacy.txt"
                  (Encoded gene_record_twice) NodeLoader.kgx_start
                = (Ok tt, snd (NodeLoader.kgx_line example_kgx "genes_legacy.txt"
                                 "genes_legacy.txt" (Encoded gene_record_twice)
                                 NodeLoader.kgx_start)))
    by (vm_compute; reflexivity).
  destruct (@kgx_line_makes_an_edge_for_every_pair example_kgx "genes_legacy.txt"
              "genes_legacy.txt" (Encoded gene_record_twice) NodeLoader.kgx_start _
              Run Below)
    as (pn & es & Hpn & Hn & He & _ & Ends).
  rewrite Hn, He. vm_compute in Hpn. injection Hpn as <-. split; [reflexivity|].
  cbn [NodeLoader.edges NodeLoader.kgx_start app]. rewrite Ends.
  vm_compute. reflexivity.
Defined.

(** [convert_to_kgx] over two valid files with fewer than 10000 lines
    between them: the nodes of the first file are written at its end and
    stay in [nodes], so they are written a second time, in front of the
    nodes of the second file, at the end of the second file. *)
Theorem kgx_writes_the_nodes_of_the_first_file_twice (C : NodeLoader.config)
  (K : NodeLoader.kgx_env) (E : env) (c1 c2 : string) (l1 l2 : list line) :
  NodeLoader.validate_compendia C E c1 = Ok true ->
  NodeLoader.validate_compendia C E c2 = Ok true ->
  files E c1 = Some l1 ->
  files E c2 = Some l2 ->
  (Z.of_nat (List.length l1) + Z.of_nat (List.length l2) < 10000)%Z ->
  fst (NodeLoader.convert_to_kgx C K E [c1; c2]) = Ok true ->
  exists N1 N2,
    map_result line_nodes l1 = Ok N1 /\
    map_result line_nodes l2 = Ok N2 /\
    (List.concat N1 <> [] ->
     NodeLoader.node_file (snd (NodeLoader.convert_to_kgx C K E [c1; c2])) =
       [(String "010" EmptyString, List.concat N1);
        (String "010" EmptyString, List.concat N1 ++ List.concat N2)]).
Proof.
  intros V1 V2 F1 F2 Short Done.
  unfold NodeLoader.convert_to_kgx, try_except in *.
  match type of Done with
  | context [match ?body with _ => _ end] => destruct body as [[b|e] st] eqn:B
  end; [|discriminate Done].
  cbn [snd]. clear Done.
  unbind B as u0 st0 Open.
  assert (st0 = NodeLoader.kgx_start) as ->.
  { destruct (NodeLoader.can_write K); [now injection Open as _ <- | discriminate Open]. }
  clear Open.
  unbind B as u1 st1 Loop. injection B as _ <-. destruct u1.
  cbn [for_each] in Loop.
  unbind Loop as u2 st2 File1. destruct u2.
  unbind Loop as u3 st3 File2. destruct u3. injection Loop as <-.
  apply (@KgxFacts.kgx_file_below C K E c1 l1 _ _ V1 F1) in File1
    as (N1 & HN1 & Nodes1 & Count1 & Out1);
    [|cbn; lia].
  apply (@KgxFacts.kgx_file_below C K E c2 l2 _ _ V2 F2) in File2
    as (N2 & HN2 & Nodes2 & Count2 & Out2);
    [|rewrite Count1; cbn; lia].
  exists N1, N2. split; [exact HN1|]. split; [exact HN2|].
  intros Some1. cbn in Nodes1, Out1.
  rewrite Out2, Out1, Nodes2, Nodes1.
  destruct (List.concat N1) as [|x xs]; [now destruct Some1 | reflexivity].
Qed.

(** The file of one gene, converted twice in a row: the node is written
    once at the end of the first pass over the file and twice at the end of
    the second. *)
Lemma kgx_writes_the_nodes_of_the_first_file_twice_witness :
  exists node,
    NodeLoader.node_file
      (snd (NodeLoader.convert_to_kgx example_config example_kgx example_env
              ["genes_legacy.txt"; "genes_legacy.txt"]%string))
    = [(String "010" EmptyString, [node]); (String "010" EmptyString, [node; node])].
Proof.
  assert (Short : (Z.of_nat (List.length [Encoded gene_record_legacy])
                   + Z.of_nat (List.length [Encoded gene_record_legacy]) < 10000)%Z)
    by reflexivity.
  destruct (@kgx_writes_the_nodes_of_the_first_file_twice example_config example_kgx
              example_env "genes_legacy.txt" "genes_legacy.txt"
              [Encoded gene_record_legacy] [Encoded gene_record_legacy]
              eq_refl eq_refl eq_refl eq_refl Short eq_refl)
    as (N1 & N2 & H1 & H2 & Twice).
  vm_compute in H1. injection H1 as <-.
  vm_compute in H2. injection H2 as <-.
  eexists. rewrite Twice; [reflexivity | discriminate].
Defined.
